(** * Synthetic focus groups: group dynamics, discussion loop, survey endpoint

    A shallow embedding of the parts of the repository that the checked
    properties talk about:

    - [Dynamics]: the two group-dynamics functions of the product
      specification, [calculate_conformity_pressure] and
      [calculate_influence];
    - [Sketch]: the [DiscussionSimulator] implementation pattern
      ([run_session], [run_round]) of the product specification;
    - [Engine]: the turn scheduler that the sources only declare
      ([DiscussionSimulator.run], [Participant.should_speak], ...);
    - [Survey]: the Cloudflare Pages function [onRequestPost];
    - [Admin]: the export function [onRequestGet] of the survey;
    - [Intake]: submissions handled one after the other.

    Python floats are idealised as exact rationals ([Q]).  The JavaScript
    numbers of the survey's counter are doubles: [NaN], the infinities
    and the doubles whose value is an integer, with the rounding of
    [parseInt] and of [+ 1] written out. *)

From Stdlib Require Import QArith Qminmax Qabs Lqa ZArith Lia.
From Stdlib Require Import Ascii Decimal DecimalString DecimalZ DecimalPos.
From stdpp Require Import gmap strings list sorting.

Local Open Scope Q_scope.

(** ** Rational helpers shared by the modules *)

(** [clamp x lo hi]: the value of [x] forced into [[lo, hi]]. *)
Definition clamp (x lo hi : Q) : Q := Qmin hi (Qmax lo x).

(** ** The group-dynamics functions of the product specification *)

Module Dynamics.

(** The attributes of a persona that the two functions read.  The trait
    attributes are the ones "normalized to 0-1 for all dynamics math". *)
Record Persona := mkPersona {
  agreeableness : Q;
  conviction : Q;
  extraversion : Q;
  perceived_expertise : Q;
  speak_count_ratio : Q
}.

Inductive Direction := Positive | Negative | Mixed.

(** What [calculate_conformity_pressure] receives as [group_sentiment]: the
    expressed sentiment of each prior speaker of the round, and the
    group's dominant direction. *)
Record GroupSentiment := mkGroupSentiment {
  prior_sentiments : list Q;
  dominant : Direction
}.

(** Modelled from the spec: the helper [count_agreeing], which the sources
    call but do not define; it counts the "prior speakers in this round
    sharing the group's dominant direction". *)
Definition shares_direction (d : Direction) (s : Q) : bool :=
  match d with
  | Positive => negb (Qle_bool s 0)
  | Negative => negb (Qle_bool 0 s)
  | Mixed => false
  end.

Definition count_agreeing (g : GroupSentiment) : nat :=
  length (List.filter (shares_direction (dominant g)) (prior_sentiments g)).

(** Modelled from the spec: [total_speakers], a free name in the source,
    is the number of prior speakers of the round. *)
Definition total_speakers (g : GroupSentiment) : nat := length (prior_sentiments g).

(** Python's true division of two ints: [ZeroDivisionError] is [None]. *)
Definition py_div (a b : nat) : option Q :=
  match b with
  | O => None
  | S _ => Some (inject_Z (Z.of_nat a) / inject_Z (Z.of_nat b))
  end.

Section Conformity.

(** [CONFORMITY_WEIGHT] is a module constant whose value is not in the
    sources. *)
Variable CONFORMITY_WEIGHT : Q.

(** The value before the final [max]: [pressure - resistance]. *)
Definition net_pressure (agreement_ratio : Q) (persona : Persona) : Q :=
  let pressure := agreement_ratio * agreeableness persona * CONFORMITY_WEIGHT in
  let resistance := conviction persona * (1 - agreeableness persona) in
  pressure - resistance.

(** [calculate_conformity_pressure(persona, group_sentiment)]. *)
Definition calculate_conformity_pressure (persona : Persona) (group_sentiment : GroupSentiment)
  : option Q :=
  match py_div (count_agreeing group_sentiment) (total_speakers group_sentiment) with
  | None => None
  | Some agreement_ratio => Some (Qmax 0 (net_pressure agreement_ratio persona))
  end.

End Conformity.

(** [calculate_influence(persona, group_state)]; the body does not read
    [group_state]. *)
Definition calculate_influence {GroupState : Type} (persona : Persona)
    (group_state : GroupState) : Q :=
  extraversion persona * 0.4 + perceived_expertise persona * 0.4
  + speak_count_ratio persona * 0.2.

(** Modelled from the spec: trait scores are supplied on a 0-100 scale
    and "normalized to 0-1 for all dynamics math". *)
Definition normalize (score : Q) : Q := score / 100.

End Dynamics.

(** ** The [DiscussionSimulator] implementation pattern *)

Module Sketch.

(** One entry of [self.transcript].  The moderator's entries carry only
    [speaker] and [text]; a persona's entry also carries [persona_id],
    [sentiment] and [conviction]. *)
Record Entry := mkEntry {
  speaker : string;
  persona_id : option string;
  text : string;
  sentiment : option Q;
  entry_conviction : option Q
}.

Record Response := mkResponse {
  response_text : string;
  response_sentiment : Q;
  response_conviction : Q
}.

Record PersonaAgent := mkPersonaAgent {
  agent_name : string;
  agent_id : string
}.

Record SectionGuide := mkSectionGuide {
  section_title : string;
  max_rounds : nat
}.

(** The value returned by [moderator.evaluate_round]. *)
Record ModAction := mkModAction {
  action_type : string;
  action_prompt : string
}.

Section Simulator.

(** The methods that the pattern calls and the sources do not define are
    taken as given.  [Hidden] is the part of the simulator object they
    read and write (group state, the moderator's and the personas' private
    state). *)
Variables Hidden GroupState : Type.
Variable introduce_section : Hidden -> SectionGuide -> string.
Variable evaluate_round : Hidden -> list Response -> SectionGuide -> ModAction.
Variable get_speaking_order : Hidden -> list PersonaAgent.
Variable get_group_state : Hidden -> GroupState.
Variable decide_to_speak :
  Hidden -> PersonaAgent -> string -> list Response -> GroupState -> bool.
Variable generate_response :
  Hidden -> PersonaAgent -> string -> list Response -> GroupState -> Response.
Variable update_group_state : Hidden -> PersonaAgent -> Response -> Hidden.

(** The fields of [self] that the two methods touch. *)
Record Simulator := mkSimulator {
  transcript : list Entry;
  turn_count : nat;
  hidden : Hidden
}.

(** [DiscussionSimulator.__init__]. *)
Definition init (h : Hidden) : Simulator :=
  {| transcript := []; turn_count := 0; hidden := h |}.

Definition moderator_entry (mod_prompt : string) : Entry :=
  {| speaker := "moderator"; persona_id := None; text := mod_prompt;
     sentiment := None; entry_conviction := None |}.

Definition persona_entry (persona : PersonaAgent) (response : Response) : Entry :=
  {| speaker := agent_name persona; persona_id := Some (agent_id persona);
     text := response_text response;
     sentiment := Some (response_sentiment response);
     entry_conviction := Some (response_conviction response) |}.

Definition append_entry (e : Entry) (sim : Simulator) : Simulator :=
  {| transcript := transcript sim ++ [e]; turn_count := turn_count sim;
     hidden := hidden sim |}.

(** The body of [run_round]: the loop over [self.get_speaking_order()],
    which is evaluated once, before the first iteration. *)
Fixpoint speak_in_order (order : list PersonaAgent) (prompt : string)
    (sim : Simulator) (responses : list Response) : Simulator * list Response :=
  match order with
  | [] => (sim, responses)
  | persona :: rest =>
      if decide_to_speak (hidden sim) persona prompt responses
           (get_group_state (hidden sim)) then
        let response :=
          generate_response (hidden sim) persona prompt responses
            (get_group_state (hidden sim)) in
        let sim1 := append_entry (persona_entry persona response) sim in
        let sim2 := {| transcript := transcript sim1; turn_count := turn_count sim1;
                       hidden := update_group_state (hidden sim1) persona response |} in
        speak_in_order rest prompt sim2 (responses ++ [response])
      else speak_in_order rest prompt sim responses
  end.

Definition run_round (prompt : string) (section : SectionGuide) (sim : Simulator)
  : Simulator * list Response :=
  speak_in_order (get_speaking_order (hidden sim)) prompt sim [].

(** [for round_num in range(section.max_rounds)], with its two [break]s. *)
Fixpoint run_rounds (rounds_left : nat) (mod_prompt : string) (section : SectionGuide)
    (sim : Simulator) : Simulator :=
  match rounds_left with
  | O => sim
  | S rounds_left' =>
      let '(sim1, responses) := run_round mod_prompt section sim in
      match responses with
      | [] => sim1
      | _ :: _ =>
          let mod_action := evaluate_round (hidden sim1) responses section in
          if String.eqb (action_type mod_action) "follow_up" then
            run_rounds rounds_left' (action_prompt mod_action) section
              (append_entry (moderator_entry (action_prompt mod_action)) sim1)
          else if String.eqb (action_type mod_action) "draw_out" then
            run_rounds rounds_left' (action_prompt mod_action) section
              (append_entry (moderator_entry (action_prompt mod_action)) sim1)
          else if String.eqb (action_type mod_action) "move_on" then sim1
          else run_rounds rounds_left' mod_prompt section sim1
      end
  end.

Definition run_section (sim : Simulator) (section : SectionGuide) : Simulator :=
  let mod_prompt := introduce_section (hidden sim) section in
  run_rounds (max_rounds section) mod_prompt section
    (append_entry (moderator_entry mod_prompt) sim).

(** [run_session(discussion_guide)]; the result is [self.transcript]. *)
Definition run_session (sections : list SectionGuide) (sim : Simulator) : list Entry :=
  transcript (fold_left run_section sections sim).

End Simulator.

Arguments mkSimulator {Hidden} _ _ _.
Arguments transcript {Hidden} _.
Arguments turn_count {Hidden} _.
Arguments hidden {Hidden} _.
Arguments init {Hidden} _.
Arguments append_entry {Hidden} _ _.
Arguments speak_in_order {Hidden GroupState} _ _ _ _ _ _ _ _.
Arguments run_round {Hidden GroupState} _ _ _ _ _ _ _ _.
Arguments run_rounds {Hidden GroupState} _ _ _ _ _ _ _ _ _ _.
Arguments run_section {Hidden GroupState} _ _ _ _ _ _ _ _ _.
Arguments run_session {Hidden GroupState} _ _ _ _ _ _ _ _ _.

End Sketch.

(** ** The discussion simulation engine

    Modelled from the spec: the turn scheduler, the respondent selection,
    the participant contract and the failure policy
    ([DiscussionSimulator.run], [_run_phase], [Moderator.select_respondents],
    [Participant.should_speak], [Participant.respond], the transcript
    recorder).  The sources declare them, with docstrings, and hold no body
    for any of them. *)

Module Engine.

(** *** Data model *)

Inductive Phase := Warmup | Exploration | DeepDive | Reaction | Synthesis.

Inductive MessageRole := Moderator | Participant | System.

#[global] Instance Phase_eq_dec : EqDecision Phase.
Proof. solve_decision. Defined.

#[global] Instance MessageRole_eq_dec : EqDecision MessageRole.
Proof. solve_decision. Defined.

(** The immutable profile.  Trait scores are on the 0-100 scale. *)
Record Persona := mkPersona {
  persona_id : string;
  persona_name : string;
  demographics : string;
  openness : Q;
  conscientiousness : Q;
  extraversion : Q;
  agreeableness : Q;
  neuroticism : Q;
  voice_style : string;
  perceived_expertise : Q;
  social_desirability_bias : Q;
  initial_valence : Q;
  conviction : Q
}.

Record ParticipantState := mkParticipantState {
  currentOpinionValence : Q;
  expressedHistory : list Q;
  speakCount : nat;
  lastSpokeTurn : option nat;
  cumulativeInfluenceReceived : Q
}.

Record Agent := mkAgent {
  persona : Persona;
  pstate : ParticipantState
}.

Record GroupState := mkGroupState {
  meanSentiment : Q;
  varianceSentiment : Q;
  dominantDirection : Dynamics.Direction;
  opinionLeaderId : option string;
  turnCounter : nat
}.

Record Message := mkMessage {
  speakerId : string;
  role : MessageRole;
  phase : Phase;
  turnNumber : nat;
  content : string;
  expressedSentiment : Q;
  rawSentiment : option Q;
  repliedTo : option string;
  changedMind : bool
}.

Record Config := mkConfig {
  product_concept : string;
  category : string;
  stimulus_material : option string;
  num_personas : nat;
  phases : list Phase;
  questions_per_phase : nat;
  max_responses_per_question : nat;
  temperature : Q;
  model : string;
  seed : Z;
  failure_threshold : nat
}.

Record Transcript := mkTranscript {
  config_echo : Config;
  transcript_messages : list Message;
  final_states : list (string * ParticipantState)
}.

(** *** The generation capability *)

Record GenRequest := mkGenRequest {
  systemPrompt : string;
  userPrompt : string;
  req_temperature : Q;
  maxTokens : nat
}.

Inductive GenResult :=
  | Success (text : string) (inferredSentiment : Q)
  | TransientFailure
  | FatalFailure.

(** The numeric constants that the design names and leaves open. *)
Record Constants := mkConstants {
  CONFORMITY_WEIGHT : Q;
  ADDRESS_BONUS : Q;
  DIVERGENCE_BONUS : Q;
  RECENCY_PENALTY : Q;
  HIGH_CONVICTION : Q;
  CASCADE_THRESHOLD : Q;
  CASCADE_FACTOR : Q;
  FOLLOWUP_THRESHOLD : Q;
  FOLLOWUP_RATE : Q;
  SOFTENING_JITTER : Q;
  DIRECTION_MARGIN : Q;
  RESAMPLE_LIMIT : nat
}.

(** *** The seeded pseudo-random source

    Modelled from the spec: the "single seeded pseudo-random source threaded
    through the whole run"; the sources name no generator, a linear
    congruential one stands for it. *)

Definition RNG_MODULUS : positive := 2147483648.

Definition rng_next (s : Z) : Z := (1103515245 * s + 12345) mod (Zpos RNG_MODULUS).

(** A draw in [[0, 1)] and the advanced source. *)
Definition rng_draw (s : Z) : Q * Z :=
  let s' := rng_next s in (s' # RNG_MODULUS, s').

(** An index below [n] (0 when [n] is 0) and the advanced source. *)
Definition rng_index (n : nat) (s : Z) : nat * Z :=
  let s' := rng_next s in (Z.to_nat (s' mod Z.of_nat n), s').

Definition Qlt_bool (a b : Q) : bool := negb (Qle_bool b a).

(** Modelled from the spec: the defensive clamp of a valence; every
    valence written into a participant's state passes through here. *)
Definition clamp_valence (v : Q) : Q := Qred (clamp v (-1) 1).

(** *** Group dynamics on the engine's state *)

Definition total_speaks (agents : list Agent) : nat :=
  fold_right (fun a n => (speakCount (pstate a) + n)%nat) O agents.

Definition speak_ratio (agents : list Agent) (a : Agent) : Q :=
  match total_speaks agents with
  | O => 0
  | S _ as t => inject_Z (Z.of_nat (speakCount (pstate a))) / inject_Z (Z.of_nat t)
  end.

(** The participant as the functions of [Dynamics] read it. *)
Definition dynamics_view (agents : list Agent) (a : Agent) : Dynamics.Persona :=
  {| Dynamics.agreeableness := Dynamics.normalize (agreeableness (persona a));
     Dynamics.conviction := conviction (persona a);
     Dynamics.extraversion := Dynamics.normalize (extraversion (persona a));
     Dynamics.perceived_expertise := perceived_expertise (persona a);
     Dynamics.speak_count_ratio := speak_ratio agents a |}.

Definition influence (agents : list Agent) (a : Agent) : Q :=
  Dynamics.calculate_influence (dynamics_view agents a) agents.

Definition has_spoken (a : Agent) : bool := negb (Nat.eqb (speakCount (pstate a)) 0).

(** The first element of [l] with the greatest [f]. *)
Fixpoint best_by (f : Agent -> Q) (l : list Agent) : option Agent :=
  match l with
  | [] => None
  | a :: rest =>
      match best_by f rest with
      | None => Some a
      | Some b => if Qlt_bool (f a) (f b) then Some b else Some a
      end
  end.

(** Modelled from the spec: opinion-leader selection, "the participant
    with maximum influence among those who have spoken"; the sources hold
    [calculate_influence] and no selection. *)
Definition select_leader (agents : list Agent) : option string :=
  match best_by (influence agents) (List.filter has_spoken agents) with
  | None => None
  | Some a => Some (persona_id (persona a))
  end.

Definition qsum (l : list Q) : Q := fold_right Qplus 0 l.

Definition mean (l : list Q) : Q :=
  match l with
  | [] => 0
  | _ :: _ => Qred (qsum l / inject_Z (Z.of_nat (length l)))
  end.

Definition variance (l : list Q) : Q :=
  let m := mean l in mean (map (fun x => (x - m) * (x - m)) l).

Definition is_participant_message (m : Message) : bool :=
  match role m with Participant => true | _ => false end.

Definition expressed_so_far (msgs : list Message) : list Q :=
  map expressedSentiment (List.filter is_participant_message msgs).

Section Dynamics.

Variable K : Constants.

Definition direction_of (m : Q) : Dynamics.Direction :=
  if Qlt_bool (DIRECTION_MARGIN K) m then Dynamics.Positive
  else if Qlt_bool m (- DIRECTION_MARGIN K) then Dynamics.Negative
  else Dynamics.Mixed.

(** Modelled from the spec: the group state, "rebuilt each turn" from the
    participants and the transcript; only the turn counter is carried
    over. *)
Definition refresh_group (agents : list Agent) (msgs : list Message) (g : GroupState)
  : GroupState :=
  let xs := expressed_so_far msgs in
  {| meanSentiment := mean xs;
     varianceSentiment := variance xs;
     dominantDirection := direction_of (mean xs);
     opinionLeaderId := select_leader agents;
     turnCounter := turnCounter g |}.

(** Modelled from the spec: [conformityPressure(participant, groupState)]
    as the engine calls it, on the expressed sentiments of the prior
    speakers of the round; no pressure on the first speaker. *)
Definition conformityPressure (agents : list Agent) (a : Agent) (round_sentiments : list Q)
    (g : GroupState) : Q :=
  match Dynamics.calculate_conformity_pressure (CONFORMITY_WEIGHT K) (dynamics_view agents a)
          {| Dynamics.prior_sentiments := round_sentiments;
             Dynamics.dominant := dominantDirection g |} with
  | None => 0
  | Some v => clamp v 0 1
  end.

Definition direction_target (d : Dynamics.Direction) (raw : Q) : Q :=
  match d with
  | Dynamics.Positive => 1
  | Dynamics.Negative => -1
  | Dynamics.Mixed => raw
  end.

Definition opposes (d : Dynamics.Direction) (raw : Q) : bool :=
  match d with
  | Dynamics.Positive => Qlt_bool raw 0
  | Dynamics.Negative => Qlt_bool 0 raw
  | Dynamics.Mixed => false
  end.

(** Modelled from the spec: the expressed sentiment, the raw one pulled by
    the conformity pressure, then softened when it opposes the dominant
    direction. *)
Definition expressed_sentiment (agents : list Agent) (a : Agent) (round_sentiments : list Q)
    (g : GroupState) (raw jitter : Q) : Q :=
  let d := dominantDirection g in
  let pressure := conformityPressure agents a round_sentiments g in
  let pulled := raw + pressure * (direction_target d raw - raw) in
  let softened :=
    if opposes d raw then
      pulled * (1 - social_desirability_bias (persona a))
      + SOFTENING_JITTER K * (2 * jitter - 1)
    else pulled in
  Qred (clamp softened (-1) 1).

Definition set_valence (v : Q) (received : Q) (a : Agent) : Agent :=
  {| persona := persona a;
     pstate := {| currentOpinionValence := clamp_valence v;
                  expressedHistory := expressedHistory (pstate a);
                  speakCount := speakCount (pstate a);
                  lastSpokeTurn := lastSpokeTurn (pstate a);
                  cumulativeInfluenceReceived :=
                    Qred (cumulativeInfluenceReceived (pstate a) + received) |} |}.

(** Modelled from the spec: the polarization branch of the cascade, low
    agreeableness and high conviction. *)
Definition polarizes (p : Persona) : bool :=
  Qlt_bool (agreeableness p) 30 && Qle_bool (HIGH_CONVICTION K) (conviction p).

Definition nudge (leader_sentiment : Q) (a : Agent) : Agent :=
  let v := currentOpinionValence (pstate a) in
  let an := Dynamics.normalize (agreeableness (persona a)) in
  let delta :=
    if polarizes (persona a)
    then - (CASCADE_FACTOR K * (leader_sentiment - v) * (1 - an))
    else CASCADE_FACTOR K * (leader_sentiment - v) * an in
  set_valence (v + delta) (Qabs delta) a.

(** Modelled from the spec: the cascade; every participant other than the
    leader who has not yet spoken in the round is nudged. *)
Definition cascade (leader : nat) (leader_sentiment : Q) (spoken_now : list nat)
    (agents : list Agent) : list Agent :=
  imap (fun i a =>
          if bool_decide (i = leader) || bool_decide (i ∈ spoken_now) then a
          else nudge leader_sentiment a) agents.

(** Modelled from the spec: the participant's own update after speaking. *)
Definition speak_update (turn : nat) (new_valence expressed : Q) (a : Agent) : Agent :=
  {| persona := persona a;
     pstate := {| currentOpinionValence := clamp_valence new_valence;
                  expressedHistory := expressedHistory (pstate a) ++ [expressed];
                  speakCount := S (speakCount (pstate a));
                  lastSpokeTurn := Some turn;
                  cumulativeInfluenceReceived := cumulativeInfluenceReceived (pstate a) |} |}.

End Dynamics.

(** *** The speaking decision *)

(** Modelled from the spec: the base speak probability of
    [Participant.should_speak], by extraversion tertile. *)
Definition base_speak_probability (extraversion_score : Q) : Q :=
  if Qle_bool 70 extraversion_score then 0.85
  else if Qle_bool 30 extraversion_score then 0.60
  else 0.35.

(** Modelled from the spec: [Participant.should_speak], given whether the
    question names the participant, the selection probability and the
    draw taken from the seeded source. *)
Definition should_speak (addressed : bool) (probability draw : Q) : bool :=
  addressed || Qlt_bool draw probability.

(** *** The state of a run *)

Inductive Status := Running | Completed | Aborted (reason : string).

Record Round := mkRound {
  round_phase : Phase;
  round_question : string;
  round_start : nat;
  addressed : option nat;
  pending : list nat;
  spoken_now : list nat;
  spoken_before : list nat;
  round_sentiments : list Q;
  last_speaker : option string
}.

Record Counters := mkCounters {
  genCalls : nat;
  transientFailures : nat;
  consecutiveFailures : nat
}.

Record State := mkState {
  agenda : list (Phase * string);
  round : Round;
  agents : list Agent;
  group : GroupState;
  messages : list Message;
  rng : Z;
  counters : Counters;
  status : Status
}.

Definition set_pending (l : list nat) (r : Round) : Round :=
  {| round_phase := round_phase r; round_question := round_question r;
     round_start := round_start r; addressed := addressed r; pending := l;
     spoken_now := spoken_now r; spoken_before := spoken_before r;
     round_sentiments := round_sentiments r; last_speaker := last_speaker r |}.

Definition set_round (r : Round) (s : State) : State :=
  {| agenda := agenda s; round := r; agents := agents s; group := group s;
     messages := messages s; rng := rng s; counters := counters s; status := status s |}.

Definition set_counters (c : Counters) (s : State) : State :=
  {| agenda := agenda s; round := round s; agents := agents s; group := group s;
     messages := messages s; rng := rng s; counters := c; status := status s |}.

Definition set_status (st : Status) (s : State) : State :=
  {| agenda := agenda s; round := round s; agents := agents s; group := group s;
     messages := messages s; rng := rng s; counters := counters s; status := st |}.

Definition bump_turn (g : GroupState) : GroupState :=
  {| meanSentiment := meanSentiment g; varianceSentiment := varianceSentiment g;
     dominantDirection := dominantDirection g; opinionLeaderId := opinionLeaderId g;
     turnCounter := S (turnCounter g) |}.

(** A message before the recorder has numbered it. *)
Definition stamp (turn : nat) (m : Message) : Message :=
  {| speakerId := speakerId m; role := role m; phase := phase m; turnNumber := turn;
     content := content m; expressedSentiment := expressedSentiment m;
     rawSentiment := rawSentiment m; repliedTo := repliedTo m;
     changedMind := changedMind m |}.

(** Modelled from the spec: the transcript recorder of the run loop that
    the sources only declare ([DiscussionSimulator.run] of the discussion
    package, over [DiscussionMessage]).  The only way a message enters
    that transcript: it takes the shared turn counter as its [turnNumber]
    and advances the counter by one.  The session loop that the sources
    do hold, [run_session], is [Sketch]: its entries carry no turn number
    ([Sketch.append_entry]). *)
Definition append_message (m : Message) (s : State) : State :=
  {| agenda := agenda s; round := round s; agents := agents s;
     group := bump_turn (group s);
     messages := messages s ++ [stamp (turnCounter (group s)) m];
     rng := rng s; counters := counters s; status := status s |}.

Definition moderator_message (ph : Phase) (txt : string) (reply : option string) : Message :=
  {| speakerId := "moderator"; role := Moderator; phase := ph; turnNumber := 0;
     content := txt; expressedSentiment := 0; rawSentiment := None;
     repliedTo := reply; changedMind := false |}.

Definition system_message (ph : Phase) (txt : string) : Message :=
  {| speakerId := "system"; role := System; phase := ph; turnNumber := 0;
     content := txt; expressedSentiment := 0; rawSentiment := None;
     repliedTo := None; changedMind := false |}.

Definition ABORT_UNAVAILABLE : string := "aborted: generation unavailable".
Definition ABORT_FATAL : string := "aborted: generation failed fatally".

(** Modelled from the spec: the abort; one terminal system message, then
    the run is over. *)
Definition abort (reason : string) (s : State) : State :=
  set_status (Aborted reason)
    (append_message (system_message (round_phase (round s)) reason) s).

(** *** The moderator *)

Definition phase_opening (ph : Phase) : string :=
  match ph with
  | Warmup => "Tell us about yourself and your experience with "
  | Exploration => "What comes to mind when you hear about "
  | DeepDive => "What would you change about "
  | Reaction => "Having seen it, how do you react to "
  | Synthesis => "If it were available tomorrow, would you buy "
  end.

Definition phase_subject (cfg : Config) (ph : Phase) : string :=
  match ph with
  | Warmup => category cfg
  | _ => product_concept cfg
  end.

(** Modelled from the spec: [Moderator.generate_discussion_guide],
    [questions_per_phase] questions for each phase, in the configured
    order. *)
Definition generate_discussion_guide (cfg : Config) : list (Phase * string) :=
  flat_map (fun ph =>
              map (fun _ : nat => (ph, phase_opening ph +:+ phase_subject cfg ph +:+ "?"))
                  (seq 0 (questions_per_phase cfg)))
           (phases cfg).

(** The first participant with the fewest turns so far. *)
Fixpoint quietest_from (i : nat) (l : list Agent) : option (nat * nat) :=
  match l with
  | [] => None
  | a :: rest =>
      match quietest_from (S i) rest with
      | None => Some (i, speakCount (pstate a))
      | Some (j, c) =>
          if Nat.ltb c (speakCount (pstate a)) then Some (j, c)
          else Some (i, speakCount (pstate a))
      end
  end.

(** The probability of naming the quietest participant grows as their
    speak count falls below the group average. *)
Definition naming_probability (agents : list Agent) (count : nat) : Q :=
  match total_speaks agents with
  | O => 0
  | S _ as t =>
      let avg := inject_Z (Z.of_nat t) / inject_Z (Z.of_nat (length agents)) in
      clamp ((avg - inject_Z (Z.of_nat count)) / avg) 0 1
  end.

Definition choose_addressed (agents : list Agent) (draw : Q) : option nat :=
  match quietest_from 0 agents with
  | None => None
  | Some (i, c) => if Qlt_bool draw (naming_probability agents c) then Some i else None
  end.

Definition question_text (agents : list Agent) (who : option nat) (question : string) : string :=
  match who with
  | None => question
  | Some i =>
      match agents !! i with
      | Some a => persona_name (persona a) +:+ ", " +:+ question
      | None => question
      end
  end.

(** *** Respondent selection *)

Section Selection.

Variable K : Constants.

Definition is_recent (before : list nat) (i : nat) : bool := bool_decide (i ∈ before).

Definition is_addressed (who : option nat) (i : nat) : bool := bool_decide (who = Some i).

Definition is_divergent (g : GroupState) (a : Agent) : bool :=
  Qle_bool (HIGH_CONVICTION K) (conviction (persona a))
  && Qlt_bool (currentOpinionValence (pstate a) * meanSentiment g) 0.

Definition speak_probability (named recent divergent : bool) (p : Persona) : Q :=
  base_speak_probability (extraversion p)
  + (if named then ADDRESS_BONUS K else 0)
  + (if divergent then DIVERGENCE_BONUS K else 0)
  - (if recent then RECENCY_PENALTY K else 0).

(** Modelled from the spec: the respondent draw, one independent draw per
    participant. *)
Fixpoint draw_speakers (g : GroupState) (who : option nat) (before : list nat)
    (i : nat) (l : list Agent) (r : Z) : list nat * Z :=
  match l with
  | [] => ([], r)
  | a :: rest =>
      let '(u, r1) := rng_draw r in
      let '(sel, r2) := draw_speakers g who before (S i) rest r1 in
      let p := speak_probability (is_addressed who i) (is_recent before i)
                 (is_divergent g a) (persona a) in
      if should_speak (is_addressed who i) p u then (i :: sel, r2) else (sel, r2)
  end.

Definition in_bound (lo hi : nat) (sel : list nat) : bool :=
  Nat.leb lo (length sel) && Nat.leb (length sel) hi.

(** Resampling until the set is within the size bound, at most
    [RESAMPLE_LIMIT] more times; the last sample is cut to the upper
    bound. *)
Fixpoint draw_in_bound (attempts lo hi : nat) (g : GroupState) (who : option nat)
    (before : list nat) (l : list Agent) (r : Z) : list nat * Z :=
  let '(sel, r1) := draw_speakers g who before 0 l r in
  match attempts with
  | O => (firstn hi sel, r1)
  | S k =>
      if in_bound lo hi sel then (sel, r1)
      else draw_in_bound k lo hi g who before l r1
  end.

(** Modelled from the spec: the forced-speaker fallback, one random
    participant who did not speak in the preceding round (any participant
    when all of them did). *)
Definition force_one (n : nat) (before : list nat) (r : Z) : list nat * Z :=
  let non_recent := List.filter (fun i => negb (is_recent before i)) (seq 0 n) in
  let pool := match non_recent with [] => seq 0 n | _ :: _ => non_recent end in
  let '(k, r1) := rng_index (length pool) r in
  (match pool !! k with Some i => [i] | None => [] end, r1).

(** Modelled from the spec: [Moderator.select_respondents]. *)
Definition select_respondents (cfg : Config) (g : GroupState) (who : option nat)
    (before : list nat) (l : list Agent) (r : Z) : list nat * Z :=
  let hi := Nat.min (length l) (Nat.min 6 (max_responses_per_question cfg)) in
  let lo := Nat.min 3 hi in
  let '(sel, r1) := draw_in_bound (RESAMPLE_LIMIT K) lo hi g who before l r in
  match sel with
  | [] => force_one (length l) before r1
  | _ :: _ => (sel, r1)
  end.

(** Speaking order: highest influence first, ties broken by a drawn key. *)
Fixpoint with_tiebreaks (sel : list nat) (r : Z) : list (nat * Q) * Z :=
  match sel with
  | [] => ([], r)
  | i :: rest =>
      let '(u, r1) := rng_draw r in
      let '(keyed, r2) := with_tiebreaks rest r1 in
      ((i, u) :: keyed, r2)
  end.

Definition influence_at (l : list Agent) (i : nat) : Q :=
  match l !! i with
  | Some a => influence l a
  | None => 0
  end.

Definition goes_before (l : list Agent) (x y : nat * Q) : bool :=
  Qlt_bool (influence_at l (fst y)) (influence_at l (fst x))
  || (Qeq_bool (influence_at l (fst x)) (influence_at l (fst y))
      && Qlt_bool (snd y) (snd x)).

Fixpoint insert_by (l : list Agent) (x : nat * Q) (sorted : list (nat * Q)) : list (nat * Q) :=
  match sorted with
  | [] => [x]
  | y :: rest => if goes_before l x y then x :: y :: rest else y :: insert_by l x rest
  end.

Definition speaking_order (l : list Agent) (sel : list nat) (r : Z) : list nat * Z :=
  let '(keyed, r1) := with_tiebreaks sel r in
  (map fst (fold_right (insert_by l) [] keyed), r1).

End Selection.

(** *** The participant's response contract *)

(** A trait score as a behavioural cue: the prompt never carries the raw
    number. *)
Definition trait_cue (score : Q) (high mid low : string) : string :=
  if Qle_bool 70 score then high else if Qlt_bool score 30 then low else mid.

Definition stance_cue (valence : Q) : string :=
  if Qlt_bool 0 valence then " Privately you like the idea."
  else if Qlt_bool valence 0 then " Privately you dislike the idea."
  else " Privately you are undecided.".

Definition build_system_prompt (a : Agent) : string :=
  "You are " +:+ persona_name (persona a) +:+ ", " +:+ demographics (persona a) +:+ ". "
  +:+ voice_style (persona a)
  +:+ trait_cue (extraversion (persona a))
        " You speak up early and at length." " You speak when you have something to add."
        " You speak briefly, and mostly when asked."
  +:+ trait_cue (agreeableness (persona a))
        " You look for common ground." " You weigh what others say."
        " You say so directly when you disagree."
  +:+ stance_cue (currentOpinionValence (pstate a)).

Definition round_context (s : State) : string :=
  fold_right (fun m acc => content m +:+ " | " +:+ acc) ""
             (drop (round_start (round s)) (messages s)).

Definition build_request (cfg : Config) (s : State) (a : Agent) : GenRequest :=
  {| systemPrompt := build_system_prompt a;
     userPrompt := round_context s;
     req_temperature := temperature cfg;
     maxTokens := 300 |}.

Definition participant_message (s : State) (a : Agent) (txt : string)
    (expressed raw : Q) (changed : bool) : Message :=
  {| speakerId := persona_id (persona a); role := Participant;
     phase := round_phase (round s); turnNumber := 0; content := txt;
     expressedSentiment := expressed; rawSentiment := Some raw;
     repliedTo := Some (default "moderator" (last_speaker (round s)));
     changedMind := changed |}.

Definition last_expressed (a : Agent) : Q := default 0 (last (expressedHistory (pstate a))).

Section Loop.

Variable K : Constants.

(** The generation capability: the answer to the [n]-th call the run
    makes. *)
Variable complete : nat -> GenRequest -> GenResult.

Variable cfg : Config.

Definition note_calls (n : nat) (c : Counters) : Counters :=
  {| genCalls := (genCalls c + n)%nat; transientFailures := transientFailures c;
     consecutiveFailures := consecutiveFailures c |}.

Definition note_success (c : Counters) : Counters :=
  {| genCalls := genCalls c; transientFailures := transientFailures c;
     consecutiveFailures := 0 |}.

Definition note_failure (c : Counters) : Counters :=
  {| genCalls := genCalls c; transientFailures := S (transientFailures c);
     consecutiveFailures := S (consecutiveFailures c) |}.

(** The group-dynamics updates that follow a response of participant [i]. *)
Definition after_response (i : nat) (spoken : list nat) (agents1 : list Agent)
    (msgs : list Message) : list Agent :=
  match agents1 !! i with
  | None => agents1
  | Some a1 =>
      let xs := expressed_so_far msgs in
      if bool_decide (select_leader agents1 = Some (persona_id (persona a1)))
         && Qlt_bool (CASCADE_THRESHOLD K) (Qabs (last_expressed a1 - mean xs))
      then cascade K i (last_expressed a1) spoken agents1
      else agents1
  end.

(** Modelled from the spec: a successful generation for participant [i];
    the message is recorded, the participant and the group are updated,
    and the moderator may follow up. *)
Definition record_response (i : nat) (a : Agent) (rest : list nat) (txt : string)
    (inferred : Q) (s : State) : State :=
  let r := round s in
  let '(jitter, r1) := rng_draw (rng s) in
  let '(u, r2) := rng_draw r1 in
  let raw := Qred (clamp inferred (-1) 1) in
  let prior := currentOpinionValence (pstate a) in
  let expressed := expressed_sentiment K (agents s) a (round_sentiments r) (group s) raw jitter in
  let changed := Qlt_bool 0.15 (Qabs (raw - prior)) in
  let s1 := append_message (participant_message s a txt expressed raw changed) s in
  let agents1 := alter (speak_update (turnCounter (group s)) raw expressed) i (agents s) in
  let spoken := i :: spoken_now r in
  let agents2 := after_response i spoken agents1 (messages s1) in
  let s2 :=
    {| agenda := agenda s1;
       round := {| round_phase := round_phase r; round_question := round_question r;
                   round_start := round_start r; addressed := addressed r;
                   pending := rest; spoken_now := spoken;
                   spoken_before := spoken_before r;
                   round_sentiments := round_sentiments r ++ [expressed];
                   last_speaker := Some (persona_id (persona a)) |};
       agents := agents2;
       group := refresh_group K agents2 (messages s1) (group s1);
       messages := messages s1;
       rng := r2;
       counters := note_success (counters s1);
       status := status s1 |} in
  if Qlt_bool (FOLLOWUP_THRESHOLD K) (Qabs (expressed - meanSentiment (group s)))
     && Qlt_bool u (FOLLOWUP_RATE K)
  then append_message
         (moderator_message (round_phase r)
            ("Say more about that, " +:+ persona_name (persona a) +:+ ".")
            (Some (persona_id (persona a)))) s2
  else s2.

(** Modelled from the spec: the respondent is skipped for the round after
    the failed retry. *)
Definition skip_respondent (a : Agent) (rest : list nat) (s : State) : State :=
  let s1 :=
    append_message
      (system_message (round_phase (round s))
         ("skipped: generation unavailable for " +:+ persona_name (persona a)))
      (set_counters (note_failure (counters s)) (set_round (set_pending rest (round s)) s)) in
  if Nat.ltb (failure_threshold cfg) (consecutiveFailures (counters s1))
  then abort ABORT_UNAVAILABLE s1
  else s1.

(** Modelled from the spec: one respondent's turn ([Participant.respond]
    and the failure policy), with at most one retry after a transient
    failure. *)
Definition respond (i : nat) (a : Agent) (rest : list nat) (s : State) : State :=
  let req := build_request cfg s a in
  let n := genCalls (counters s) in
  match complete n req with
  | Success txt v =>
      record_response i a rest txt v (set_counters (note_calls 1 (counters s)) s)
  | FatalFailure => abort ABORT_FATAL (set_counters (note_calls 1 (counters s)) s)
  | TransientFailure =>
      let s' := set_counters (note_calls 2 (counters s)) s in
      match complete (S n) req with
      | Success txt v => record_response i a rest txt v s'
      | FatalFailure => abort ABORT_FATAL s'
      | TransientFailure => skip_respondent a rest s'
      end
  end.

(** Modelled from the spec: the moderator asks the next question of the
    guide and the respondents of the round are selected and ordered. *)
Definition ask (ph : Phase) (question : string) (more : list (Phase * string)) (s : State)
  : State :=
  let '(u, r1) := rng_draw (rng s) in
  let who := choose_addressed (agents s) u in
  let before := spoken_now (round s) in
  let '(sel, r2) := select_respondents K cfg (group s) who before (agents s) r1 in
  let '(order, r3) := speaking_order (agents s) sel r2 in
  let start := length (messages s) in
  let s1 := append_message
              (moderator_message ph (question_text (agents s) who question) None) s in
  {| agenda := more;
     round := {| round_phase := ph; round_question := question; round_start := start;
                 addressed := who; pending := order; spoken_now := [];
                 spoken_before := before; round_sentiments := [];
                 last_speaker := None |};
     agents := agents s1; group := group s1; messages := messages s1;
     rng := r3; counters := counters s1; status := status s1 |}.

(** Modelled from the spec: one transition of the loop. *)
Definition step (s : State) : State :=
  match status s with
  | Running =>
      match pending (round s) with
      | i :: rest =>
          match agents s !! i with
          | Some a => respond i a rest s
          | None => set_round (set_pending rest (round s)) s
          end
      | [] =>
          match agenda s with
          | (ph, question) :: more => ask ph question more s
          | [] => set_status Completed s
          end
      end
  | Completed | Aborted _ => s
  end.

Definition initial_agent (p : Persona) : Agent :=
  {| persona := p;
     pstate := {| currentOpinionValence := initial_valence p; expressedHistory := [];
                  speakCount := 0; lastSpokeTurn := None;
                  cumulativeInfluenceReceived := 0 |} |}.

Definition initial_state (personas : list Persona) : State :=
  let agents0 := map initial_agent personas in
  {| agenda := generate_discussion_guide cfg;
     round := {| round_phase := default Warmup (head (phases cfg)); round_question := "";
                 round_start := 0; addressed := None; pending := []; spoken_now := [];
                 spoken_before := []; round_sentiments := []; last_speaker := None |};
     agents := agents0;
     group := refresh_group K agents0 []
                {| meanSentiment := 0; varianceSentiment := 0;
                   dominantDirection := Dynamics.Mixed; opinionLeaderId := None;
                   turnCounter := 0 |};
     messages := [];
     rng := seed cfg;
     counters := {| genCalls := 0; transientFailures := 0; consecutiveFailures := 0 |};
     status := Running |}.

(** The state after [n] transitions. *)
Definition run_steps (n : nat) (s : State) : State := Nat.iter n step s.

(** Enough transitions to finish from [s]: one per remaining question,
    one per respondent of each round, one to stop. *)
Definition steps_needed (s : State) : nat :=
  (length (agenda s) * S (length (agents s)) + length (pending (round s)) + 1)%nat.

Definition snapshot (a : Agent) : string * ParticipantState :=
  (persona_id (persona a), pstate a).

Definition transcript_of (s : State) : Transcript :=
  {| config_echo := cfg;
     transcript_messages := messages s;
     final_states := map snapshot (agents s) |}.

Inductive ConfigError := EmptyPhaseList | ZeroParticipants | MalformedQuestionCount.

Definition validate (personas : list Persona) : option ConfigError :=
  match phases cfg, personas with
  | [], _ => Some EmptyPhaseList
  | _, [] => Some ZeroParticipants
  | _ :: _, _ :: _ =>
      if Nat.eqb (questions_per_phase cfg) 0 then Some MalformedQuestionCount else None
  end.

Definition final_state (personas : list Persona) : State :=
  let s0 := initial_state personas in run_steps (steps_needed s0) s0.

(** Modelled from the spec: [DiscussionSimulator.run], a configuration
    error before the loop starts, or the transcript of the finished
    (completed or aborted) run. *)
Definition run (personas : list Persona) : ConfigError + Transcript :=
  match validate personas with
  | Some e => inl e
  | None => inr (transcript_of (final_state personas))
  end.

End Loop.

(** *** Notions used to state the properties of a run *)

(** The recorder's view of a state: the transcript and the turn counter. *)
Definition log (s : State) : list Message * nat := (messages s, turnCounter (group s)).

Definition record (l : list Message * nat) (m : Message) : list Message * nat :=
  (l.1 ++ [stamp l.2 m], S l.2).

Definition recorded (l : list Message * nat) (ms : list Message) : list Message * nat :=
  fold_left record ms l.

Definition in_range (v : Q) : Prop := -1 <= v /\ v <= 1.

Definition valence_ok (a : Agent) : Prop := in_range (currentOpinionValence (pstate a)).

(** What it is to be the opinion leader of [l]. *)
Definition leads (l : list Agent) (leader : option string) : Prop :=
  match leader with
  | None => Forall (fun a => speakCount (pstate a) = 0%nat) l
  | Some lid =>
      exists a, a ∈ l /\ persona_id (persona a) = lid /\ speakCount (pstate a) <> 0%nat
                /\ forall b, b ∈ l -> speakCount (pstate b) <> 0%nat ->
                             influence l b <= influence l a
  end.

Definition led (s : State) : Prop := opinionLeaderId (group s) = select_leader (agents s).

(** The diagnostic message of a skipped respondent, as recorded. *)
Definition diagnostic (s : State) (a : Agent) : Message :=
  stamp (turnCounter (group s))
    (system_message (round_phase (round s))
       ("skipped: generation unavailable for " +:+ persona_name (persona a))).

(** The terminal message of an aborted run, as recorded at [turn]. *)
Definition terminal (s : State) (turn : nat) (reason : string) : Message :=
  stamp turn (system_message (round_phase (round s)) reason).

Definition within_threshold (cfg : Config) (s : State) : Prop :=
  status s = Running -> (consecutiveFailures (counters s) <= failure_threshold cfg)%nat.

(** Transitions still to make. *)
Definition remaining (s : State) : nat :=
  match status s with
  | Running =>
      (length (agenda s) * S (length (agents s)) + length (pending (round s)) + 1)%nat
  | _ => 0%nat
  end.

Definition bounded (s : State) : Prop :=
  (length (pending (round s)) <= length (agents s))%nat.

End Engine.

(** ** The survey submission endpoint ([functions/api/submit.js]) *)

Module Survey.

Local Open Scope string_scope.

(** A JavaScript value as [request.json()] produces it.  A number is kept
    as the text [JSON.stringify] prints for it; an object as its
    properties in enumeration order.  An array also carries the named
    properties assigned to it, which [JSON.stringify] does not print. *)
#[local] Set Warnings "-register-all".

Inductive json :=
  | JNull
  | JBool (b : bool)
  | JNumber (printed : string)
  | JString (s : string)
  | JArray (items : list json) (named : list (string * json))
  | JObject (fields : list (string * json)).

(** The result of an operation that may throw. *)
Inductive outcome (A : Type) :=
  | Returned (a : A)
  | Threw (message : string).

Arguments Returned {A} a.
Arguments Threw {A} message.

Definition DQUOTE : string := String "034"%char EmptyString.
Definition BACKSLASH : string := String "092"%char EmptyString.

Definition hex_digit (n : nat) : string :=
  match String.get n "0123456789abcdef" with
  | Some c => String c EmptyString
  | None => EmptyString
  end.

(** [JSON.stringify]'s escape of one character of a string. *)
Definition escape_char (c : ascii) : string :=
  let n := nat_of_ascii c in
  if Nat.eqb n 34 then BACKSLASH +:+ DQUOTE
  else if Nat.eqb n 92 then BACKSLASH +:+ BACKSLASH
  else if Nat.eqb n 8 then BACKSLASH +:+ "b"
  else if Nat.eqb n 9 then BACKSLASH +:+ "t"
  else if Nat.eqb n 10 then BACKSLASH +:+ "n"
  else if Nat.eqb n 12 then BACKSLASH +:+ "f"
  else if Nat.eqb n 13 then BACKSLASH +:+ "r"
  else if Nat.ltb n 32 then
    BACKSLASH +:+ "u00" +:+ hex_digit (n / 16) +:+ hex_digit (n mod 16)
  else String c EmptyString.

Fixpoint escape (s : string) : string :=
  match s with
  | EmptyString => EmptyString
  | String c rest => escape_char c +:+ escape rest
  end.

Definition quote (s : string) : string := DQUOTE +:+ escape s +:+ DQUOTE.

(** The reading of a JSON string body, which [escape] is checked
    against: a backslash starts an escape, a raw quotation mark or control
    character is refused.  Of the [\u] escapes only those of a single
    byte are read. *)
Definition hex_value (c : ascii) : option nat :=
  let n := nat_of_ascii c in
  if Nat.leb 48 n && Nat.leb n 57 then Some (n - 48)%nat
  else if Nat.leb 97 n && Nat.leb n 102 then Some (n - 87)%nat
  else if Nat.leb 65 n && Nat.leb n 70 then Some (n - 55)%nat
  else None.

Definition simple_escape (c : ascii) : option ascii :=
  let n := nat_of_ascii c in
  if Nat.eqb n 34 then Some (ascii_of_nat 34)
  else if Nat.eqb n 92 then Some (ascii_of_nat 92)
  else if Nat.eqb n 47 then Some (ascii_of_nat 47)
  else if Nat.eqb n 98 then Some (ascii_of_nat 8)
  else if Nat.eqb n 116 then Some (ascii_of_nat 9)
  else if Nat.eqb n 110 then Some (ascii_of_nat 10)
  else if Nat.eqb n 102 then Some (ascii_of_nat 12)
  else if Nat.eqb n 114 then Some (ascii_of_nat 13)
  else None.

Fixpoint unescape (s : string) : option string :=
  match s with
  | EmptyString => Some EmptyString
  | String c rest =>
      let n := nat_of_ascii c in
      if Nat.eqb n 92 then
        match rest with
        | String d rest1 =>
            if Nat.eqb (nat_of_ascii d) 117 then
              match rest1 with
              | String h1 (String h2 (String h3 (String h4 rest2))) =>
                  match hex_value h1, hex_value h2, hex_value h3, hex_value h4 with
                  | Some O, Some O, Some a, Some b =>
                      String (ascii_of_nat (16 * a + b)) <$> unescape rest2
                  | _, _, _, _ => None
                  end
              | _ => None
              end
            else
              match simple_escape d with
              | Some ch => String ch <$> unescape rest1
              | None => None
              end
        | EmptyString => None
        end
      else if Nat.ltb n 32 || Nat.eqb n 34 then None
      else String c <$> unescape rest
  end.

Fixpoint join (sep : string) (l : list string) : string :=
  match l with
  | [] => ""
  | [x] => x
  | x :: rest => x +:+ sep +:+ join sep rest
  end.

(** [JSON.stringify(value)]. *)
Fixpoint JSON_stringify (j : json) : string :=
  match j with
  | JNull => "null"
  | JBool true => "true"
  | JBool false => "false"
  | JNumber printed => printed
  | JString s => quote s
  | JArray items _ => "[" +:+ join "," (map JSON_stringify items) +:+ "]"
  | JObject fields =>
      "{" +:+ join "," (map (fun kv => quote (fst kv) +:+ ":" +:+ JSON_stringify (snd kv)) fields)
      +:+ "}"
  end.

(** [obj[key] = v] on a property list: an existing property keeps its
    place, a new one goes last. *)
Fixpoint set_field (key : string) (v : json) (fields : list (string * json))
  : list (string * json) :=
  match fields with
  | [] => [(key, v)]
  | (k, w) :: rest =>
      if String.eqb k key then (k, v) :: rest else (k, w) :: set_field key v rest
  end.

Fixpoint get_field (key : string) (fields : list (string * json)) : option json :=
  match fields with
  | [] => None
  | (k, w) :: rest => if String.eqb k key then Some w else get_field key rest
  end.

(** [data.key = v] in module (strict) code: a [TypeError] on [null] and on
    a primitive, with the runtime's message, which names the type of the
    value and shows the value as [String] prints it. *)
Definition cannot_create (key type shown : string) : string :=
  "Cannot create property '" +:+ key +:+ "' on " +:+ type +:+ " '" +:+ shown +:+ "'".

Definition set_property (key : string) (v : json) (data : json) : outcome json :=
  match data with
  | JObject fields => Returned (JObject (set_field key v fields))
  | JArray items named => Returned (JArray items (set_field key v named))
  | JNull => Threw ("Cannot set properties of null (setting '" +:+ key +:+ "')")
  | JBool true => Threw (cannot_create key "boolean" "true")
  | JBool false => Threw (cannot_create key "boolean" "false")
  | JNumber printed => Threw (cannot_create key "number" printed)
  | JString s => Threw (cannot_create key "string" s)
  end.

(** [data.key], for the two keys the handler reads back. *)
Definition get_property (key : string) (data : json) : option json :=
  match data with
  | JObject fields => get_field key fields
  | JArray _ named => get_field key named
  | _ => None
  end.

(** A value inside a template literal. *)
Definition to_display (v : option json) : string :=
  match v with
  | Some (JString s) => s
  | Some j => JSON_stringify j
  | None => "undefined"
  end.

(** *** Numbers: [parseInt], [+ 1] and [String]

    A string is the sequence of the bytes of its UTF-8 encoding.  The
    numbers that [parseInt(_, 10)] returns are [NaN], the two infinities
    and the doubles whose value is an integer; [-0] is not told from
    [0], which [+ 1] does not tell apart either. *)

Inductive number := NaN | PlusInfinity | MinusInfinity | Integer (z : Z).

Fixpoint bytes (codes : list nat) : string :=
  match codes with
  | [] => EmptyString
  | n :: rest => String (ascii_of_nat n) (bytes rest)
  end.

(** The code points that [parseInt] skips in front of the number, the
    white space and the line terminators of the language: U+0009 to
    U+000D, U+0020, U+00A0, U+1680, U+2000 to U+200A, U+2028, U+2029,
    U+202F, U+205F, U+3000 and U+FEFF. *)
Definition WHITE_SPACE : list string :=
  map bytes
    [ [9]; [10]; [11]; [12]; [13]; [32]; [194; 160]; [225; 154; 128];
      [226; 128; 128]; [226; 128; 129]; [226; 128; 130]; [226; 128; 131];
      [226; 128; 132]; [226; 128; 133]; [226; 128; 134]; [226; 128; 135];
      [226; 128; 136]; [226; 128; 137]; [226; 128; 138]; [226; 128; 168];
      [226; 128; 169]; [226; 128; 175]; [226; 129; 159]; [227; 128; 128];
      [239; 187; 191] ]%nat.

Fixpoint drop_prefix (p s : string) : option string :=
  match p, s with
  | EmptyString, _ => Some s
  | String a p', String b s' => if Ascii.eqb a b then drop_prefix p' s' else None
  | String _ _, EmptyString => None
  end.

(** The string after its first code point, when that is white space. *)
Fixpoint skip_space_of (spaces : list string) (s : string) : option string :=
  match spaces with
  | [] => None
  | p :: rest =>
      match drop_prefix p s with
      | Some s' => Some s'
      | None => skip_space_of rest s
      end
  end.

Definition skip_space (s : string) : option string := skip_space_of WHITE_SPACE s.

Fixpoint skip_spaces_upto (n : nat) (s : string) : string :=
  match n with
  | O => s
  | S n' =>
      match skip_space s with
      | Some s' => skip_spaces_upto n' s'
      | None => s
      end
  end.

Definition skip_spaces (s : string) : string := skip_spaces_upto (String.length s) s.

Definition is_digit (c : ascii) : bool :=
  let n := nat_of_ascii c in Nat.leb 48 n && Nat.leb n 57.

Fixpoint digit_prefix (s : string) : string :=
  match s with
  | String c rest => if is_digit c then String c (digit_prefix rest) else EmptyString
  | EmptyString => EmptyString
  end.

(** The integer that the leading decimal digits of [s] write. *)
Definition digits_value (s : string) : option Z :=
  match digit_prefix s with
  | EmptyString => None
  | String _ _ as ds =>
      match NilEmpty.uint_of_string ds with
      | Some d => Some (Z.of_uint d)
      | None => None
      end
  end.

(** The integers from [-2^53] to [2^53] are doubles, each of them. *)
Definition SAFE : Z := (2 ^ 53)%Z.

(** The double nearest to the integer [z], ties to the even significand;
    beyond the largest double, an infinity. *)
Definition to_double (z : Z) : number :=
  let a := Z.abs z in
  if (a <=? SAFE)%Z then Integer z
  else
    let shift := (Z.log2 a - 52)%Z in
    let q := Z.shiftr a shift in
    let r := (a - Z.shiftl q shift)%Z in
    let half := (2 ^ (shift - 1))%Z in
    let q' := if (half <? r)%Z || ((r =? half)%Z && Z.odd q) then (q + 1)%Z else q in
    let m := Z.shiftl q' shift in
    if (2 ^ 1024 <=? m)%Z then (if (z <? 0)%Z then MinusInfinity else PlusInfinity)
    else Integer (Z.sgn z * m)%Z.

(** [parseInt(s, 10)]: the double nearest to the integer written. *)
Definition parseInt (s : string) : number :=
  match skip_spaces s with
  | String "-" rest =>
      match digits_value rest with Some v => to_double (- v)%Z | None => NaN end
  | String "+" rest =>
      match digits_value rest with Some v => to_double v | None => NaN end
  | t => match digits_value t with Some v => to_double v | None => NaN end
  end.

(** [n + 1] in doubles. *)
Definition add_one (n : number) : number :=
  match n with
  | Integer z => to_double (z + 1)%Z
  | _ => n
  end.

(** The decimal numeral of an integer. *)
Definition decimal (z : Z) : string := NilZero.string_of_int (Z.to_int z).

(** Whether the integer [c * p] is read as the double [z]. *)
Definition rounds_to (z c p : Z) : bool :=
  match to_double (c * p)%Z with
  | Integer y => (y =? z)%Z
  | _ => false
  end.

(** The multiple [s * p] nearest to [z] among those that are read as the
    double [z], if there is one. *)
Definition nearest (z p : Z) : option Z :=
  let lo := (z / p)%Z in
  let hi := (lo + 1)%Z in
  match (0 <? lo)%Z && rounds_to z lo p, rounds_to z hi p with
  | true, true =>
      let dlo := (z - lo * p)%Z in
      let dhi := (hi * p - z)%Z in
      Some (if (dlo <? dhi)%Z then lo else if (dhi <? dlo)%Z then hi
            else if Z.even lo then lo else hi)
  | true, false => Some lo
  | false, true => Some hi
  | false, false => None
  end.

(** The digits [s] and the exponent [e] that [String] prints for a double
    [z] above [2^53]: the fewest digits that are read back as [z]. *)
Fixpoint shortest (n : nat) (z : Z) : Z * Z :=
  match n with
  | O => (z, 0%Z)
  | S n' =>
      match nearest z (10 ^ Z.of_nat n)%Z with
      | Some s => (s, Z.of_nat n)
      | None => shortest n' z
      end
  end.

Fixpoint zeros (n : nat) : string :=
  match n with
  | O => EmptyString
  | S n' => String "0" (zeros n')
  end.

Definition print_large (z : Z) : string :=
  let '(s, e) := shortest (Z.to_nat (Z.log2 z)) z in
  let digits := decimal s in
  let n := (Z.of_nat (String.length digits) + e)%Z in
  if (n <=? 21)%Z then digits +:+ zeros (Z.to_nat e)
  else
    match digits with
    | String d EmptyString => String d EmptyString +:+ "e+" +:+ decimal (n - 1)
    | String d rest => String d EmptyString +:+ "." +:+ rest +:+ "e+" +:+ decimal (n - 1)
    | EmptyString => EmptyString
    end.

(** [String(n)]. *)
Definition String_of_number (n : number) : string :=
  match n with
  | NaN => "NaN"
  | PlusInfinity => "Infinity"
  | MinusInfinity => "-Infinity"
  | Integer z =>
      if (Z.abs z <=? SAFE)%Z then decimal z
      else if (z <? 0)%Z then "-" +:+ print_large (- z)
      else print_large z
  end.

(** *** The handler *)

Record Response := mkResponse {
  response_status : nat;
  response_headers : list (string * string);
  response_body : string
}.

(** What the platform supplies for one request: the outcome of
    [request.json()], the clock, the UUID source, and, for each of the
    three calls on [SURVEY_KV], whether it throws. *)
Record Context := mkContext {
  request_json : outcome json;
  now_iso : string;
  random_uuid : string;
  put_record_fault : option string;
  get_count_fault : option string;
  put_count_fault : option string
}.

(** The [try] block is a computation on the store that returns or throws. *)
Definition Job (A : Type) : Type := gmap string string -> outcome A * gmap string string.

Definition ret {A} (a : A) : Job A := fun kv => (Returned a, kv).

Definition bind {A B} (m : Job A) (f : A -> Job B) : Job B :=
  fun kv =>
    match m kv with
    | (Returned a, kv') => f a kv'
    | (Threw e, kv') => (Threw e, kv')
    end.

Notation "'do' x <- m ;; k" := (bind m (fun x => k))
  (at level 10, x name, m at level 99, k at level 200).

Definition lift {A} (o : outcome A) : Job A := fun kv => (o, kv).

(** [await SURVEY_KV.put(key, value)]; a call that throws writes nothing. *)
Definition kv_put (fault : option string) (key value : string) : Job unit :=
  fun kv =>
    match fault with
    | Some e => (Threw e, kv)
    | None => (Returned tt, <[key := value]> kv)
    end.

(** [await SURVEY_KV.get(key)]: [null] for an absent key. *)
Definition kv_get (fault : option string) (key : string) : Job (option string) :=
  fun kv =>
    match fault with
    | Some e => (Threw e, kv)
    | None => (Returned (kv !! key), kv)
    end.

(** [value || '0']: [null] and the empty string are falsy. *)
Definition or_zero (v : option string) : string :=
  match v with
  | None | Some EmptyString => "0"
  | Some s => s
  end.

Definition RESPONSE_COUNT : string := "response_count".

Definition record_key (id : string) : string := "response:" +:+ id.

(** The body of the [try] block; it returns [data._id]. *)
Definition submit (ctx : Context) : Job string :=
  do data <- lift (request_json ctx) ;;
  do data1 <- lift (set_property "_server_ts" (JString (now_iso ctx)) data) ;;
  do data2 <- lift (set_property "_id" (JString (random_uuid ctx)) data1) ;;
  let id := to_display (get_property "_id" data2) in
  let key := record_key id in
  do _u <- kv_put (put_record_fault ctx) key (JSON_stringify data2) ;;
  do found <- kv_get (get_count_fault ctx) RESPONSE_COUNT ;;
  let countStr := or_zero found in
  do _v <- kv_put (put_count_fault ctx) RESPONSE_COUNT
             (String_of_number (add_one (parseInt countStr))) ;;
  ret id.

Definition ok_body (id : string) : json :=
  JObject [("ok", JBool true); ("id", JString id)].

Definition error_body (message : string) : json :=
  JObject [("ok", JBool false); ("error", JString message)].

Definition ok_response (id : string) : Response :=
  {| response_status := 200;
     response_headers := [("Content-Type", "application/json");
                          ("Access-Control-Allow-Origin", "*")];
     response_body := JSON_stringify (ok_body id) |}.

Definition error_response (message : string) : Response :=
  {| response_status := 500;
     response_headers := [("Content-Type", "application/json")];
     response_body := JSON_stringify (error_body message) |}.

(** [onRequestPost(context)]: the response and the store it leaves. *)
Definition onRequestPost (ctx : Context) (kv : gmap string string)
  : Response * gmap string string :=
  match submit ctx kv with
  | (Returned id, kv') => (ok_response id, kv')
  | (Threw e, kv') => (error_response e, kv')
  end.

(** The two assignments [data._server_ts = ...; data._id = ...]. *)
Definition extend (ctx : Context) (data : json) : outcome json :=
  match set_property "_server_ts" (JString (now_iso ctx)) data with
  | Returned data1 => set_property "_id" (JString (random_uuid ctx)) data1
  | Threw e => Threw e
  end.

(** The text the handler writes under ['response_count']. *)
Definition next_count (kv : gmap string string) : string :=
  String_of_number (add_one (parseInt (or_zero (kv !! RESPONSE_COUNT)))).

End Survey.

(** ** Concrete inputs used by the examples *)

Module Scenario.

(** *** Group dynamics *)

Definition keen : Dynamics.Persona :=
  {| Dynamics.agreeableness := 1; Dynamics.conviction := 0;
     Dynamics.extraversion := 0.5; Dynamics.perceived_expertise := 0.5;
     Dynamics.speak_count_ratio := 0 |}.

Definition one_positive : Dynamics.GroupSentiment :=
  {| Dynamics.prior_sentiments := [0.5]; Dynamics.dominant := Dynamics.Positive |}.

Definition nobody_yet : Dynamics.GroupSentiment :=
  {| Dynamics.prior_sentiments := []; Dynamics.dominant := Dynamics.Mixed |}.

(** Agreeableness score 10, conviction 0.9. *)
Definition stubborn : Dynamics.Persona :=
  {| Dynamics.agreeableness := Dynamics.normalize 10; Dynamics.conviction := 0.9;
     Dynamics.extraversion := Dynamics.normalize 50;
     Dynamics.perceived_expertise := 0.5; Dynamics.speak_count_ratio := 0 |}.

(** Eight prior speakers, six of them positive, in a positive group. *)
Definition six_of_eight : Dynamics.GroupSentiment :=
  {| Dynamics.prior_sentiments := [0.6; 0.4; 0.7; -0.5; 0.3; 0.8; -0.2; 0.5];
     Dynamics.dominant := Dynamics.Positive |}.

(** *** A session in which no persona decides to speak *)

Definition alice : Sketch.PersonaAgent :=
  {| Sketch.agent_name := "Alice"; Sketch.agent_id := "persona_001" |}.

Definition bob : Sketch.PersonaAgent :=
  {| Sketch.agent_name := "Bob"; Sketch.agent_id := "persona_002" |}.

Definition two_sections : list Sketch.SectionGuide :=
  [ {| Sketch.section_title := "warm-up"; Sketch.max_rounds := 2 |};
    {| Sketch.section_title := "initial reactions"; Sketch.max_rounds := 3 |} ].

Definition introduce (_ : unit) (section : Sketch.SectionGuide) : string :=
  "Let us turn to " +:+ Sketch.section_title section.

Definition move_on (_ : unit) (_ : list Sketch.Response) (_ : Sketch.SectionGuide)
  : Sketch.ModAction :=
  {| Sketch.action_type := "move_on"; Sketch.action_prompt := "" |}.

Definition both (_ : unit) : list Sketch.PersonaAgent := [alice; bob].

Definition stay_silent (_ : unit) (_ : Sketch.PersonaAgent) (_ : string)
    (_ : list Sketch.Response) (_ : unit) : bool := false.

Definition shrug (_ : unit) (_ : Sketch.PersonaAgent) (_ : string)
    (_ : list Sketch.Response) (_ : unit) : Sketch.Response :=
  {| Sketch.response_text := "No comment."; Sketch.response_sentiment := 0;
     Sketch.response_conviction := 0 |}.

Definition keep (h : unit) (_ : Sketch.PersonaAgent) (_ : Sketch.Response) : unit := h.

(** [run_session] of the silent session. *)
Definition silent_session : list Sketch.Entry :=
  Sketch.run_session introduce move_on both (fun _ => tt) stay_silent shrug keep
    two_sections (Sketch.init tt).

(** *** A discussion run *)

Definition K0 : Engine.Constants :=
  {| Engine.CONFORMITY_WEIGHT := 0.8; Engine.ADDRESS_BONUS := 0.3;
     Engine.DIVERGENCE_BONUS := 0.15; Engine.RECENCY_PENALTY := 0.2;
     Engine.HIGH_CONVICTION := 0.7; Engine.CASCADE_THRESHOLD := 0.4;
     Engine.CASCADE_FACTOR := 0.3; Engine.FOLLOWUP_THRESHOLD := 0.4;
     Engine.FOLLOWUP_RATE := 0.2; Engine.SOFTENING_JITTER := 0.05;
     Engine.DIRECTION_MARGIN := 0.1; Engine.RESAMPLE_LIMIT := 8 |}.

Definition participant (i name : string) (e a v c : Q) : Engine.Persona :=
  {| Engine.persona_id := i; Engine.persona_name := name;
     Engine.demographics := "34, teacher";
     Engine.openness := 50; Engine.conscientiousness := 50; Engine.extraversion := e;
     Engine.agreeableness := a; Engine.neuroticism := 50;
     Engine.voice_style := "Plain spoken."; Engine.perceived_expertise := 0.5;
     Engine.social_desirability_bias := 0.5; Engine.initial_valence := v;
     Engine.conviction := c |}.

Definition group_of_eight : list Engine.Persona :=
  [ participant "p1" "Ana" 90 80 0.6 0.3; participant "p2" "Ben" 20 10 (-0.8) 0.9;
    participant "p3" "Cy" 55 60 0.2 0.5; participant "p4" "Dee" 75 40 (-0.3) 0.6;
    participant "p5" "Eli" 35 70 0.9 0.2; participant "p6" "Fay" 10 20 (-0.6) 0.8;
    participant "p7" "Gus" 60 90 0.4 0.4; participant "p8" "Hal" 80 25 0.1 0.75 ].

Definition pair : list Engine.Persona :=
  [ participant "p1" "Ana" 90 80 0.6 0.3; participant "p2" "Ben" 20 10 (-0.8) 0.9 ].

(** Eight participants, five phases, two questions per phase, at most
    five respondents per question, abort beyond five consecutive failures. *)
Definition default_config : Engine.Config :=
  {| Engine.product_concept := "a screenless wearable assistant";
     Engine.category := "consumer electronics";
     Engine.stimulus_material := None; Engine.num_personas := 8;
     Engine.phases := [Engine.Warmup; Engine.Exploration; Engine.DeepDive;
                       Engine.Reaction; Engine.Synthesis];
     Engine.questions_per_phase := 2; Engine.max_responses_per_question := 5;
     Engine.temperature := 0.9; Engine.model := "mock"; Engine.seed := 42;
     Engine.failure_threshold := 5 |}.

Definition one_question : Engine.Config :=
  {| Engine.product_concept := "a screenless wearable assistant";
     Engine.category := "consumer electronics";
     Engine.stimulus_material := None; Engine.num_personas := 2;
     Engine.phases := [Engine.Warmup];
     Engine.questions_per_phase := 1; Engine.max_responses_per_question := 5;
     Engine.temperature := 0.9; Engine.model := "mock"; Engine.seed := 7;
     Engine.failure_threshold := 5 |}.

(** A capability that always answers, one that times out on its first
    two calls and then answers alike, and one that always times out. *)
Definition steady (_ : nat) (_ : Engine.GenRequest) : Engine.GenResult :=
  Engine.Success "I would try it." 0.5.

Definition flaky (n : nat) (r : Engine.GenRequest) : Engine.GenResult :=
  if Nat.ltb n 2 then Engine.TransientFailure else steady n r.

Definition always_transient (_ : nat) (_ : Engine.GenRequest) : Engine.GenResult :=
  Engine.TransientFailure.

(** The state right after the moderator's first question, when the
    capability always times out. *)
Definition first_round : Engine.State :=
  Engine.run_steps K0 always_transient default_config 1
    (Engine.initial_state K0 default_config group_of_eight).

(** *** A survey submission *)

Definition answers : Survey.json :=
  Survey.JObject [("q1", Survey.JNumber "5"); ("note", Survey.JString "too pricey")].

Definition submission : Survey.Context :=
  {| Survey.request_json := Survey.Returned answers;
     Survey.now_iso := "2026-01-01T00:00:00.000Z";
     Survey.random_uuid := "3f2c7a1e-0000-4000-8000-000000000001";
     Survey.put_record_fault := None; Survey.get_count_fault := None;
     Survey.put_count_fault := None |}.

(** The same submission when reading the counter throws. *)
Definition interrupted : Survey.Context :=
  {| Survey.request_json := Survey.Returned answers;
     Survey.now_iso := "2026-01-01T00:00:00.000Z";
     Survey.random_uuid := "3f2c7a1e-0000-4000-8000-000000000001";
     Survey.put_record_fault := None; Survey.get_count_fault := Some "KV unavailable";
     Survey.put_count_fault := None |}.

Definition seven_so_far : gmap string string := {[ "response_count" := "7" ]}.

End Scenario.

(** ** Measures on a session transcript *)

Module SketchMeasures.

Import Sketch.

(** The entries that the moderator appended: the ones without
    [persona_id]. *)
Definition moderator_turns (entries : list Entry) : nat :=
  length (List.filter (fun e => bool_decide (persona_id e = None)) entries).

(** A moderator that answers ["follow_up"] wherever [evaluate_round]
    answers ["draw_out"], with the same prompt. *)
Definition as_follow_up {Hidden : Type}
    (evaluate_round : Hidden -> list Response -> SectionGuide -> ModAction)
    (h : Hidden) (responses : list Response) (section : SectionGuide) : ModAction :=
  let mod_action := evaluate_round h responses section in
  if String.eqb (action_type mod_action) "draw_out"
  then {| action_type := "follow_up"; action_prompt := action_prompt mod_action |}
  else mod_action.

(** One introduction per section and, per round, one entry per persona
    of a speaking order of at most [n] and one prompt of the moderator. *)
Definition entries_allowed (n : nat) (sections : list SectionGuide) : nat :=
  sum_list (map (fun section => 1 + max_rounds section * (n + 1))%nat sections).

End SketchMeasures.

(** ** The survey's export endpoint *)

Module Admin.

Import Survey.
Local Open Scope string_scope.

(** The order in which [SURVEY_KV.list] returns key names. *)
Definition name_le (a b : string) : Prop := String.leb a b = true.

#[global] Instance name_le_dec : RelDecision name_le.
Proof. intros a b. unfold name_le. apply _. Defined.

(** The names of the store's keys, as the platform lists them. *)
Definition names (kv : gmap string string) : list string :=
  merge_sort name_le (map_to_list kv).*1.

Definition has_prefix (prefix name : string) : Prop := String.prefix prefix name = true.

#[global] Instance has_prefix_dec prefix name : Decision (has_prefix prefix name).
Proof. unfold has_prefix. apply _. Defined.

Definition RECORD_PREFIX : string := "response:".

(** What the platform supplies for one export request: the value of
    [headers.get('x-admin-key')] ([null] is [None]), the binding
    [env.ADMIN_KEY] ([undefined] is [None]), and, for the call of
    [SURVEY_KV.list] and for each call of [SURVEY_KV.get], whether it
    throws. *)
Record AdminContext := mkAdminContext {
  x_admin_key : option string;
  ADMIN_KEY : option string;
  list_fault : option string;
  get_fault : string -> option string
}.

(** [secret !== context.env.ADMIN_KEY]. *)
Definition differs (secret admin_key : option string) : bool :=
  match secret, admin_key with
  | Some a, Some b => negb (String.eqb a b)
  | _, _ => true
  end.

(** [new Response('Unauthorized', { status: 401 })]; the headers are the
    ones passed to the constructor. *)
Definition unauthorized : Response :=
  {| response_status := 401; response_headers := []; response_body := "Unauthorized" |}.

(** [{ count: responses.length, responses }]. *)
Definition export_body (responses : list json) : json :=
  JObject [("count", JNumber (String_of_number (Integer (Z.of_nat (length responses)))));
           ("responses", JArray responses [])].

Definition export_response (responses : list json) : Response :=
  {| response_status := 200;
     response_headers := [("Content-Type", "application/json")];
     response_body := JSON_stringify (export_body responses) |}.

(** A key whose value passes [if (val)]: present and not empty. *)
Definition has_text (kv : gmap string string) (name : string) : Prop :=
  exists val, kv !! name = Some val /\ val <> "".

#[global] Instance has_text_dec kv name : Decision (has_text kv name).
Proof.
  unfold has_text. destruct (kv !! name) as [[|c val]|].
  - right. intros (v & E & H). inversion E; subst v. contradiction.
  - left. eexists. split; [reflexivity | discriminate].
  - right. intros (v & E & _). discriminate.
Defined.

Section Handler.

(** [JSON.parse], and the number of keys that one call of
    [SURVEY_KV.list] returns at most; both are the platform's. *)
Variable JSON_parse : string -> outcome json.
Variable list_limit : nat.

(** [(await SURVEY_KV.list({ prefix })).keys]: the first page.  The
    handler does not read [list_complete] or [cursor]. *)
Definition kv_list (prefix : string) (kv : gmap string string) : list string :=
  take list_limit (filter (has_prefix prefix) (names kv)).

(** The loop [for (const key of list.keys)]. *)
Fixpoint collect (ctx : AdminContext) (kv : gmap string string) (keys : list string)
    (responses : list json) : outcome (list json) :=
  match keys with
  | [] => Returned responses
  | name :: rest =>
      match get_fault ctx name with
      | Some e => Threw e
      | None =>
          match kv !! name with
          | Some (String _ _ as val) =>
              match JSON_parse val with
              | Returned parsed => collect ctx kv rest (responses ++ [parsed])
              | Threw e => Threw e
              end
          | _ => collect ctx kv rest responses
          end
      end
  end.

(** [onRequestGet(context)]; there is no [try]: what throws inside is
    thrown by the handler. *)
Definition onRequestGet (ctx : AdminContext) (kv : gmap string string) : outcome Response :=
  if differs (x_admin_key ctx) (ADMIN_KEY ctx) then Returned unauthorized
  else
    match list_fault ctx with
    | Some e => Threw e
    | None =>
        match collect ctx kv (kv_list RECORD_PREFIX kv) [] with
        | Returned responses => Returned (export_response responses)
        | Threw e => Threw e
        end
    end.

(** [parsed] is what [JSON.parse] returns for the text under [name]. *)
Definition read_as (kv : gmap string string) (name : string) (parsed : json) : Prop :=
  exists val, kv !! name = Some val /\ val <> "" /\ JSON_parse val = Returned parsed.

End Handler.

(** The number of keys under ['response:']. *)
Definition records (kv : gmap string string) : nat :=
  length (filter (has_prefix RECORD_PREFIX) (names kv)).

End Admin.

(** ** Submissions one after the other *)

Module Intake.

Import Survey.
Local Open Scope string_scope.

(** The integer that the next submission reads from ['response_count']:
    [parseInt(count || '0', 10)]. *)
Definition counted (kv : gmap string string) : number :=
  parseInt (or_zero (kv !! RESPONSE_COUNT)).

(** Requests handled one after the other, each on the store that the one
    before it left. *)
Fixpoint serve (requests : list Context) (kv : gmap string string)
  : list Response * gmap string string :=
  match requests with
  | [] => ([], kv)
  | ctx :: rest =>
      let '(resp, kv1) := onRequestPost ctx kv in
      let '(resps, kv2) := serve rest kv1 in
      (resp :: resps, kv2)
  end.

Definition answered_ok (resp : Response) : bool := Nat.eqb (response_status resp) 200.

Definition successes (resps : list Response) : nat :=
  length (List.filter answered_ok resps).

(** The properties of a record other than the two that the handler sets. *)
Definition is_client_field (field : string * json) : bool :=
  negb (String.eqb field.1 "_server_ts") && negb (String.eqb field.1 "_id").

Definition client_fields (fields : list (string * json)) : list (string * json) :=
  List.filter is_client_field fields.

(** What the next submission reads from a counter that a submission has
    rewritten to [String(n)]. *)
Definition reread (n : number) : number :=
  parseInt (or_zero (Some (String_of_number n))).

(** What one request does to the store: nothing, the first write, or
    both writes. *)
Inductive effect := Untouched | Stored (text : string) | Counted (text : string).

Definition apply_effect (ctx : Context) (kv : gmap string string) (eff : effect)
  : gmap string string :=
  match eff with
  | Untouched => kv
  | Stored text => <[record_key (random_uuid ctx) := text]> kv
  | Counted text =>
      <[RESPONSE_COUNT := next_count kv]> (<[record_key (random_uuid ctx) := text]> kv)
  end.

End Intake.

(** ** Further concrete inputs *)

Module Cases.

Local Open Scope string_scope.

(** *** Group dynamics *)

(** Agreeableness 0.9 with the conviction of [Scenario.stubborn]. *)
Definition yielding : Dynamics.Persona :=
  {| Dynamics.agreeableness := 0.9; Dynamics.conviction := 0.9;
     Dynamics.extraversion := 0.5; Dynamics.perceived_expertise := 0.5;
     Dynamics.speak_count_ratio := 0 |}.

(** The agreeableness of [Scenario.stubborn] with conviction 0.5. *)
Definition wavering : Dynamics.Persona :=
  {| Dynamics.agreeableness := Dynamics.normalize 10; Dynamics.conviction := 0.5;
     Dynamics.extraversion := 0.5; Dynamics.perceived_expertise := 0.5;
     Dynamics.speak_count_ratio := 0 |}.

Definition three_positive : Dynamics.GroupSentiment :=
  {| Dynamics.prior_sentiments := [0.6; 0.4; 0.7]; Dynamics.dominant := Dynamics.Positive |}.

(** *** A session in which every persona speaks *)

Definition speak_up (_ : unit) (_ : Sketch.PersonaAgent) (_ : string)
    (_ : list Sketch.Response) (_ : unit) : bool := true.

Definition probe (_ : unit) (_ : list Sketch.Response) (_ : Sketch.SectionGuide)
  : Sketch.ModAction :=
  {| Sketch.action_type := "follow_up"; Sketch.action_prompt := "Why is that?" |}.

Definition lively_session : list Sketch.Entry :=
  Sketch.run_session Scenario.introduce probe Scenario.both (fun _ => tt) speak_up
    Scenario.shrug Scenario.keep Scenario.two_sections (Sketch.init tt).

(** The same personas with a moderator that moves on after every round. *)
Definition brisk_session : list Sketch.Entry :=
  Sketch.run_session Scenario.introduce Scenario.move_on Scenario.both (fun _ => tt)
    speak_up Scenario.shrug Scenario.keep Scenario.two_sections (Sketch.init tt).

(** The simulator that the brisk session leaves behind. *)
Definition brisk_simulator : Sketch.Simulator unit :=
  fold_left
    (Sketch.run_section Scenario.introduce Scenario.move_on Scenario.both (fun _ => tt)
       speak_up Scenario.shrug Scenario.keep)
    Scenario.two_sections (Sketch.init tt).

(** *** Survey traffic *)

Definition second_answers : Survey.json :=
  Survey.JObject [("q1", Survey.JNumber "2"); ("_id", Survey.JString "mine")].

Definition second_submission : Survey.Context :=
  {| Survey.request_json := Survey.Returned second_answers;
     Survey.now_iso := "2026-01-01T00:05:00.000Z";
     Survey.random_uuid := "3f2c7a1e-0000-4000-8000-000000000002";
     Survey.put_record_fault := None; Survey.get_count_fault := None;
     Survey.put_count_fault := None |}.

(** A third submission whose second write throws. *)
Definition third_interrupted : Survey.Context :=
  {| Survey.request_json := Survey.Returned Scenario.answers;
     Survey.now_iso := "2026-01-01T00:10:00.000Z";
     Survey.random_uuid := "3f2c7a1e-0000-4000-8000-000000000003";
     Survey.put_record_fault := None; Survey.get_count_fault := None;
     Survey.put_count_fault := Some "KV unavailable" |}.

Definition three_requests : list Survey.Context :=
  [Scenario.submission; second_submission; third_interrupted].

Definition unreadable_count : gmap string string := {[ "response_count" := "n/a" ]}.

(** The store after the first submission, and what it holds for it. *)
Definition after_first : gmap string string :=
  (Survey.onRequestPost Scenario.submission Scenario.seven_so_far).2.

Definition first_record : Survey.json :=
  Survey.JObject [("q1", Survey.JNumber "5"); ("note", Survey.JString "too pricey");
                  ("_server_ts", Survey.JString "2026-01-01T00:00:00.000Z");
                  ("_id", Survey.JString "3f2c7a1e-0000-4000-8000-000000000001")].

Definition second_record : Survey.json :=
  Survey.JObject [("q1", Survey.JNumber "2");
                  ("_id", Survey.JString "3f2c7a1e-0000-4000-8000-000000000002");
                  ("_server_ts", Survey.JString "2026-01-01T00:05:00.000Z")].

(** A [JSON.parse] restricted to the texts of the given values; any other
    text is a syntax error. *)
Definition reads_back (known : list Survey.json) (text : string)
  : Survey.outcome Survey.json :=
  match List.find (fun j => String.eqb (Survey.JSON_stringify j) text) known with
  | Some j => Survey.Returned j
  | None => Survey.Threw "Unexpected token"
  end.

Definition parse_known : string -> Survey.outcome Survey.json :=
  reads_back [first_record; second_record].

Definition admin : Admin.AdminContext :=
  {| Admin.x_admin_key := Some "s3cret"; Admin.ADMIN_KEY := Some "s3cret";
     Admin.list_fault := None; Admin.get_fault := fun _ => None |}.

(** A request without the header, to a deployment without the binding. *)
Definition stranger : Admin.AdminContext :=
  {| Admin.x_admin_key := None; Admin.ADMIN_KEY := None;
     Admin.list_fault := None; Admin.get_fault := fun _ => None |}.

(** The store after the first submission, with one more record that is
    not JSON. *)
Definition with_broken_record : gmap string string :=
  <["response:broken" := "{oops"]> after_first.

(** *** Submissions that the contract is tried on *)

Definition array_submission : Survey.Context :=
  {| Survey.request_json :=
       Survey.Returned (Survey.JArray [Survey.JNumber "1"; Survey.JNumber "2"] []);
     Survey.now_iso := "2026-01-01T00:15:00.000Z";
     Survey.random_uuid := "3f2c7a1e-0000-4000-8000-000000000004";
     Survey.put_record_fault := None; Survey.get_count_fault := None;
     Survey.put_count_fault := None |}.

(** An answer with a quotation mark, a backslash and a line feed in it,
    and the two bytes of a non-ASCII letter. *)
Definition tricky_note : string :=
  "say " +:+ Survey.DQUOTE +:+ "hi" +:+ Survey.DQUOTE +:+ " " +:+ Survey.BACKSLASH
  +:+ String "010"%char (String "195"%char (String "169"%char EmptyString)).

Definition tricky_submission : Survey.Context :=
  {| Survey.request_json :=
       Survey.Returned (Survey.JObject [("note", Survey.JString tricky_note)]);
     Survey.now_iso := "2026-01-01T00:20:00.000Z";
     Survey.random_uuid := "3f2c7a1e-0000-4000-8000-000000000005";
     Survey.put_record_fault := None; Survey.get_count_fault := None;
     Survey.put_count_fault := None |}.

Definition quotation_mark : string := String "034"%char EmptyString.
Definition reverse_solidus : string := String "092"%char EmptyString.

(** The text that [JSON.stringify] gives for the record of
    [tricky_submission], byte by byte. *)
Definition tricky_text : string :=
  "{" +:+ quotation_mark +:+ "note" +:+ quotation_mark +:+ ":" +:+ quotation_mark
  +:+ "say " +:+ reverse_solidus +:+ quotation_mark +:+ "hi" +:+ reverse_solidus
  +:+ quotation_mark +:+ " " +:+ reverse_solidus +:+ reverse_solidus
  +:+ reverse_solidus +:+ "n"
  +:+ String "195"%char (String "169"%char EmptyString) +:+ quotation_mark
  +:+ "," +:+ quotation_mark +:+ "_server_ts" +:+ quotation_mark +:+ ":"
  +:+ quotation_mark +:+ "2026-01-01T00:20:00.000Z" +:+ quotation_mark
  +:+ "," +:+ quotation_mark +:+ "_id" +:+ quotation_mark +:+ ":"
  +:+ quotation_mark +:+ "3f2c7a1e-0000-4000-8000-000000000005" +:+ quotation_mark
  +:+ "}".

Definition forty_one : gmap string string := {[ "response_count" := " 41 responses" ]}.

End Cases.

(** * Properties *)

(** ** Rational arithmetic *)

Lemma clamp_bounds (x lo hi : Q) : lo <= hi -> lo <= clamp x lo hi /\ clamp x lo hi <= hi.
Proof.
  intros Hle. unfold clamp. split.
  - apply Q.min_glb; [assumption | apply Q.le_max_l].
  - apply Q.le_min_l.
Qed.

Lemma Qmax0_of_nonpos (x : Q) : x <= 0 -> Qmax 0 x = 0.
Proof.
  intros Hx. unfold Qmax, GenericMinMax.gmax.
  destruct (0 ?= x) eqn:Hc; try reflexivity.
  apply Qlt_alt in Hc. lra.
Qed.

Lemma Qmult_le_one (x y : Q) : 0 <= x -> x <= 1 -> 0 <= y -> y <= 1 -> x * y <= 1.
Proof.
  intros Hx0 Hx1 Hy0 Hy1.
  apply Qle_trans with (1 * 1); [|lra].
  apply Qmult_le_compat_nonneg; split; assumption.
Qed.

Lemma Qmult_weight_le_one (x w : Q) : 0 <= x -> x <= 1 -> w <= 1 -> x * w <= 1.
Proof.
  intros Hx0 Hx1 Hw.
  destruct (Qlt_le_dec w 0) as [Hneg | Hpos].
  - assert (H : 0 <= x * - w) by (apply Qmult_le_0_compat; lra).
    assert (E : x * w == - (x * - w)) by ring.
    rewrite E. lra.
  - apply Qmult_le_one; assumption.
Qed.

Lemma Qlt_bool_true (a b : Q) : Engine.Qlt_bool a b = true <-> a < b.
Proof.
  unfold Engine.Qlt_bool. rewrite negb_true_iff. split.
  - intros H. apply Qnot_le_lt. intros Hle. apply Qle_bool_iff in Hle. congruence.
  - intros H. destruct (Qle_bool b a) eqn:E; [|reflexivity].
    apply Qle_bool_iff in E. lra.
Qed.

Lemma Qlt_bool_false (a b : Q) : Engine.Qlt_bool a b = false <-> b <= a.
Proof. unfold Engine.Qlt_bool. rewrite negb_false_iff. apply Qle_bool_iff. Qed.

Lemma filter_length_le {A} (f : A -> bool) (l : list A) :
  (length (List.filter f l) <= length l)%nat.
Proof. induction l as [|x l IH]; simpl; [lia|]. destruct (f x); simpl; lia. Qed.

(** ** Conformity pressure *)

Module DynamicsFacts.

Import Dynamics Scenario.

(** The agreement ratio is a fraction in [[0, 1]] as soon as someone has
    spoken. *)
Lemma py_div_ratio (a b : nat) :
  (a <= b)%nat -> b <> 0%nat -> exists r, py_div a b = Some r /\ 0 <= r /\ r <= 1.
Proof.
  intros Hab Hb. destruct b as [|b]; [congruence|].
  eexists; split; [reflexivity|].
  assert (Hpos : 0 < inject_Z (Z.of_nat (S b))).
  { change 0 with (inject_Z 0). rewrite <- Zlt_Qlt. lia. }
  split.
  - apply Qle_shift_div_l; [exact Hpos|]. rewrite Qmult_0_l.
    change 0 with (inject_Z 0). rewrite <- Zle_Qle. lia.
  - apply Qle_shift_div_r; [exact Hpos|]. rewrite Qmult_1_l.
    rewrite <- Zle_Qle. lia.
Qed.

(** C5, as stated, fails: with [CONFORMITY_WEIGHT = 2], a fully agreeable
    persona without conviction and one agreeing prior speaker, the function
    returns 2 where the clamp of the same expression to [[0, 1]] is 1; and
    with no prior speaker the division raises, so nothing is returned. *)
Lemma conformity_pressure_not_clamped :
  calculate_conformity_pressure 2 keen one_positive = Some 2
  /\ clamp (net_pressure 2 1 keen) 0 1 = 1
  /\ calculate_conformity_pressure 0.5 keen nobody_yet = None.
Proof. repeat split. Qed.

(** C5, amended: when the round has a prior speaker, the function returns
    [max(0, agreementRatio * agreeableness * CONFORMITY_WEIGHT
            - conviction * (1 - agreeableness))], where the ratio is the
    fraction of prior speakers sharing the dominant direction; the value is
    never below 0; it is at most 1, and equal to the clamp to [[0, 1]],
    when [CONFORMITY_WEIGHT <= 1], the agreeableness is normalised and the
    conviction is not negative. *)
Theorem conformity_pressure_formula (W : Q) (p : Persona) (g : GroupSentiment) :
  total_speakers g <> 0%nat ->
  exists ratio v,
    py_div (count_agreeing g) (total_speakers g) = Some ratio
    /\ 0 <= ratio /\ ratio <= 1
    /\ calculate_conformity_pressure W p g = Some v
    /\ v = Qmax 0 (ratio * agreeableness p * W - conviction p * (1 - agreeableness p))
    /\ 0 <= v
    /\ (W <= 1 -> 0 <= agreeableness p -> agreeableness p <= 1 -> 0 <= conviction p ->
        v <= 1
        /\ v == clamp (ratio * agreeableness p * W
                       - conviction p * (1 - agreeableness p)) 0 1).
Proof.
  intros Hn.
  destruct (py_div_ratio (count_agreeing g) (total_speakers g)) as (r & Hr & H0 & H1).
  { apply filter_length_le. }
  { exact Hn. }
  exists r, (Qmax 0 (r * agreeableness p * W - conviction p * (1 - agreeableness p))).
  split; [exact Hr|]. split; [exact H0|]. split; [exact H1|].
  unfold calculate_conformity_pressure. rewrite Hr. split; [reflexivity|].
  split; [reflexivity|]. split; [apply Q.le_max_l|].
  intros HW Ha0 Ha1 Hc.
  set (x := r * agreeableness p * W - conviction p * (1 - agreeableness p)).
  assert (Hx : x <= 1).
  { unfold x.
    assert (Hy : 0 <= r * agreeableness p /\ r * agreeableness p <= 1).
    { split; [apply Qmult_le_0_compat; assumption | apply Qmult_le_one; assumption]. }
    assert (Hres : 0 <= conviction p * (1 - agreeableness p)).
    { apply Qmult_le_0_compat; lra. }
    assert (Hpr : r * agreeableness p * W <= 1).
    { apply Qmult_weight_le_one; tauto. }
    lra. }
  clearbody x. split.
  - apply Q.max_lub; lra.
  - unfold clamp. symmetry. apply Q.min_r. apply Q.max_lub; lra.
Qed.

Lemma conformity_pressure_formula_witness :
  total_speakers six_of_eight <> 0%nat
  /\ exists v, calculate_conformity_pressure 0.8 stubborn six_of_eight = Some v /\ 0 <= v.
Proof.
  assert (H : total_speakers six_of_eight <> 0%nat) by discriminate.
  split; [exact H|].
  destruct (conformity_pressure_formula 0.8 stubborn six_of_eight H)
    as (ratio & v & _ & _ & _ & Hv & _ & Hpos & _).
  exists v. split; assumption.
Defined.

(** C6: a persona with agreeableness score 10 and conviction 0.9, after
    eight prior speakers of whom six share the positive dominant direction:
    the agreement ratio is 0.75, the normalised agreeableness 0.1, the
    resistance 0.81, which exceeds the pressure term [0.075 *
    CONFORMITY_WEIGHT] for every weight up to 10.8; the conformity
    pressure is then 0. *)
Theorem resistance_saturates_floor (W : Q) :
  W <= 10.8 ->
  count_agreeing six_of_eight = 6%nat /\ total_speakers six_of_eight = 8%nat
  /\ py_div 6 8 = Some (6 / 8) /\ 6 / 8 == 0.75
  /\ agreeableness stubborn == 0.1
  /\ conviction stubborn * (1 - agreeableness stubborn) == 0.81
  /\ 0.75 * 0.1 * W <= 0.81
  /\ calculate_conformity_pressure W stubborn six_of_eight = Some 0.
Proof.
  intros HW.
  split; [reflexivity|]. split; [reflexivity|]. split; [reflexivity|].
  split; [reflexivity|]. split; [reflexivity|]. split; [reflexivity|].
  split; [lra|].
  unfold calculate_conformity_pressure.
  change (count_agreeing six_of_eight) with 6%nat.
  change (total_speakers six_of_eight) with 8%nat.
  cbn [py_div]. f_equal. apply Qmax0_of_nonpos.
  unfold net_pressure. cbn [agreeableness conviction stubborn].
  unfold normalize.
  change (inject_Z (Z.of_nat 6) / inject_Z (Z.of_nat 8)) with (6 / 8).
  assert (E : 6 / 8 * (10 / 100) * W - 0.9 * (1 - 10 / 100) == 0.075 * W - 0.81) by field.
  rewrite E. lra.
Qed.

Lemma resistance_saturates_floor_witness :
  1 <= 10.8 /\ calculate_conformity_pressure 1 stubborn six_of_eight = Some 0.
Proof.
  assert (H : 1 <= 10.8) by lra.
  split; [exact H | apply (resistance_saturates_floor 1 H)].
Defined.

End DynamicsFacts.

(** ** The implementation pattern: sections and silent rounds *)

Module SketchFacts.

Import Sketch.

Section Session.

Variables Hidden GroupState : Type.
Variable introduce_section : Hidden -> SectionGuide -> string.
Variable evaluate_round : Hidden -> list Response -> SectionGuide -> ModAction.
Variable get_speaking_order : Hidden -> list PersonaAgent.
Variable get_group_state : Hidden -> GroupState.
Variable decide_to_speak :
  Hidden -> PersonaAgent -> string -> list Response -> GroupState -> bool.
Variable generate_response :
  Hidden -> PersonaAgent -> string -> list Response -> GroupState -> Response.
Variable update_group_state : Hidden -> PersonaAgent -> Response -> Hidden.

Local Abbreviation speak_in_order :=
  (speak_in_order get_group_state decide_to_speak generate_response update_group_state).
Local Abbreviation run_round :=
  (run_round get_speaking_order get_group_state decide_to_speak generate_response
     update_group_state).
Local Abbreviation run_rounds :=
  (run_rounds evaluate_round get_speaking_order get_group_state decide_to_speak
     generate_response update_group_state).
Local Abbreviation run_section :=
  (run_section introduce_section evaluate_round get_speaking_order get_group_state
     decide_to_speak generate_response update_group_state).
Local Abbreviation run_session :=
  (run_session introduce_section evaluate_round get_speaking_order get_group_state
     decide_to_speak generate_response update_group_state).

Lemma speak_in_order_grows order prompt : forall sim responses,
  exists extra,
    transcript (speak_in_order order prompt sim responses).1 = transcript sim ++ extra.
Proof.
  induction order as [|p rest IH]; intros sim responses; simpl.
  - exists []. rewrite app_nil_r. reflexivity.
  - destruct (decide_to_speak _ _ _ _ _); [|apply IH].
    match goal with |- context [speak_in_order rest prompt ?s ?r] =>
      destruct (IH s r) as [extra E] end.
    rewrite E. simpl. rewrite <- app_assoc. eauto.
Qed.

Lemma run_rounds_grows n : forall prompt section sim,
  exists extra, transcript (run_rounds n prompt section sim) = transcript sim ++ extra.
Proof.
  induction n as [|n IH]; intros prompt section sim; simpl.
  - exists []. rewrite app_nil_r. reflexivity.
  - unfold Sketch.run_round.
    destruct (speak_in_order_grows (get_speaking_order (hidden sim)) prompt sim [])
      as [extra E].
    destruct (speak_in_order _ _ _ _) as [sim1 responses]. simpl in E.
    destruct responses as [|r rs]; [eauto|].
    assert (Hgo : forall q m, exists extra',
              transcript (run_rounds n q section (append_entry m sim1))
              = transcript sim ++ extra').
    { intros q m. destruct (IH q section (append_entry m sim1)) as [x Ex].
      rewrite Ex. simpl. rewrite E, <- !app_assoc. eauto. }
    destruct (String.eqb _ "follow_up"); [apply Hgo|].
    destruct (String.eqb _ "draw_out"); [apply Hgo|].
    destruct (String.eqb _ "move_on"); [eauto|].
    destruct (IH prompt section sim1) as [x Ex]. rewrite Ex, E, <- app_assoc. eauto.
Qed.

Lemma run_section_opens sim section :
  exists extra,
    transcript (run_section sim section)
    = transcript sim ++ moderator_entry (introduce_section (hidden sim) section) :: extra.
Proof.
  unfold Sketch.run_section.
  match goal with |- context [run_rounds ?n ?p ?s ?m] =>
    destruct (run_rounds_grows n p s m) as [extra E] end.
  rewrite E. simpl. rewrite <- app_assoc. eauto.
Qed.

Lemma fold_sections_grows sections : forall sim,
  exists extra, transcript (fold_left run_section sections sim) = transcript sim ++ extra.
Proof.
  induction sections as [|sec rest IH]; intros sim; simpl.
  - exists []. rewrite app_nil_r. reflexivity.
  - destruct (IH (run_section sim sec)) as [x Ex].
    destruct (run_section_opens sim sec) as [y Ey].
    rewrite Ex, Ey, <- app_assoc. eauto.
Qed.

Lemma every_section_opened sections : forall sim section,
  section ∈ sections ->
  exists h, moderator_entry (introduce_section h section) ∈ run_session sections sim.
Proof.
  unfold Sketch.run_session.
  induction sections as [|sec rest IH]; intros sim section Hin; [inversion Hin|].
  apply elem_of_cons in Hin as [-> | Hin]; simpl.
  - exists (hidden sim).
    destruct (fold_sections_grows rest (run_section sim sec)) as [x Ex].
    destruct (run_section_opens sim sec) as [y Ey].
    rewrite Ex, Ey. apply elem_of_app. left. apply elem_of_app. right. left.
  - apply IH, Hin.
Qed.

Hypothesis nobody_speaks : forall h p q rs g, decide_to_speak h p q rs g = false.

Lemma silent_order order prompt : forall sim responses,
  speak_in_order order prompt sim responses = (sim, responses).
Proof.
  induction order as [|p rest IH]; intros sim responses; simpl; [reflexivity|].
  rewrite nobody_speaks. apply IH.
Qed.

Lemma silent_rounds n prompt section sim : run_rounds n prompt section sim = sim.
Proof.
  destruct n as [|n]; simpl; [reflexivity|].
  unfold Sketch.run_round. rewrite silent_order. reflexivity.
Qed.

Lemma silent_transcript sections : forall sim,
  run_session sections sim
  = transcript sim
    ++ map (fun section => moderator_entry (introduce_section (hidden sim) section)) sections.
Proof.
  unfold Sketch.run_session.
  induction sections as [|sec rest IH]; intros sim; simpl.
  - rewrite app_nil_r. reflexivity.
  - unfold Sketch.run_section at 2. rewrite silent_rounds, IH. simpl.
    rewrite <- app_assoc. reflexivity.
Qed.

End Session.

(** C4, as stated, fails: in the session of two sections in which neither
    persona decides to speak, [run_session] returns the two introductions
    of the moderator and nothing else; no participant is made to answer. *)
Lemma nobody_is_forced_to_answer :
  Scenario.silent_session
  = [ moderator_entry "Let us turn to warm-up";
      moderator_entry "Let us turn to initial reactions" ]
  /\ Forall (fun e => persona_id e = None) Scenario.silent_session.
Proof. split; [reflexivity | repeat constructor]. Qed.

(** C4, amended: for every section of the guide the finished transcript
    holds at least one message of that section, the moderator's
    introduction of it; and when no persona decides to speak, the round
    loop of every section stops at once: the transcript grows by the
    introductions alone, and no participant is forced to answer. *)
Theorem every_section_has_a_message
    (Hidden GroupState : Type)
    (introduce_section : Hidden -> SectionGuide -> string)
    (evaluate_round : Hidden -> list Response -> SectionGuide -> ModAction)
    (get_speaking_order : Hidden -> list PersonaAgent)
    (get_group_state : Hidden -> GroupState)
    (decide_to_speak : Hidden -> PersonaAgent -> string -> list Response -> GroupState -> bool)
    (generate_response :
       Hidden -> PersonaAgent -> string -> list Response -> GroupState -> Response)
    (update_group_state : Hidden -> PersonaAgent -> Response -> Hidden)
    (sections : list SectionGuide) (sim : Simulator Hidden) :
  (forall section, section ∈ sections ->
     exists h,
       moderator_entry (introduce_section h section)
       ∈ run_session introduce_section evaluate_round get_speaking_order get_group_state
           decide_to_speak generate_response update_group_state sections sim)
  /\ ((forall h p q rs g, decide_to_speak h p q rs g = false) ->
      run_session introduce_section evaluate_round get_speaking_order get_group_state
        decide_to_speak generate_response update_group_state sections sim
      = transcript sim
        ++ map (fun section => moderator_entry (introduce_section (hidden sim) section))
               sections).
Proof.
  split.
  - intros section Hin. apply every_section_opened, Hin.
  - intros Hsilent. apply silent_transcript, Hsilent.
Qed.

Lemma every_section_has_a_message_witness :
  (forall h p q rs g, Scenario.stay_silent h p q rs g = false)
  /\ Scenario.silent_session
     = map (fun section => moderator_entry (Scenario.introduce tt section))
           Scenario.two_sections.
Proof.
  assert (H : forall h p q rs g, Scenario.stay_silent h p q rs g = false)
    by (intros; reflexivity).
  split; [exact H|].
  exact (proj2 (every_section_has_a_message unit unit Scenario.introduce Scenario.move_on
                  Scenario.both (fun _ => tt) Scenario.stay_silent Scenario.shrug
                  Scenario.keep Scenario.two_sections (init tt)) H).
Defined.

(** C2 on [run_session]: in the session of two sections in which Alice
    and Bob answer every prompt and the moderator moves on after each
    round, six entries are appended, the moderator's and the personas',
    and [turn_count], the only counter of the simulator, is still 0: no
    entry is given a turn number and the counter is never advanced. *)
Lemma turn_count_is_never_advanced :
  transcript Cases.brisk_simulator = Cases.brisk_session
  /\ map speaker Cases.brisk_session
     = ["moderator"; "Alice"; "Bob"; "moderator"; "Alice"; "Bob"]%string
  /\ turn_count Cases.brisk_simulator = 0%nat.
Proof. repeat split. Qed.

End SketchFacts.

(** ** The discussion engine *)

Module EngineFacts.

Import Engine.

(** *** The transcript recorder *)

Lemma recorded_app l ms1 ms2 : recorded (recorded l ms1) ms2 = recorded l (ms1 ++ ms2).
Proof. unfold recorded. rewrite fold_left_app. reflexivity. Qed.

Lemma recorded_messages ms : forall l, exists extra, (recorded l ms).1 = l.1 ++ extra /\ length extra = length ms.
Proof.
  induction ms as [|m ms IH]; intros l; simpl.
  - exists []. rewrite app_nil_r. auto.
  - destruct (IH (record l m)) as (extra & He & Hl). simpl in He.
    exists (stamp l.2 m :: extra). rewrite He, <- app_assoc. simpl. auto.
Qed.

(** *** Valences stay in range *)

Lemma clamp_valence_in_range v : in_range (clamp_valence v).
Proof.
  unfold in_range, clamp_valence. rewrite Qred_correct.
  apply clamp_bounds. lra.
Qed.

Lemma expressed_sentiment_in_range K l a round_sentiments g raw jitter :
  in_range (expressed_sentiment K l a round_sentiments g raw jitter).
Proof.
  unfold in_range, expressed_sentiment. rewrite Qred_correct.
  apply clamp_bounds. lra.
Qed.

Lemma speak_update_ok turn v e a : valence_ok (speak_update turn v e a).
Proof. apply clamp_valence_in_range. Qed.

Lemma set_valence_ok v d a : valence_ok (set_valence v d a).
Proof. apply clamp_valence_in_range. Qed.

Lemma nudge_ok K ls a : valence_ok (nudge K ls a).
Proof. apply set_valence_ok. Qed.

Lemma cascade_ok K leader ls spoken l :
  Forall valence_ok l -> Forall valence_ok (cascade K leader ls spoken l).
Proof.
  rewrite !Forall_lookup. intros H i a Hi. unfold cascade in Hi.
  rewrite list_lookup_imap in Hi.
  destruct (l !! i) as [b|] eqn:Hb; simpl in Hi; [|discriminate].
  inversion Hi; subst a.
  destruct (_ || _); [eauto | apply nudge_ok].
Qed.

Lemma after_response_ok K i spoken l msgs :
  Forall valence_ok l -> Forall valence_ok (after_response K i spoken l msgs).
Proof.
  intros H. unfold after_response.
  destruct (l !! i); [|exact H].
  destruct (_ && _); [apply cascade_ok, H | exact H].
Qed.

(** *** The opinion leader *)

Lemma best_by_None f l : best_by f l = None -> l = [].
Proof.
  destruct l as [|a rest]; [reflexivity|]. simpl.
  destruct (best_by f rest) as [b|]; [destruct (Qlt_bool _ _)|]; discriminate.
Qed.

Lemma best_by_Some f l : forall a,
  best_by f l = Some a -> a ∈ l /\ forall b, b ∈ l -> f b <= f a.
Proof.
  induction l as [|x rest IH]; intros a; simpl; [discriminate|].
  destruct (best_by f rest) as [b|] eqn:Hb.
  - destruct (IH b eq_refl) as [Hin Hmax].
    destruct (Qlt_bool (f x) (f b)) eqn:Hc; intros E; inversion E; subst a; clear E.
    + apply Qlt_bool_true in Hc. split; [right; exact Hin|].
      intros y Hy. apply elem_of_cons in Hy as [-> | Hy]; [lra | auto].
    + apply Qlt_bool_false in Hc. split; [left|].
      intros y Hy. apply elem_of_cons in Hy as [-> | Hy]; [lra|].
      specialize (Hmax y Hy). lra.
  - apply best_by_None in Hb. subst rest.
    intros E; inversion E; subst a. split; [left|].
    intros y Hy. apply elem_of_cons in Hy as [-> | Hy]; [lra|].
    inversion Hy.
Qed.

Lemma filter_has_spoken l a :
  a ∈ List.filter has_spoken l <-> a ∈ l /\ speakCount (pstate a) <> 0%nat.
Proof.
  rewrite !list_elem_of_In, filter_In. unfold has_spoken.
  rewrite negb_true_iff, Nat.eqb_neq. reflexivity.
Qed.

Lemma select_leader_leads l : leads l (select_leader l).
Proof.
  unfold select_leader.
  destruct (best_by (influence l) (List.filter has_spoken l)) as [a|] eqn:Hb; simpl.
  - destruct (best_by_Some _ _ _ Hb) as [Hin Hmax].
    apply filter_has_spoken in Hin as [Hin Hsp].
    exists a. repeat split; try assumption.
    intros b Hb1 Hb2. apply Hmax, filter_has_spoken. auto.
  - apply best_by_None in Hb. apply Forall_forall. intros a Ha.
    destruct (Nat.eq_dec (speakCount (pstate a)) 0%nat) as [E | N]; [exact E|].
    assert (Hin : a ∈ List.filter has_spoken l) by (apply filter_has_spoken; auto).
    rewrite Hb in Hin. inversion Hin.
Qed.

(** *** Sizes of the respondent set *)

Local Open Scope nat_scope.

Lemma length_draw_speakers K g who before l : forall i r,
  length (draw_speakers K g who before i l r).1 <= length l.
Proof.
  induction l as [|a rest IH]; intros i r; simpl; [lia|].
  specialize (IH (S i) (rng_next r)).
  destruct (draw_speakers K g who before (S i) rest (rng_next r)) as [sel r2].
  simpl in IH. destruct (should_speak _ _ _); simpl; lia.
Qed.

Lemma length_draw_in_bound K lo hi g who before l : forall attempts r,
  length (draw_in_bound K attempts lo hi g who before l r).1 <= length l.
Proof.
  induction attempts as [|k IH]; intros r; simpl;
    pose proof (length_draw_speakers K g who before l 0 r) as H;
    destruct (draw_speakers K g who before 0 l r) as [sel r1]; simpl in H.
  - simpl. rewrite length_take. lia.
  - destruct (in_bound lo hi sel); [exact H | apply IH].
Qed.

Lemma length_force_one n before r : length (force_one n before r).1 <= n.
Proof.
  unfold force_one, rng_index. simpl.
  match goal with |- context [?pool !! ?k] => destruct (pool !! k) eqn:E end; simpl; [|lia].
  destruct n; [|lia]. simpl in E. rewrite lookup_nil in E. discriminate.
Qed.

Lemma length_select_respondents K cfg g who before l r :
  length (select_respondents K cfg g who before l r).1 <= length l.
Proof.
  unfold select_respondents.
  match goal with |- context [draw_in_bound ?a ?b ?c ?d ?e ?f ?g ?h ?i] =>
    pose proof (length_draw_in_bound a c d e f g h b i) as H;
    destruct (draw_in_bound a b c d e f g h i) as [sel r1] end.
  simpl in H. destruct sel; [apply length_force_one | exact H].
Qed.

Lemma length_with_tiebreaks sel : forall r, length (with_tiebreaks sel r).1 = length sel.
Proof.
  induction sel as [|i rest IH]; intros r; simpl; [reflexivity|].
  specialize (IH (rng_next r)).
  destruct (with_tiebreaks rest (rng_next r)) as [keyed r2]. simpl in *. lia.
Qed.

Lemma length_insert_by l x sorted : length (insert_by l x sorted) = S (length sorted).
Proof.
  induction sorted as [|y rest IH]; simpl; [reflexivity|].
  destruct (goes_before l x y); simpl; lia.
Qed.

Lemma length_speaking_order l sel r : length (speaking_order l sel r).1 = length sel.
Proof.
  unfold speaking_order. pose proof (length_with_tiebreaks sel r) as H.
  destruct (with_tiebreaks sel r) as [keyed r1]. simpl in *.
  rewrite length_map, <- H. clear H.
  induction keyed as [|x keyed IH]; simpl; [reflexivity|].
  rewrite length_insert_by, IH. reflexivity.
Qed.

(** Whatever the draws, the participant the question names is drawn. *)
Lemma addressed_is_drawn K g before i l : forall j r,
  j <= i -> i < j + length l -> i ∈ (draw_speakers K g (Some i) before j l r).1.
Proof.
  induction l as [|a rest IH]; intros j r Hj Hi; simpl in *; [lia|].
  specialize (IH (S j) (rng_next r)).
  destruct (draw_speakers K g (Some i) before (S j) rest (rng_next r)) as [sel r2].
  simpl in IH. destruct (decide (j = i)) as [-> | Hne].
  - unfold is_addressed. rewrite bool_decide_eq_true_2 by reflexivity.
    simpl. left.
  - destruct (should_speak _ _ _); simpl; [right|]; apply IH; lia.
Qed.

(** The selection never comes back empty when there is a participant. *)
Lemma force_one_some n before r :
  n <> 0 -> exists i, (force_one n before r).1 = [i] /\ i < n.
Proof.
  intros Hn. unfold force_one, rng_index. cbn [fst].
  set (non_recent := List.filter (fun i => negb (is_recent before i)) (seq 0 n)).
  set (pool := match non_recent with [] => seq 0 n | _ :: _ => non_recent end).
  assert (Hsub : forall i, i ∈ pool -> i < n).
  { intros i Hi. unfold pool in Hi.
    assert (Hseq : forall j, j ∈ seq 0 n -> j < n).
    { intros j Hj. apply list_elem_of_In, in_seq in Hj. lia. }
    destruct non_recent as [|x rest] eqn:E; [auto|].
    apply Hseq. rewrite <- E in Hi. unfold non_recent in Hi.
    apply list_elem_of_In, filter_In in Hi as [Hi _]. apply list_elem_of_In, Hi. }
  assert (Hlen : length pool <> 0).
  { unfold pool. destruct non_recent; [|discriminate].
    rewrite length_seq. exact Hn. }
  destruct (pool !! Z.to_nat (rng_next r mod Z.of_nat (length pool))) as [i|] eqn:E.
  - exists i. split; [reflexivity|]. apply Hsub, list_elem_of_lookup. eauto.
  - apply lookup_ge_None in E.
    pose proof (Z.mod_pos_bound (rng_next r) (Z.of_nat (length pool))) as Hb. lia.
Qed.

Lemma select_respondents_nonempty K cfg g who before l r :
  l <> [] -> (select_respondents K cfg g who before l r).1 <> [].
Proof.
  intros Hl. unfold select_respondents.
  destruct (draw_in_bound _ _ _ _ _ _ _ _) as [sel r1].
  destruct sel as [|i sel]; [|discriminate].
  destruct (force_one_some (length l) before r1) as (i & E & _).
  { destruct l; [congruence | discriminate]. }
  rewrite E. discriminate.
Qed.

Lemma length_after_response K i spoken l msgs : length (after_response K i spoken l msgs) = length l.
Proof.
  unfold after_response. destruct (l !! i); [|reflexivity].
  destruct (_ && _); [|reflexivity]. unfold cascade. apply length_imap.
Qed.

Local Close Scope nat_scope.

Section LoopFacts.

Variable K : Constants.
Variable cfg : Config.

Section OneCapability.

Variable complete : nat -> GenRequest -> GenResult.

Lemma log_append m s : log (append_message m s) = record (log s) m.
Proof. reflexivity. Qed.

Lemma log_abort reason s :
  log (abort reason s) = recorded (log s) [system_message (round_phase (round s)) reason].
Proof. reflexivity. Qed.

Lemma log_record_response i a rest txt v s :
  exists ms, log (record_response K i a rest txt v s) = recorded (log s) ms.
Proof.
  unfold record_response, rng_draw.
  match goal with |- context [if ?c then _ else _] => destruct c end.
  - eexists [_; _]. reflexivity.
  - eexists [_]. reflexivity.
Qed.

Lemma log_skip_respondent a rest s :
  exists ms, log (skip_respondent cfg a rest s) = recorded (log s) ms.
Proof.
  unfold skip_respondent.
  match goal with |- context [if ?c then _ else _] => destruct c end.
  - eexists [_; _]. reflexivity.
  - eexists [_]. reflexivity.
Qed.

Lemma log_respond i a rest s :
  exists ms, log (respond K complete cfg i a rest s) = recorded (log s) ms.
Proof.
  unfold respond.
  destruct (complete _ _) as [txt v | | ].
  - apply (log_record_response i a rest txt v (set_counters _ s)).
  - destruct (complete _ _) as [txt v | | ].
    + apply (log_record_response i a rest txt v (set_counters _ s)).
    + apply (log_skip_respondent a rest (set_counters _ s)).
    + eexists [_]. reflexivity.
  - eexists [_]. reflexivity.
Qed.

Lemma log_ask ph q more s :
  exists ms, log (ask K cfg ph q more s) = recorded (log s) ms.
Proof.
  unfold ask, rng_draw.
  destruct (select_respondents _ _ _ _ _ _ _) as [sel r2].
  destruct (speaking_order _ _ _) as [order r3].
  eexists [_]. reflexivity.
Qed.

Lemma log_step s : exists ms, log (step K complete cfg s) = recorded (log s) ms.
Proof.
  unfold step. destruct (status s); try (exists []; reflexivity).
  destruct (pending (round s)) as [|i rest].
  - destruct (agenda s) as [|[ph q] more]; [exists []; reflexivity | apply log_ask].
  - destruct (agents s !! i) as [a|]; [apply log_respond | exists []; reflexivity].
Qed.

Lemma log_run_steps n s : exists ms, log (run_steps K complete cfg n s) = recorded (log s) ms.
Proof.
  induction n as [|n [ms IH]]; simpl.
  - exists []. reflexivity.
  - destruct (log_step (run_steps K complete cfg n s)) as [ms' H].
    exists (ms ++ ms'). unfold run_steps in *. rewrite H, IH. apply recorded_app.
Qed.

Lemma agents_record_response i a rest txt v s :
  exists turn raw expressed spoken msgs,
    agents (record_response K i a rest txt v s)
    = after_response K i spoken (alter (speak_update turn raw expressed) i (agents s)) msgs.
Proof.
  unfold record_response, rng_draw.
  match goal with |- context [if ?c then _ else _] => destruct c end;
    do 5 eexists; reflexivity.
Qed.

Lemma agents_skip_respondent a rest s : agents (skip_respondent cfg a rest s) = agents s.
Proof.
  unfold skip_respondent.
  match goal with |- context [if ?c then _ else _] => destruct c end; reflexivity.
Qed.

Lemma agents_ask ph q more s : agents (ask K cfg ph q more s) = agents s.
Proof.
  unfold ask, rng_draw.
  destruct (select_respondents _ _ _ _ _ _ _) as [sel r2].
  destruct (speaking_order _ _ _) as [order r3]. reflexivity.
Qed.

Lemma valence_record_response i a rest txt v s :
  Forall valence_ok (agents s) ->
  Forall valence_ok (agents (record_response K i a rest txt v s)).
Proof.
  intros H.
  destruct (agents_record_response i a rest txt v s) as (t & raw & e & sp & ms & E).
  rewrite E. apply after_response_ok, Forall_alter; [exact H|].
  intros x _ _. apply speak_update_ok.
Qed.

Lemma valence_respond i a rest s :
  Forall valence_ok (agents s) ->
  Forall valence_ok (agents (respond K complete cfg i a rest s)).
Proof.
  intros H. unfold respond.
  destruct (complete _ _) as [txt v | | ].
  - apply (valence_record_response i a rest txt v (set_counters _ s)), H.
  - destruct (complete _ _) as [txt v | | ].
    + apply (valence_record_response i a rest txt v (set_counters _ s)), H.
    + rewrite agents_skip_respondent. exact H.
    + exact H.
  - exact H.
Qed.

Lemma valence_step s :
  Forall valence_ok (agents s) -> Forall valence_ok (agents (step K complete cfg s)).
Proof.
  intros H. unfold step. destruct (status s); try exact H.
  destruct (pending (round s)) as [|i rest].
  - destruct (agenda s) as [|[ph q] more]; [exact H | rewrite agents_ask; exact H].
  - destruct (agents s !! i) as [a|]; [apply valence_respond, H | exact H].
Qed.

Lemma valence_initial personas :
  Forall (fun p => in_range (initial_valence p)) personas ->
  Forall valence_ok (agents (initial_state K cfg personas)).
Proof.
  intros H. simpl. apply Forall_map. exact H.
Qed.

Lemma valence_reachable personas n :
  Forall (fun p => in_range (initial_valence p)) personas ->
  Forall valence_ok (agents (run_steps K complete cfg n (initial_state K cfg personas))).
Proof.
  intros H. induction n as [|n IH]; simpl.
  - apply valence_initial, H.
  - apply valence_step, IH.
Qed.

Lemma led_record_response i a rest txt v s : led (record_response K i a rest txt v s).
Proof.
  unfold led, record_response, rng_draw.
  match goal with |- context [if ?c then _ else _] => destruct c end; reflexivity.
Qed.

Lemma led_skip_respondent a rest s : led s -> led (skip_respondent cfg a rest s).
Proof.
  unfold led, skip_respondent. intros H.
  match goal with |- context [if ?c then _ else _] => destruct c end; exact H.
Qed.

Lemma led_ask ph q more s : led s -> led (ask K cfg ph q more s).
Proof.
  unfold led, ask, rng_draw. intros H.
  destruct (select_respondents _ _ _ _ _ _ _) as [sel r2].
  destruct (speaking_order _ _ _) as [order r3]. exact H.
Qed.

Lemma led_respond i a rest s : led s -> led (respond K complete cfg i a rest s).
Proof.
  intros H. unfold respond.
  destruct (complete _ _) as [txt v | | ].
  - apply led_record_response.
  - destruct (complete _ _) as [txt v | | ].
    + apply led_record_response.
    + apply led_skip_respondent. exact H.
    + exact H.
  - exact H.
Qed.

Lemma led_step s : led s -> led (step K complete cfg s).
Proof.
  intros H. unfold step. destruct (status s); try exact H.
  destruct (pending (round s)) as [|i rest].
  - destruct (agenda s) as [|[ph q] more]; [exact H | apply led_ask, H].
  - destruct (agents s !! i) as [a|]; [apply led_respond, H | exact H].
Qed.

Lemma led_reachable personas n :
  led (run_steps K complete cfg n (initial_state K cfg personas)).
Proof.
  induction n as [|n IH]; simpl; [reflexivity | apply led_step, IH].
Qed.

(** *** Failure policy *)

Lemma step_stopped s : status s <> Running -> step K complete cfg s = s.
Proof. unfold step. destruct (status s); congruence. Qed.

Lemma run_steps_stopped n s : status s <> Running -> run_steps K complete cfg n s = s.
Proof.
  intros H. induction n as [|n IH]; [reflexivity|].
  change (run_steps K complete cfg (S n) s)
    with (step K complete cfg (run_steps K complete cfg n s)).
  rewrite IH. apply step_stopped, H.
Qed.

Lemma step_skips s i rest a :
  status s = Running -> pending (round s) = i :: rest -> agents s !! i = Some a ->
  complete (genCalls (counters s)) (build_request cfg s a) = TransientFailure ->
  complete (S (genCalls (counters s))) (build_request cfg s a) = TransientFailure ->
  step K complete cfg s
  = skip_respondent cfg a rest (set_counters (note_calls 2 (counters s)) s).
Proof.
  intros Hs Hp Ha H1 H2. unfold step. rewrite Hs, Hp, Ha.
  unfold respond. rewrite H1, H2. reflexivity.
Qed.

Lemma within_threshold_record_response i a rest txt v s :
  within_threshold cfg (record_response K i a rest txt v s).
Proof.
  unfold within_threshold, record_response, rng_draw.
  match goal with |- context [if ?c then _ else _] => destruct c end;
    simpl; intros _; lia.
Qed.

Lemma within_threshold_skip a rest s : within_threshold cfg (skip_respondent cfg a rest s).
Proof.
  unfold within_threshold, skip_respondent.
  match goal with |- context [if ?c then _ else _] => destruct c eqn:Hc end.
  - simpl. discriminate.
  - simpl. intros _. apply Nat.ltb_ge in Hc. exact Hc.
Qed.

Lemma within_threshold_step s : within_threshold cfg s -> within_threshold cfg (step K complete cfg s).
Proof.
  intros H. unfold step. destruct (status s) eqn:Hs; try (unfold within_threshold; congruence).
  destruct (pending (round s)) as [|i rest].
  - destruct (agenda s) as [|[ph q] more].
    + unfold within_threshold. simpl. discriminate.
    + unfold within_threshold, ask, rng_draw.
      destruct (select_respondents _ _ _ _ _ _ _) as [sel r2].
      destruct (speaking_order _ _ _) as [order r3]. simpl. intros _. apply H, Hs.
  - destruct (agents s !! i) as [a|].
    + unfold respond.
      destruct (complete _ _) as [txt v | | ].
      * apply within_threshold_record_response.
      * destruct (complete _ _) as [txt v | | ].
        -- apply within_threshold_record_response.
        -- apply within_threshold_skip.
        -- unfold within_threshold. simpl. discriminate.
      * unfold within_threshold. simpl. discriminate.
    + unfold within_threshold. simpl. intros _. apply H, Hs.
Qed.

Lemma within_threshold_reachable personas n :
  within_threshold cfg (run_steps K complete cfg n (initial_state K cfg personas)).
Proof.
  induction n as [|n IH]; simpl.
  - unfold within_threshold. simpl. intros _. lia.
  - apply within_threshold_step, IH.
Qed.

(** The shape of a transition that aborts a running state. *)
Lemma step_abort_shape s reason :
  status s = Running -> status (step K complete cfg s) = Aborted reason ->
  exists before,
    messages (step K complete cfg s)
    = messages s ++ before ++ [terminal s (turnCounter (group s) + length before) reason].
Proof.
  intros Hs. unfold step. rewrite Hs.
  destruct (pending (round s)) as [|i rest].
  - destruct (agenda s) as [|[ph q] more]; [simpl; discriminate|].
    unfold ask, rng_draw.
    destruct (select_respondents _ _ _ _ _ _ _) as [sel r2].
    destruct (speaking_order _ _ _) as [order r3]. simpl. congruence.
  - destruct (agents s !! i) as [a|]; [|simpl; congruence].
    assert (Hrec : forall txt v c,
      status (record_response K i a rest txt v (set_counters c s)) <> Aborted reason).
    { intros txt v c. unfold record_response, rng_draw.
      match goal with |- context [if ?c then _ else _] => destruct c end;
        simpl; congruence. }
    unfold respond.
    destruct (complete _ _) as [txt v | | ].
    + intros H. exfalso. exact (Hrec _ _ _ H).
    + destruct (complete _ _) as [txt v | | ].
      * intros H. exfalso. exact (Hrec _ _ _ H).
      * unfold skip_respondent.
        match goal with |- context [if ?c then _ else _] => destruct c end.
        -- simpl. intros E. inversion E; subst reason.
           eexists [_]. simpl. rewrite Nat.add_1_r, <- app_assoc. reflexivity.
        -- simpl. congruence.
      * simpl. intros E. inversion E; subst reason.
        exists []. simpl. rewrite Nat.add_0_r. reflexivity.
    + simpl. intros E. inversion E; subst reason.
      exists []. simpl. rewrite Nat.add_0_r. reflexivity.
Qed.

Local Open Scope nat_scope.

Lemma remaining_record_response i a rest txt v s c :
  let s' := record_response K i a rest txt v (set_counters c s) in
  agenda s' = agenda s /\ pending (round s') = rest
  /\ length (agents s') = length (agents s) /\ status s' = status s.
Proof.
  unfold record_response, rng_draw.
  match goal with |- context [if ?c then _ else _] => destruct c end; simpl;
    rewrite length_after_response, length_alter; auto.
Qed.

Lemma remaining_skip a rest s c :
  let s' := skip_respondent cfg a rest (set_counters c s) in
  agenda s' = agenda s /\ pending (round s') = rest /\ agents s' = agents s
  /\ (status s' = status s \/ exists reason, status s' = Aborted reason).
Proof.
  unfold skip_respondent.
  match goal with |- context [if ?c then _ else _] => destruct c end; simpl; eauto 6.
Qed.

Lemma remaining_ask ph q more s :
  let s' := ask K cfg ph q more s in
  agenda s' = more /\ length (pending (round s')) <= length (agents s)
  /\ agents s' = agents s /\ status s' = status s.
Proof.
  unfold ask, rng_draw.
  pose proof (length_select_respondents K cfg (group s)
                (choose_addressed (agents s) (rng_next (rng s) # RNG_MODULUS))
                (spoken_now (round s)) (agents s) (rng_next (rng s))) as H1.
  destruct (select_respondents _ _ _ _ _ _ _) as [sel r2].
  pose proof (length_speaking_order (agents s) sel r2) as H2.
  destruct (speaking_order _ _ _) as [order r3]. simpl in *.
  repeat split; try reflexivity. lia.
Qed.

Lemma step_decreases s :
  bounded s -> status s = Running ->
  bounded (step K complete cfg s) /\ remaining (step K complete cfg s) < remaining s.
Proof.
  unfold bounded, remaining. intros Hb Hs. unfold step. rewrite Hs.
  destruct (pending (round s)) as [|i rest] eqn:Hp.
  - destruct (agenda s) as [|[ph q] more] eqn:Ha.
    + simpl. rewrite Hp. simpl. lia.
    + destruct (remaining_ask ph q more s) as (E1 & E2 & E3 & E4).
      rewrite E1, E3, E4, Hs. simpl. split; [exact E2 | lia].
  - simpl in Hb. destruct (agents s !! i) as [a|].
    + unfold respond.
      assert (Hrec : forall txt v c,
        let s' := record_response K i a rest txt v (set_counters c s) in
        length (pending (round s')) <= length (agents s')
        /\ match status s' with
           | Running => length (agenda s') * S (length (agents s'))
                        + length (pending (round s')) + 1
           | _ => 0
           end < length (agenda s) * S (length (agents s)) + S (length rest) + 1).
      { intros txt v c.
        destruct (remaining_record_response i a rest txt v s c) as (E1 & E2 & E3 & E4).
        cbv zeta. rewrite E1, E2, E3, E4, Hs. lia. }
      destruct (complete _ _) as [txt v | | ];
        [apply Hrec | | simpl; rewrite Hp; simpl; lia].
      destruct (complete _ _) as [txt v | | ];
        [apply Hrec | | simpl; rewrite Hp; simpl; lia].
      destruct (remaining_skip a rest s (note_calls 2 (counters s))) as (E1 & E2 & E3 & E4).
      cbv zeta in *. rewrite E1, E2, E3.
      destruct E4 as [E4 | [reason E4]]; rewrite E4; [rewrite Hs|]; simpl; lia.
    + simpl. rewrite Hs. lia.
Qed.

Lemma run_steps_succ n s :
  run_steps K complete cfg (S n) s = run_steps K complete cfg n (step K complete cfg s).
Proof. unfold run_steps. apply Nat.iter_succ_r. Qed.

Lemma run_steps_finishes n : forall s,
  bounded s -> remaining s <= n -> status (run_steps K complete cfg n s) <> Running.
Proof.
  induction n as [|n IH]; intros s Hb Hr.
  - simpl. unfold remaining in Hr. destruct (status s); [lia | discriminate..].
  - rewrite run_steps_succ.
    destruct (status s) eqn:Hs.
    + destruct (step_decreases s Hb Hs) as [Hb' Hlt]. apply IH; [exact Hb' | lia].
    + rewrite step_stopped by congruence. apply IH; [exact Hb|].
      unfold remaining. rewrite Hs. lia.
    + rewrite step_stopped by congruence. apply IH; [exact Hb|].
      unfold remaining. rewrite Hs. lia.
Qed.

Lemma final_state_finished personas :
  status (final_state K complete cfg personas) <> Running.
Proof.
  unfold final_state. cbv zeta. apply run_steps_finishes.
  - unfold bounded. simpl. lia.
  - unfold remaining, steps_needed. simpl. lia.
Qed.

Local Close Scope nat_scope.

End OneCapability.

End LoopFacts.

(** *** Valence bounds *)

(** C3: when the personas' initial valences lie in [[-1, 1]], so does the
    current opinion valence of every participant in every state a run
    passes through and in every final snapshot; each of the two updates
    of a valence, the speaker's own and the cascade nudge (both branches),
    writes a value clamped to [[-1, 1]] whatever it is given; and so is
    the expressed sentiment that the conformity and softening adjustments
    produce. *)
Theorem valence_bound_invariant K complete cfg personas n :
  Forall (fun p => -1 <= initial_valence p /\ initial_valence p <= 1) personas ->
  Forall (fun a => -1 <= currentOpinionValence (pstate a)
                   /\ currentOpinionValence (pstate a) <= 1)
         (agents (run_steps K complete cfg n (initial_state K cfg personas)))
  /\ Forall (fun snap => -1 <= currentOpinionValence snap.2
                         /\ currentOpinionValence snap.2 <= 1)
            (final_states (transcript_of cfg (final_state K complete cfg personas)))
  /\ (forall turn v e a,
        -1 <= currentOpinionValence (pstate (speak_update turn v e a))
        /\ currentOpinionValence (pstate (speak_update turn v e a)) <= 1)
  /\ (forall leader_sentiment a,
        -1 <= currentOpinionValence (pstate (nudge K leader_sentiment a))
        /\ currentOpinionValence (pstate (nudge K leader_sentiment a)) <= 1)
  /\ (forall l a round_sentiments g raw jitter,
        -1 <= expressed_sentiment K l a round_sentiments g raw jitter
        /\ expressed_sentiment K l a round_sentiments g raw jitter <= 1).
Proof.
  intros H. split; [|split; [|split; [|split]]].
  - apply (valence_reachable K cfg complete personas n H).
  - simpl. apply Forall_map.
    apply (valence_reachable K cfg complete personas _ H).
  - intros. apply speak_update_ok.
  - intros. apply nudge_ok.
  - intros. apply expressed_sentiment_in_range.
Qed.

Lemma valence_bound_invariant_witness :
  Forall (fun p => -1 <= initial_valence p /\ initial_valence p <= 1) Scenario.pair
  /\ Forall (fun a => -1 <= currentOpinionValence (pstate a)
                      /\ currentOpinionValence (pstate a) <= 1)
            (agents (run_steps Scenario.K0 Scenario.steady Scenario.one_question 3
                       (initial_state Scenario.K0 Scenario.one_question Scenario.pair))).
Proof.
  assert (H : Forall (fun p => -1 <= initial_valence p /\ initial_valence p <= 1)
                     Scenario.pair).
  { repeat constructor; simpl; lra. }
  split; [exact H|].
  exact (proj1 (valence_bound_invariant Scenario.K0 Scenario.steady Scenario.one_question
                  Scenario.pair 3 H)).
Defined.

(** *** Influence and the opinion leader *)

(** C7: [calculate_influence] is [0.4 * extraversion + 0.4 *
    perceived_expertise + 0.2 * speak_count_ratio]; on the engine's state
    the traits are the normalised ones; and in every state a run passes
    through, the opinion leader of the group state is none exactly when
    nobody has spoken, and is otherwise the id of a participant who has
    spoken and whose influence is greatest among those who have spoken. *)
Theorem influence_and_opinion_leader K complete cfg personas n :
  let s := run_steps K complete cfg n (initial_state K cfg personas) in
  (forall (G : Type) (p : Dynamics.Persona) (g : G),
      Dynamics.calculate_influence p g
      == 0.4 * Dynamics.extraversion p + 0.4 * Dynamics.perceived_expertise p
         + 0.2 * Dynamics.speak_count_ratio p)
  /\ (forall a,
        influence (agents s) a
        == 0.4 * Dynamics.normalize (extraversion (persona a))
           + 0.4 * perceived_expertise (persona a) + 0.2 * speak_ratio (agents s) a)
  /\ match opinionLeaderId (group s) with
     | None => Forall (fun a => speakCount (pstate a) = 0%nat) (agents s)
     | Some lid =>
         exists a, a ∈ agents s /\ persona_id (persona a) = lid
                   /\ speakCount (pstate a) <> 0%nat
                   /\ forall b, b ∈ agents s -> speakCount (pstate b) <> 0%nat ->
                                influence (agents s) b <= influence (agents s) a
     end.
Proof.
  intros s. split; [|split].
  - intros G p g. unfold Dynamics.calculate_influence. ring.
  - intros a. unfold influence, Dynamics.calculate_influence. simpl. ring.
  - pose proof (led_reachable K cfg complete personas n) as H.
    fold s in H. unfold led in H. rewrite H.
    apply (select_leader_leads (agents s)).
Qed.

Lemma influence_and_opinion_leader_witness :
  opinionLeaderId
    (group (run_steps Scenario.K0 Scenario.steady Scenario.one_question 3
              (initial_state Scenario.K0 Scenario.one_question Scenario.pair)))
  = Some "p1"
  /\ forall (G : Type) (p : Dynamics.Persona) (g : G),
       Dynamics.calculate_influence p g
       == 0.4 * Dynamics.extraversion p + 0.4 * Dynamics.perceived_expertise p
          + 0.2 * Dynamics.speak_count_ratio p.
Proof.
  split; [vm_compute; reflexivity|].
  exact (proj1 (influence_and_opinion_leader Scenario.K0 Scenario.steady
                  Scenario.one_question Scenario.pair 3)).
Defined.

(** *** The speaking decision *)

(** C8: a participant whom the question names speaks whatever the
    probability and the draw; for the others the base probability is 0.85
    from extraversion 70 up, 0.60 from 30 up to 70, 0.35 below 30; without
    the address, divergence and recency adjustments the selection
    probability is the base one, and the participant speaks exactly when
    the draw falls below it: of the hundred draws 0.00, 0.01, ..., 0.99,
    85, 60 and 35 make them speak.  In the respondent draw of a question,
    the participant it names is drawn whatever the state of the source. *)
Theorem speaking_decision :
  (forall probability draw, should_speak true probability draw = true)
  /\ (forall K g before l i r,
        (i < length l)%nat -> i ∈ (draw_speakers K g (Some i) before 0 l r).1)
  /\ (forall e, 70 <= e -> base_speak_probability e = 0.85)
  /\ (forall e, 30 <= e -> e < 70 -> base_speak_probability e = 0.60)
  /\ (forall e, e < 30 -> base_speak_probability e = 0.35)
  /\ (forall K p,
        speak_probability K false false false p == base_speak_probability (extraversion p))
  /\ (forall probability draw,
        should_speak false probability draw = true <-> draw < probability)
  /\ (forall e,
        let speaks k :=
          should_speak false (base_speak_probability e) (inject_Z (Z.of_nat k) / 100) in
        (70 <= e -> length (List.filter speaks (seq 0 100)) = 85%nat)
        /\ (30 <= e -> e < 70 -> length (List.filter speaks (seq 0 100)) = 60%nat)
        /\ (e < 30 -> length (List.filter speaks (seq 0 100)) = 35%nat)).
Proof.
  assert (Hhigh : forall e, 70 <= e -> base_speak_probability e = 0.85).
  { intros e He. unfold base_speak_probability.
    apply Qle_bool_iff in He. rewrite He. reflexivity. }
  assert (Hmid : forall e, 30 <= e -> e < 70 -> base_speak_probability e = 0.60).
  { intros e Hlo Hhi. unfold base_speak_probability.
    destruct (Qle_bool 70 e) eqn:E; [apply Qle_bool_iff in E; lra|].
    apply Qle_bool_iff in Hlo. rewrite Hlo. reflexivity. }
  assert (Hlow : forall e, e < 30 -> base_speak_probability e = 0.35).
  { intros e He. unfold base_speak_probability.
    destruct (Qle_bool 70 e) eqn:E; [apply Qle_bool_iff in E; lra|].
    destruct (Qle_bool 30 e) eqn:E'; [apply Qle_bool_iff in E'; lra|].
    reflexivity. }
  split; [reflexivity|].
  split; [intros K g before l i r Hi; apply addressed_is_drawn; lia|].
  split; [exact Hhigh|]. split; [exact Hmid|]. split; [exact Hlow|].
  split; [intros K p; unfold speak_probability; ring|].
  split; [intros probability draw; unfold should_speak; simpl; apply Qlt_bool_true|].
  intros e speaks. unfold speaks. split; [|split].
  - intros He. rewrite (Hhigh e He). vm_compute. reflexivity.
  - intros Hlo Hhi. rewrite (Hmid e Hlo Hhi). vm_compute. reflexivity.
  - intros He. rewrite (Hlow e He). vm_compute. reflexivity.
Qed.

Lemma speaking_decision_witness :
  70 <= 90 /\ base_speak_probability 90 = 0.85
  /\ should_speak true (base_speak_probability 90) 0.99 = true.
Proof.
  assert (H : 70 <= 90) by lra.
  split; [exact H|]. split.
  - exact (proj1 (proj2 (proj2 speaking_decision)) 90 H).
  - exact (proj1 speaking_decision (base_speak_probability 90) 0.99).
Defined.

(** *** Transient failures and the abort *)

Lemma counters_record_response K i a rest txt v s :
  counters (record_response K i a rest txt v s) = note_success (counters s).
Proof.
  unfold record_response, rng_draw.
  match goal with |- context [if ?c then _ else _] => destruct c end; reflexivity.
Qed.

Lemma messages_grow K cfg complete n s :
  exists extra, messages (run_steps K complete cfg n s) = messages s ++ extra.
Proof.
  destruct (log_run_steps K cfg complete n s) as [ms H].
  destruct (recorded_messages ms (log s)) as (extra & E & _).
  exists extra. rewrite <- H in E. exact E.
Qed.

(** C9: in a running state whose next respondent's generation times out
    and times out again on the retry, the transition makes exactly those
    two calls, removes the respondent from the round, appends one
    system-role diagnostic message and increments the transient-failure
    counter; if the consecutive-failure count thereby exceeds the configured
    threshold the run is aborted with one more, terminal, system message
    giving the reason, otherwise it goes on.  A retry that succeeds also
    makes exactly two calls and counts no failure.  A transition that
    aborts appends to the recorded messages and ends with the terminal
    message; a run that is over makes no further transition; no transition
    drops a recorded message; no running state of a run has more
    consecutive failures than the threshold; and the returned run is
    over. *)
Theorem transient_failure_semantics K complete cfg :
  (forall s i rest a,
     status s = Running -> pending (round s) = i :: rest -> agents s !! i = Some a ->
     complete (genCalls (counters s)) (build_request cfg s a) = TransientFailure ->
     complete (S (genCalls (counters s))) (build_request cfg s a) = TransientFailure ->
     let s' := step K complete cfg s in
     genCalls (counters s') = (genCalls (counters s) + 2)%nat
     /\ transientFailures (counters s') = S (transientFailures (counters s))
     /\ consecutiveFailures (counters s') = S (consecutiveFailures (counters s))
     /\ pending (round s') = rest /\ agents s' = agents s
     /\ role (diagnostic s a) = System
     /\ ((S (consecutiveFailures (counters s)) <= failure_threshold cfg)%nat ->
         status s' = Running /\ messages s' = messages s ++ [diagnostic s a])
     /\ ((failure_threshold cfg < S (consecutiveFailures (counters s)))%nat ->
         status s' = Aborted ABORT_UNAVAILABLE
         /\ messages s'
            = messages s
              ++ [diagnostic s a; terminal s (S (turnCounter (group s))) ABORT_UNAVAILABLE]))
  /\ (forall s i rest a txt v,
        status s = Running -> pending (round s) = i :: rest -> agents s !! i = Some a ->
        complete (genCalls (counters s)) (build_request cfg s a) = TransientFailure ->
        complete (S (genCalls (counters s))) (build_request cfg s a) = Success txt v ->
        let s' := step K complete cfg s in
        genCalls (counters s') = (genCalls (counters s) + 2)%nat
        /\ transientFailures (counters s') = transientFailures (counters s)
        /\ consecutiveFailures (counters s') = 0%nat)
  /\ (forall s reason,
        status s = Running -> status (step K complete cfg s) = Aborted reason ->
        exists before,
          messages (step K complete cfg s)
          = messages s ++ before
            ++ [terminal s (turnCounter (group s) + length before) reason]
          /\ role (terminal s (turnCounter (group s) + length before) reason) = System
          /\ content (terminal s (turnCounter (group s) + length before) reason) = reason)
  /\ (forall s, status s <> Running -> step K complete cfg s = s)
  /\ (forall s n, exists extra, messages (run_steps K complete cfg n s) = messages s ++ extra)
  /\ (forall personas n,
        let s := run_steps K complete cfg n (initial_state K cfg personas) in
        status s = Running ->
        (consecutiveFailures (counters s) <= failure_threshold cfg)%nat)
  /\ (forall personas, status (final_state K complete cfg personas) <> Running).
Proof.
  split; [|split; [|split; [|split; [|split; [|split]]]]].
  - intros s i rest a Hs Hp Ha H1 H2 s'. unfold s'.
    rewrite (step_skips K cfg complete s i rest a Hs Hp Ha H1 H2).
    unfold skip_respondent.
    match goal with |- context [if ?c then _ else _] => destruct c eqn:Hc end; simpl.
    + apply Nat.ltb_lt in Hc. simpl in Hc.
      repeat split; try reflexivity; try lia.
      rewrite <- app_assoc. reflexivity.
    + apply Nat.ltb_ge in Hc. simpl in Hc.
      repeat split; try reflexivity; try lia; exact Hs.
  - intros s i rest a txt v Hs Hp Ha H1 H2 s'. unfold s', step.
    rewrite Hs, Hp, Ha. unfold respond. rewrite H1, H2.
    rewrite counters_record_response. simpl. auto.
  - intros s reason Hs Hab.
    destruct (step_abort_shape K cfg complete s reason Hs Hab) as [before E].
    exists before. split; [exact E|]. split; reflexivity.
  - intros s Hs. apply step_stopped, Hs.
  - intros s n. apply messages_grow.
  - intros personas n s. apply (within_threshold_reachable K cfg complete personas n).
  - intros personas. apply final_state_finished.
Qed.

(** The first respondent of the first round, when the capability always
    times out: skipped, diagnosed and counted, and the run goes on. *)
Lemma transient_failure_semantics_witness :
  status Scenario.first_round = Running
  /\ pending (round Scenario.first_round) = [0; 7; 3; 4]%nat
  /\ (let s' := step Scenario.K0 Scenario.always_transient Scenario.default_config
                   Scenario.first_round in
      genCalls (counters s') = 2%nat /\ transientFailures (counters s') = 1%nat
      /\ pending (round s') = [7; 3; 4]%nat /\ status s' = Running).
Proof.
  assert (Hs : status Scenario.first_round = Running) by (vm_compute; reflexivity).
  assert (Hp : pending (round Scenario.first_round) = [0; 7; 3; 4]%nat)
    by (vm_compute; reflexivity).
  split; [exact Hs|]. split; [exact Hp|].
  destruct (agents Scenario.first_round !! 0%nat) as [a|] eqn:Ha;
    [|vm_compute in Ha; discriminate Ha].
  destruct (proj1 (transient_failure_semantics Scenario.K0 Scenario.always_transient
                     Scenario.default_config)
              Scenario.first_round 0%nat [7; 3; 4]%nat a Hs Hp Ha eq_refl eq_refl)
    as (H1 & H2 & _ & H4 & _ & _ & H7 & _).
  cbv zeta. rewrite H1, H2, H4.
  split; [vm_compute; reflexivity|]. split; [vm_compute; reflexivity|].
  split; [reflexivity|]. apply H7. vm_compute. lia.
Defined.

(** The scenario of the capability that always times out, with eight
    participants, five phases and threshold 5: the run aborts at the sixth
    consecutive failure, after twelve calls; the transcript ends with the
    terminal message. *)
Example always_failing_run_aborts :
  let s := final_state Scenario.K0 Scenario.always_transient Scenario.default_config
             Scenario.group_of_eight in
  status s = Aborted "aborted: generation unavailable"
  /\ counters s = {| genCalls := 12; transientFailures := 6; consecutiveFailures := 6 |}
  /\ map (fun m => (turnNumber m, role m)) (messages s)
     = [(0, Moderator); (1, System); (2, System); (3, System); (4, System);
        (5, Moderator); (6, System); (7, System); (8, System)]%nat
  /\ content <$> last (messages s) = Some "aborted: generation unavailable".
Proof. vm_compute. repeat split. Qed.

End EngineFacts.

(** ** The survey submission endpoint *)

Module SurveyFacts.

Import Survey.

Local Open Scope string_scope.

(** *** Decimal round trip *)

Lemma digit_prefix_uint d :
  digit_prefix (NilEmpty.string_of_uint d) = NilEmpty.string_of_uint d.
Proof. induction d; simpl; f_equal; assumption. Qed.

Lemma uint_head_digit d :
  d <> Nil ->
  exists c rest, NilEmpty.string_of_uint d = String c rest /\ is_digit c = true.
Proof.
  intros Hd. destruct d; [congruence | ..]; simpl; do 2 eexists; split; reflexivity.
Qed.

Lemma digits_value_uint p :
  digits_value (NilEmpty.string_of_uint (Pos.to_uint p)) = Some (Z.pos p).
Proof.
  unfold digits_value. rewrite digit_prefix_uint.
  destruct (uint_head_digit _ (Unsigned.to_uint_nonnil p)) as (c & rest & E & _).
  rewrite E, <- E, NilEmpty.usu.
  unfold Z.of_uint. rewrite Unsigned.of_to. reflexivity.
Qed.

Lemma skip_spaces_keep s : skip_space s = None -> skip_spaces s = s.
Proof.
  unfold skip_spaces. destruct (String.length s); simpl; [reflexivity|].
  intros ->. reflexivity.
Qed.

Lemma skip_space_digit c rest : is_digit c = true -> skip_space (String c rest) = None.
Proof.
  intros Hc.
  destruct c as [[] [] [] [] [] [] [] []]; vm_compute in Hc; try discriminate Hc;
    reflexivity.
Qed.

Lemma parseInt_digits s c rest :
  s = String c rest -> is_digit c = true ->
  parseInt s = match digits_value s with Some v => to_double v | None => NaN end.
Proof.
  intros -> Hc. unfold parseInt.
  rewrite skip_spaces_keep by (apply skip_space_digit, Hc).
  destruct c as [[] [] [] [] [] [] [] []]; vm_compute in Hc; try discriminate Hc;
    reflexivity.
Qed.

Lemma string_of_uint_nonnil d : d <> Nil -> NilZero.string_of_uint d = NilEmpty.string_of_uint d.
Proof. destruct d; [congruence | reflexivity..]. Qed.

(** *** Doubles *)

Lemma to_double_safe z : (Z.abs z <= SAFE)%Z -> to_double z = Integer z.
Proof.
  intros H. unfold to_double. cbv zeta.
  destruct (Z.leb_spec (Z.abs z) SAFE) as [_|Hgt]; [reflexivity | lia].
Qed.

Lemma add_one_safe z : (- SAFE <= z < SAFE)%Z -> add_one (Integer z) = Integer (z + 1).
Proof. intros H. simpl. apply to_double_safe. lia. Qed.

(** Beyond [2^53] adding one is not exact: [2^53 + 1] is [2^53] again,
    and [2^53 + 2 + 1] is [2^53 + 4]. *)
Lemma add_one_at_the_limit :
  add_one (Integer SAFE) = Integer SAFE
  /\ add_one (Integer (SAFE + 2)) = Integer (SAFE + 4).
Proof. split; vm_compute; reflexivity. Qed.

Lemma String_of_number_safe z :
  (Z.abs z <= SAFE)%Z -> String_of_number (Integer z) = decimal z.
Proof.
  intros H. unfold String_of_number.
  destruct (Z.leb_spec (Z.abs z) SAFE) as [_|Hgt]; [reflexivity | lia].
Qed.

Lemma decimal_nonempty z : decimal z <> EmptyString.
Proof.
  destruct z as [|p|p]; unfold decimal; simpl; try discriminate.
  rewrite string_of_uint_nonnil by apply Unsigned.to_uint_nonnil.
  destruct (uint_head_digit _ (Unsigned.to_uint_nonnil p)) as (c & rest & E & _).
  rewrite E. discriminate.
Qed.

Lemma parseInt_decimal z : (Z.abs z <= SAFE)%Z -> parseInt (decimal z) = Integer z.
Proof.
  intros Hz. destruct z as [|p|p]; [reflexivity | |]; unfold decimal; simpl.
  - rewrite string_of_uint_nonnil by apply Unsigned.to_uint_nonnil.
    destruct (uint_head_digit _ (Unsigned.to_uint_nonnil p)) as (c & rest & E & Hc).
    rewrite (parseInt_digits _ c rest E Hc), digits_value_uint.
    apply to_double_safe, Hz.
  - rewrite string_of_uint_nonnil by apply Unsigned.to_uint_nonnil.
    unfold parseInt. rewrite skip_spaces_keep by reflexivity.
    rewrite digits_value_uint. apply (to_double_safe (Z.neg p)), Hz.
Qed.

Lemma parseInt_String_of_number z :
  (Z.abs z <= SAFE)%Z -> parseInt (String_of_number (Integer z)) = Integer z.
Proof. intros Hz. rewrite String_of_number_safe by exact Hz. apply parseInt_decimal, Hz. Qed.

(** What the handler writes over a counter that reads as [n]. *)
Lemma count_plus_one n :
  (- SAFE <= n < SAFE)%Z ->
  String_of_number (add_one (Integer n)) = decimal (n + 1).
Proof.
  intros Hn. rewrite add_one_safe by exact Hn. apply String_of_number_safe. lia.
Qed.

(** *** Strings *)

Lemma unescape_escape_char c t :
  unescape (escape_char c +:+ t) = String c <$> unescape t.
Proof. destruct c as [[] [] [] [] [] [] [] []]; reflexivity. Qed.

Lemma escape_reads_back s : unescape (escape s) = Some s.
Proof.
  induction s as [|c s IH]; simpl; [reflexivity|].
  rewrite unescape_escape_char, IH. reflexivity.
Qed.

(** *** The handler *)

Lemma record_key_not_count id : record_key id <> RESPONSE_COUNT.
Proof. unfold record_key, RESPONSE_COUNT. simpl. discriminate. Qed.

Lemma get_set_field key v fields : get_field key (set_field key v fields) = Some v.
Proof.
  induction fields as [|[k w] rest IH]; simpl.
  - rewrite String.eqb_refl. reflexivity.
  - destruct (String.eqb k key) eqn:E; simpl; rewrite E; [reflexivity | exact IH].
Qed.

Lemma get_set_field_ne key key' v fields :
  key <> key' -> get_field key (set_field key' v fields) = get_field key fields.
Proof.
  intros Hne. induction fields as [|[k w] rest IH]; simpl.
  - destruct (String.eqb key' key) eqn:E; [|reflexivity].
    apply String.eqb_eq in E. congruence.
  - destruct (String.eqb k key') eqn:E; simpl.
    + apply String.eqb_eq in E. subst k.
      destruct (String.eqb key' key) eqn:E'; [|reflexivity].
      apply String.eqb_eq in E'. congruence.
    + destruct (String.eqb k key); [reflexivity | exact IH].
Qed.

Lemma extend_Returned ctx data data' :
  extend ctx data = Returned data' ->
  get_property "_id" data' = Some (JString (random_uuid ctx))
  /\ get_property "_server_ts" data' = Some (JString (now_iso ctx))
  /\ ((exists fields,
         data = JObject fields
         /\ data' = JObject (set_field "_id" (JString (random_uuid ctx))
                               (set_field "_server_ts" (JString (now_iso ctx)) fields)))
      \/ (exists items named named',
            data = JArray items named /\ data' = JArray items named'
            /\ JSON_stringify data' = JSON_stringify data)).
Proof.
  unfold extend. destruct data as [|[]| | | |]; simpl; try discriminate;
    intros E; inversion E; subst data'; simpl.
  - rewrite get_set_field, get_set_field_ne, get_set_field by discriminate.
    split; [reflexivity|]. split; [reflexivity|]. right. eauto 6.
  - rewrite get_set_field, get_set_field_ne, get_set_field by discriminate.
    split; [reflexivity|]. split; [reflexivity|]. left. eauto.
Qed.

Lemma extend_Threw ctx data e :
  extend ctx data = Threw e ->
  match data with JObject _ | JArray _ _ => False | _ => True end.
Proof. unfold extend. destruct data as [|[]| | | |]; simpl; auto; discriminate. Qed.

(** The handler, step by step. *)
Lemma onRequestPost_cases ctx kv :
  match request_json ctx with
  | Threw e => onRequestPost ctx kv = (error_response e, kv)
  | Returned data =>
      match extend ctx data with
      | Threw e => onRequestPost ctx kv = (error_response e, kv)
      | Returned data' =>
          let kv1 := <[record_key (random_uuid ctx) := JSON_stringify data']> kv in
          match put_record_fault ctx, get_count_fault ctx, put_count_fault ctx with
          | Some e, _, _ => onRequestPost ctx kv = (error_response e, kv)
          | None, Some e, _ => onRequestPost ctx kv = (error_response e, kv1)
          | None, None, Some e => onRequestPost ctx kv = (error_response e, kv1)
          | None, None, None =>
              onRequestPost ctx kv
              = (ok_response (random_uuid ctx), <[RESPONSE_COUNT := next_count kv]> kv1)
          end
      end
  end.
Proof.
  unfold onRequestPost, submit, bind, lift, extend.
  destruct (request_json ctx) as [data | e]; [|reflexivity].
  destruct (set_property "_server_ts" _ data) as [data1 | e] eqn:E1; [|reflexivity].
  destruct (set_property "_id" _ data1) as [data2 | e] eqn:E2; [|reflexivity].
  assert (Hid : to_display (get_property "_id" data2) = random_uuid ctx).
  { assert (Hx : extend ctx data = Returned data2) by (unfold extend; rewrite E1; exact E2).
    apply extend_Returned in Hx as [Hx _]. rewrite Hx. reflexivity. }
  rewrite Hid. unfold kv_put, kv_get, ret, next_count.
  destruct (put_record_fault ctx); [reflexivity|].
  destruct (get_count_fault ctx); [reflexivity|].
  destruct (put_count_fault ctx); [reflexivity|].
  cbv zeta. rewrite lookup_insert_ne by apply record_key_not_count. reflexivity.
Qed.

(** C10, as stated, fails.  A request whose body is the JSON array
    [[1,2]] is answered 200 although the text stored for it, ["[1,2]"],
    holds neither [_id] nor [_server_ts]; and a submission onto a store
    whose counter does not read as an integer is answered 200 with the
    counter rewritten to ["NaN"], not to an integer plus one. *)
Lemma array_body_is_stored_without_id :
  response_status (onRequestPost Cases.array_submission Scenario.seven_so_far).1 = 200%nat
  /\ (onRequestPost Cases.array_submission Scenario.seven_so_far).2
       !! record_key (random_uuid Cases.array_submission)
     = Some "[1,2]"
  /\ response_status (onRequestPost Scenario.submission Cases.unreadable_count).1 = 200%nat
  /\ (onRequestPost Scenario.submission Cases.unreadable_count).2 !! RESPONSE_COUNT
     = Some "NaN".
Proof. repeat split; vm_compute; reflexivity. Qed.

(** C10, amended: [onRequestPost] answers with status 200 and body
    [{ok: true, id}] or with status 500 and body [{ok: false, error}].
    It answers 200 only when the request JSON was parsed to an object or
    an array, the value with [_server_ts] and [_id = id] assigned has been
    written, stringified, under ['response:' + id], and
    ['response_count'] has been rewritten to
    [String(parseInt(previous || '0', 10) + 1)].  For an object the
    written text shows the two properties; for an array it shows the
    items only; a string is written between quotation marks with its
    escapes, which read back as the string.  The new counter is the
    decimal numeral of [n + 1] when
    the previous text reads as an integer [n] from [-2^53] to [2^53 - 1],
    ["1"] when the key was absent or empty, and ["NaN"] when the previous
    text does not read as a number.  A parse that throws, an assignment
    that throws ([null] or a primitive) and a first write that throws give
    500 and leave the store as it was; a failure after the first write
    gives 500 with the record stored and the counter as it was. *)
Theorem submission_result_contract (ctx : Context) (kv : gmap string string) :
  let resp := (onRequestPost ctx kv).1 in
  let kv' := (onRequestPost ctx kv).2 in
  let id := random_uuid ctx in
  let previous := parseInt (or_zero (kv !! RESPONSE_COUNT)) in
  (resp = ok_response id \/ exists e, resp = error_response e)
  /\ response_status (ok_response id) = 200%nat
  /\ response_body (ok_response id) = JSON_stringify (ok_body id)
  /\ (forall e, response_status (error_response e) = 500%nat
                /\ response_body (error_response e) = JSON_stringify (error_body e))
  /\ (response_status resp = 200%nat ->
      exists data data',
        request_json ctx = Returned data /\ extend ctx data = Returned data'
        /\ resp = ok_response id
        /\ kv' !! record_key id = Some (JSON_stringify data')
        /\ ((exists fields fields',
               data = JObject fields /\ data' = JObject fields'
               /\ fields' = set_field "_id" (JString id)
                              (set_field "_server_ts" (JString (now_iso ctx)) fields)
               /\ get_field "_id" fields' = Some (JString id)
               /\ get_field "_server_ts" fields' = Some (JString (now_iso ctx))
               /\ JSON_stringify data'
                  = "{" +:+ join ","
                              (map (fun f => quote f.1 +:+ ":" +:+ JSON_stringify f.2)
                                 fields')
                    +:+ "}")
            \/ (exists items named,
                  data = JArray items named
                  /\ JSON_stringify data'
                     = "[" +:+ join "," (map JSON_stringify items) +:+ "]"))
        /\ kv' !! RESPONSE_COUNT = Some (String_of_number (add_one previous))
        /\ (forall n, previous = Integer n -> (- SAFE <= n < SAFE)%Z ->
                      kv' !! RESPONSE_COUNT = Some (decimal (n + 1)))
        /\ (kv !! RESPONSE_COUNT = None \/ kv !! RESPONSE_COUNT = Some EmptyString ->
            kv' !! RESPONSE_COUNT = Some "1")
        /\ (previous = NaN -> kv' !! RESPONSE_COUNT = Some "NaN")
        /\ (forall key, key <> record_key id -> key <> RESPONSE_COUNT ->
                        kv' !! key = kv !! key))
  /\ (forall e, request_json ctx = Threw e -> resp = error_response e /\ kv' = kv)
  /\ (forall data e, request_json ctx = Returned data -> extend ctx data = Threw e ->
                     resp = error_response e /\ kv' = kv
                     /\ match data with JObject _ | JArray _ _ => False | _ => True end)
  /\ (forall data data' e,
        request_json ctx = Returned data -> extend ctx data = Returned data' ->
        put_record_fault ctx = Some e -> resp = error_response e /\ kv' = kv)
  /\ (forall data data' e,
        request_json ctx = Returned data -> extend ctx data = Returned data' ->
        put_record_fault ctx = None ->
        get_count_fault ctx = Some e
        \/ (get_count_fault ctx = None /\ put_count_fault ctx = Some e) ->
        resp = error_response e
        /\ kv' !! record_key id = Some (JSON_stringify data')
        /\ kv' !! RESPONSE_COUNT = kv !! RESPONSE_COUNT)
  /\ (forall s, JSON_stringify (JString s) = DQUOTE +:+ escape s +:+ DQUOTE
                /\ unescape (escape s) = Some s).
Proof.
  intros resp kv' id previous. unfold resp, kv', id, previous.
  pose proof (onRequestPost_cases ctx kv) as H.
  split; [|split; [reflexivity|split; [reflexivity|split; [intros e; split; reflexivity|]]]].
  { destruct (request_json ctx) as [data | e]; [|rewrite H; eauto].
    destruct (extend ctx data) as [data' | e]; [|rewrite H; eauto].
    destruct (put_record_fault ctx); [rewrite H; eauto|].
    destruct (get_count_fault ctx); [rewrite H; eauto|].
    destruct (put_count_fault ctx); rewrite H; eauto. }
  split.
  { destruct (request_json ctx) as [data | e]; [|rewrite H; discriminate].
    destruct (extend ctx data) as [data' | e] eqn:Hx; [|rewrite H; discriminate].
    destruct (put_record_fault ctx); [rewrite H; discriminate|].
    destruct (get_count_fault ctx); [rewrite H; discriminate|].
    destruct (put_count_fault ctx); [rewrite H; discriminate|].
    cbv zeta in H. rewrite H. cbn [fst snd]. intros _.
    destruct (extend_Returned ctx data data' Hx) as (Hid & Hts & Hshape).
    exists data, data'. split; [reflexivity|]. split; [exact Hx|].
    split; [reflexivity|].
    split.
    { rewrite lookup_insert_ne by (intros E; symmetry in E; revert E; apply record_key_not_count).
      apply lookup_insert_eq. }
    split.
    { destruct Hshape as [(fields & E & E') | (items & named & named' & E & E' & _)].
      - left. exists fields. eexists. split; [exact E|]. split; [exact E'|].
        split; [reflexivity|]. rewrite E' in Hid, Hts.
        split; [exact Hid|]. split; [exact Hts|]. rewrite E'. reflexivity.
      - right. exists items, named. split; [exact E|]. rewrite E'. reflexivity. }
    split; [apply lookup_insert_eq|].
    split.
    { intros n Hn Hsafe. rewrite lookup_insert_eq. unfold next_count. rewrite Hn.
      rewrite count_plus_one by exact Hsafe. reflexivity. }
    split.
    { intros [Hn | Hn]; rewrite lookup_insert_eq; unfold next_count; rewrite Hn;
        reflexivity. }
    split.
    { intros Hn. rewrite lookup_insert_eq. unfold next_count. rewrite Hn. reflexivity. }
    intros key Hk1 Hk2. rewrite !lookup_insert_ne by congruence. reflexivity. }
  split.
  { intros e He. rewrite He in H. rewrite H. split; reflexivity. }
  split.
  { intros data e Hd Hx. rewrite Hd, Hx in H. rewrite H. split; [reflexivity|].
    split; [reflexivity|]. apply (extend_Threw ctx data e Hx). }
  split.
  { intros data data' e Hd Hx Hp. rewrite Hd, Hx, Hp in H. rewrite H. split; reflexivity. }
  split; [|intros s; split; [reflexivity | apply escape_reads_back]].
  intros data data' e Hd Hx Hp Hf. rewrite Hd, Hx, Hp in H. cbv zeta in H.
  assert (E : onRequestPost ctx kv
              = (error_response e,
                 <[record_key (random_uuid ctx) := JSON_stringify data']> kv)).
  { destruct Hf as [Hg | [Hg Hc]]; rewrite Hg in H; [exact H|].
    rewrite Hc in H. exact H. }
  rewrite E. simpl. split; [reflexivity|]. split; [apply lookup_insert_eq|].
  apply lookup_insert_ne, record_key_not_count.
Qed.

(** A submission whose answers need escaping, onto a store whose counter
    text is [" 41 responses"]: answered 200, stored as the text shown,
    counted as the forty-second; and a submission interrupted between
    the two writes onto a store that counts seven: answered 500, stored,
    still counted seven. *)
Lemma submission_result_contract_witness :
  response_status (onRequestPost Cases.tricky_submission Cases.forty_one).1 = 200%nat
  /\ (onRequestPost Cases.tricky_submission Cases.forty_one).2
       !! record_key (random_uuid Cases.tricky_submission)
     = Some Cases.tricky_text
  /\ (onRequestPost Cases.tricky_submission Cases.forty_one).2 !! RESPONSE_COUNT
     = Some "42"
  /\ response_status (onRequestPost Scenario.interrupted Scenario.seven_so_far).1 = 500%nat
  /\ is_Some ((onRequestPost Scenario.interrupted Scenario.seven_so_far).2
                !! record_key (random_uuid Scenario.interrupted))
  /\ (onRequestPost Scenario.interrupted Scenario.seven_so_far).2 !! RESPONSE_COUNT
     = Some "7".
Proof.
  assert (H200 : response_status
                   (onRequestPost Cases.tricky_submission Cases.forty_one).1 = 200%nat)
    by reflexivity.
  split; [exact H200|].
  destruct (submission_result_contract Cases.tricky_submission Cases.forty_one)
    as (_ & _ & _ & _ & Hok & _ & _ & _ & _ & _).
  destruct (Hok H200) as (data & data' & Hd & Hx & _ & Hrec & _ & _ & Hcount & _).
  split.
  { rewrite Hrec. inversion Hd; subst data. vm_compute in Hx. inversion Hx; subst data'.
    vm_compute. reflexivity. }
  split.
  { apply (Hcount 41%Z);
      [vm_compute; reflexivity | vm_compute; split; [discriminate | reflexivity]]. }
  destruct (submission_result_contract Scenario.interrupted Scenario.seven_so_far)
    as (_ & _ & _ & _ & _ & _ & _ & _ & Hcut & _).
  destruct (extend Scenario.interrupted Scenario.answers) as [data2|e] eqn:Hx2;
    [|vm_compute in Hx2; discriminate Hx2].
  destruct (Hcut Scenario.answers data2 "KV unavailable" eq_refl Hx2 eq_refl
              (or_introl eq_refl)) as (Hresp & Hrec2 & Hcnt).
  split; [rewrite Hresp; reflexivity|].
  split; [rewrite Hrec2; eexists; reflexivity|].
  rewrite Hcnt. reflexivity.
Defined.

End SurveyFacts.

(** ** More on the group-dynamics formulas *)

Module DynamicsMore.

Import Dynamics.

Lemma Qmax0_le (x y : Q) : x <= y -> Qmax 0 x <= Qmax 0 y.
Proof. intros H. apply Q.max_le_compat_l. exact H. Qed.

Lemma inject_nat_pos (n : nat) : n <> 0%nat -> 0 < inject_Z (Z.of_nat n).
Proof. intros H. change 0 with (inject_Z 0). rewrite <- Zlt_Qlt. lia. Qed.

Lemma ratio_le (a b c d : nat) :
  b <> 0%nat -> d <> 0%nat -> (a * d <= c * b)%nat ->
  inject_Z (Z.of_nat a) / inject_Z (Z.of_nat b)
  <= inject_Z (Z.of_nat c) / inject_Z (Z.of_nat d).
Proof.
  intros Hb Hd H.
  pose proof (inject_nat_pos b Hb) as Hb'. pose proof (inject_nat_pos d Hd) as Hd'.
  apply Qle_shift_div_r; [exact Hb'|].
  assert (E : inject_Z (Z.of_nat c) / inject_Z (Z.of_nat d) * inject_Z (Z.of_nat b)
              == inject_Z (Z.of_nat c) * inject_Z (Z.of_nat b) / inject_Z (Z.of_nat d)).
  { field. intros E0. rewrite E0 in Hd'. apply (Qlt_irrefl 0), Hd'. }
  rewrite E. apply Qle_shift_div_l; [exact Hd'|].
  rewrite <- !inject_Z_mult, <- Zle_Qle. nia.
Qed.

Lemma ratio_nonneg (a b : nat) r : py_div a b = Some r -> 0 <= r.
Proof.
  destruct b as [|b]; [discriminate|]. intros E; inversion E; subst r.
  apply Qle_shift_div_l; [apply inject_nat_pos; discriminate|].
  rewrite Qmult_0_l. change 0 with (inject_Z 0). rewrite <- Zle_Qle. lia.
Qed.

Lemma pressure_mono_ratio (W : Q) (p : Persona) (r1 r2 : Q) :
  0 <= W -> 0 <= agreeableness p -> r1 <= r2 ->
  Qmax 0 (net_pressure W r1 p) <= Qmax 0 (net_pressure W r2 p).
Proof.
  intros HW Ha Hr. apply Qmax0_le. unfold net_pressure.
  assert (H : 0 <= (r2 - r1) * (agreeableness p * W)).
  { apply Qmult_le_0_compat; [lra|]. apply Qmult_le_0_compat; assumption. }
  assert (E : r2 * agreeableness p * W - conviction p * (1 - agreeableness p)
              - (r1 * agreeableness p * W - conviction p * (1 - agreeableness p))
              == (r2 - r1) * (agreeableness p * W)) by ring.
  lra.
Qed.

(** X1: of two personas with the same conviction, which is not negative,
    the more agreeable one is under at least as much conformity pressure,
    in every round in which somebody has spoken and for every weight that
    is not negative. *)
Theorem pressure_grows_with_agreeableness
    (W : Q) (p1 p2 : Persona) (g : GroupSentiment) (v1 v2 : Q) :
  0 <= W -> 0 <= conviction p1 -> conviction p2 == conviction p1 ->
  agreeableness p1 <= agreeableness p2 ->
  calculate_conformity_pressure W p1 g = Some v1 ->
  calculate_conformity_pressure W p2 g = Some v2 ->
  v1 <= v2.
Proof.
  intros HW Hc Hcc Ha. unfold calculate_conformity_pressure.
  destruct (py_div _ _) as [r|] eqn:Hr; [|discriminate].
  intros E1 E2. inversion E1; inversion E2; subst v1 v2. clear E1 E2.
  apply Qmax0_le. unfold net_pressure. cbv zeta. rewrite Hcc.
  pose proof (ratio_nonneg _ _ _ Hr) as Hr0.
  assert (H : 0 <= (agreeableness p2 - agreeableness p1) * (r * W + conviction p1)).
  { apply Qmult_le_0_compat; [lra|].
    assert (0 <= r * W) by (apply Qmult_le_0_compat; assumption). lra. }
  assert (E : r * agreeableness p2 * W - conviction p1 * (1 - agreeableness p2)
              - (r * agreeableness p1 * W - conviction p1 * (1 - agreeableness p1))
              == (agreeableness p2 - agreeableness p1) * (r * W + conviction p1)) by ring.
  lra.
Qed.

Lemma pressure_grows_with_agreeableness_witness :
  exists v1 v2,
    calculate_conformity_pressure 0.8 Scenario.stubborn Scenario.six_of_eight = Some v1
    /\ calculate_conformity_pressure 0.8 Cases.yielding Scenario.six_of_eight = Some v2
    /\ v1 <= v2.
Proof.
  eexists. eexists. split; [reflexivity|]. split; [reflexivity|].
  apply (pressure_grows_with_agreeableness 0.8 Scenario.stubborn Cases.yielding
           Scenario.six_of_eight);
    first [reflexivity | vm_compute; discriminate].
Defined.

(** X2: of two personas with the same agreeableness, which is at most 1,
    the one with the stronger conviction is under at most as much
    conformity pressure. *)
Theorem conviction_resists_pressure
    (W : Q) (p1 p2 : Persona) (g : GroupSentiment) (v1 v2 : Q) :
  agreeableness p2 == agreeableness p1 -> agreeableness p1 <= 1 ->
  conviction p1 <= conviction p2 ->
  calculate_conformity_pressure W p1 g = Some v1 ->
  calculate_conformity_pressure W p2 g = Some v2 ->
  v2 <= v1.
Proof.
  intros Haa Ha Hc. unfold calculate_conformity_pressure.
  destruct (py_div _ _) as [r|] eqn:Hr; [|discriminate].
  intros E1 E2. inversion E1; inversion E2; subst v1 v2. clear E1 E2.
  apply Qmax0_le. unfold net_pressure. cbv zeta. rewrite Haa.
  assert (H : 0 <= (conviction p2 - conviction p1) * (1 - agreeableness p1)).
  { apply Qmult_le_0_compat; lra. }
  assert (E : r * agreeableness p1 * W - conviction p1 * (1 - agreeableness p1)
              - (r * agreeableness p1 * W - conviction p2 * (1 - agreeableness p1))
              == (conviction p2 - conviction p1) * (1 - agreeableness p1)) by ring.
  lra.
Qed.

Lemma conviction_resists_pressure_witness :
  exists v1 v2,
    calculate_conformity_pressure 20 Cases.wavering Scenario.six_of_eight = Some v1
    /\ calculate_conformity_pressure 20 Scenario.stubborn Scenario.six_of_eight = Some v2
    /\ v2 <= v1.
Proof.
  eexists. eexists. split; [reflexivity|]. split; [reflexivity|].
  apply (conviction_resists_pressure 20 Cases.wavering Scenario.stubborn
           Scenario.six_of_eight);
    first [reflexivity | vm_compute; discriminate].
Defined.

(** X3: for a weight and an agreeableness that are not negative, a round
    in which a larger share of the speakers is counted as agreeing puts
    the persona under at least as much conformity pressure. *)
Theorem pressure_grows_with_agreement
    (W : Q) (p : Persona) (g1 g2 : GroupSentiment) (v1 v2 : Q) :
  0 <= W -> 0 <= agreeableness p ->
  (count_agreeing g1 * total_speakers g2 <= count_agreeing g2 * total_speakers g1)%nat ->
  calculate_conformity_pressure W p g1 = Some v1 ->
  calculate_conformity_pressure W p g2 = Some v2 ->
  v1 <= v2.
Proof.
  intros HW Ha Hshare. unfold calculate_conformity_pressure.
  destruct (total_speakers g1) as [|n1] eqn:E1; [discriminate|].
  destruct (total_speakers g2) as [|n2] eqn:E2; [discriminate|].
  unfold py_div. intros H1 H2. inversion H1; inversion H2; subst v1 v2.
  apply pressure_mono_ratio; try assumption. apply ratio_le; [discriminate.. | exact Hshare].
Qed.

Lemma pressure_grows_with_agreement_witness :
  exists v1 v2,
    calculate_conformity_pressure 20 Cases.yielding Scenario.six_of_eight = Some v1
    /\ calculate_conformity_pressure 20 Cases.yielding Cases.three_positive = Some v2
    /\ v1 <= v2.
Proof.
  eexists. eexists. split; [reflexivity|]. split; [reflexivity|].
  apply (pressure_grows_with_agreement 20 Cases.yielding Scenario.six_of_eight
           Cases.three_positive);
    first [reflexivity | vm_compute; discriminate | vm_compute; lia].
Defined.

(** X4: when every speaker of the round is counted as agreeing, the
    conformity pressure is [max(0, agreeableness * CONFORMITY_WEIGHT -
    conviction * (1 - agreeableness))] whatever the number of speakers:
    one agreeing speaker presses as hard as three or more. *)
Theorem unanimous_pressure_ignores_group_size
    (W : Q) (p : Persona) (g : GroupSentiment) :
  total_speakers g <> 0%nat ->
  count_agreeing g = total_speakers g ->
  exists v, calculate_conformity_pressure W p g = Some v
            /\ v == Qmax 0 (agreeableness p * W - conviction p * (1 - agreeableness p)).
Proof.
  intros Hne Hall. unfold calculate_conformity_pressure. rewrite Hall.
  destruct (total_speakers g) as [|n]; [contradiction|].
  unfold py_div. eexists; split; [reflexivity|]. unfold net_pressure.
  pose proof (inject_nat_pos (S n) Hne) as Hn.
  assert (E : inject_Z (Z.of_nat (S n)) / inject_Z (Z.of_nat (S n)) == 1).
  { field. intros E0. rewrite E0 in Hn. apply (Qlt_irrefl 0), Hn. }
  rewrite E, Qmult_1_l. reflexivity.
Qed.

Lemma unanimous_pressure_ignores_group_size_witness :
  (exists v, calculate_conformity_pressure 20 Cases.yielding Scenario.one_positive = Some v
             /\ v == Qmax 0 (0.9 * 20 - 0.9 * (1 - 0.9)))
  /\ (exists v, calculate_conformity_pressure 20 Cases.yielding Cases.three_positive = Some v
                /\ v == Qmax 0 (0.9 * 20 - 0.9 * (1 - 0.9))).
Proof.
  split.
  - apply (unanimous_pressure_ignores_group_size 20 Cases.yielding Scenario.one_positive);
      [discriminate | reflexivity].
  - apply (unanimous_pressure_ignores_group_size 20 Cases.yielding Cases.three_positive);
      [discriminate | reflexivity].
Defined.

(** X5: when extraversion, perceived expertise and speaking share lie in
    [[0, 1]], so does the influence score: the three weights are not
    negative and add up to 1. *)
Theorem influence_stays_in_the_unit_interval {G : Type} (p : Persona) (g : G) :
  0 <= extraversion p <= 1 ->
  0 <= perceived_expertise p <= 1 ->
  0 <= speak_count_ratio p <= 1 ->
  0 <= calculate_influence p g <= 1.
Proof.
  intros [? ?] [? ?] [? ?]. unfold calculate_influence. split; lra.
Qed.

Lemma influence_stays_in_the_unit_interval_witness :
  0 <= calculate_influence Scenario.keen tt <= 1.
Proof.
  apply (influence_stays_in_the_unit_interval Scenario.keen tt);
    split; vm_compute; discriminate.
Defined.

End DynamicsMore.

(** ** More on the session loop *)

Module SketchMore.

Import Sketch SketchMeasures.

Section Session.

Variables Hidden GroupState : Type.
Variable introduce_section : Hidden -> SectionGuide -> string.
Variable evaluate_round : Hidden -> list Response -> SectionGuide -> ModAction.
Variable get_speaking_order : Hidden -> list PersonaAgent.
Variable get_group_state : Hidden -> GroupState.
Variable decide_to_speak :
  Hidden -> PersonaAgent -> string -> list Response -> GroupState -> bool.
Variable generate_response :
  Hidden -> PersonaAgent -> string -> list Response -> GroupState -> Response.
Variable update_group_state : Hidden -> PersonaAgent -> Response -> Hidden.

Local Abbreviation speak_in_order :=
  (speak_in_order get_group_state decide_to_speak generate_response update_group_state).
Local Abbreviation run_round :=
  (run_round get_speaking_order get_group_state decide_to_speak generate_response
     update_group_state).
Local Abbreviation run_rounds :=
  (run_rounds evaluate_round get_speaking_order get_group_state decide_to_speak
     generate_response update_group_state).
Local Abbreviation run_section :=
  (run_section introduce_section evaluate_round get_speaking_order get_group_state
     decide_to_speak generate_response update_group_state).
Local Abbreviation run_session :=
  (run_session introduce_section evaluate_round get_speaking_order get_group_state
     decide_to_speak generate_response update_group_state).

Lemma speak_in_order_shape order prompt : forall sim responses,
  exists speakers answers,
    sublist speakers order /\
    length speakers = length answers /\
    (speak_in_order order prompt sim responses).2 = responses ++ answers /\
    transcript (speak_in_order order prompt sim responses).1
    = transcript sim ++ zip_with persona_entry speakers answers /\
    turn_count (speak_in_order order prompt sim responses).1 = turn_count sim.
Proof.
  induction order as [|p rest IH]; intros sim responses; simpl.
  - exists [], []. rewrite !app_nil_r. repeat split. constructor.
  - destruct (decide_to_speak _ _ _ _ _).
    + match goal with |- context [speak_in_order rest prompt ?s ?r] =>
        destruct (IH s r) as (speakers & answers & Hsub & Hlen & Hr & Ht & Hc) end.
      match type of Hr with context [responses ++ [?r]] => set (response := r) in * end.
      exists (p :: speakers), (response :: answers). repeat split.
      * constructor. exact Hsub.
      * simpl. rewrite Hlen. reflexivity.
      * rewrite Hr, <- app_assoc. reflexivity.
      * rewrite Ht. simpl. rewrite <- app_assoc. reflexivity.
      * rewrite Hc. reflexivity.
    + destruct (IH sim responses) as (speakers & answers & Hsub & Hlen & Hr & Ht & Hc).
      exists speakers, answers. repeat split; try assumption.
      constructor. exact Hsub.
Qed.

Lemma run_round_shape prompt section sim :
  exists speakers,
    sublist speakers (get_speaking_order (hidden sim)) /\
    length speakers = length (run_round prompt section sim).2 /\
    transcript (run_round prompt section sim).1
    = transcript sim
      ++ zip_with persona_entry speakers (run_round prompt section sim).2 /\
    turn_count (run_round prompt section sim).1 = turn_count sim.
Proof.
  unfold Sketch.run_round.
  destruct (speak_in_order_shape (get_speaking_order (hidden sim)) prompt sim [])
    as (speakers & answers & Hsub & Hlen & Hr & Ht & Hc).
  simpl in Hr. exists speakers. rewrite Hr. repeat split; assumption.
Qed.

(** X6: [run_round] goes once through the speaking order as it stands
    when the round starts: the personas that answer are a subsequence of
    it, each of them gives exactly one response, and the transcript grows
    by exactly one entry per response, in that order, carrying the
    persona's name and id; [turn_count] stays as it was. *)
Theorem run_round_asks_each_persona_once prompt section sim :
  exists speakers,
    sublist speakers (get_speaking_order (hidden sim)) /\
    length speakers = length (run_round prompt section sim).2 /\
    transcript (run_round prompt section sim).1
    = transcript sim
      ++ zip_with persona_entry speakers (run_round prompt section sim).2 /\
    turn_count (run_round prompt section sim).1 = turn_count sim.
Proof.
  unfold Sketch.run_round.
  destruct (speak_in_order_shape (get_speaking_order (hidden sim)) prompt sim [])
    as (speakers & answers & Hsub & Hlen & Hr & Ht & Hc).
  rewrite app_nil_l in Hr. exists speakers. rewrite Hr.
  split; [exact Hsub|]. split; [exact Hlen|]. split; [exact Ht | exact Hc].
Qed.

Lemma run_rounds_turn_count n : forall prompt section sim,
  turn_count (run_rounds n prompt section sim) = turn_count sim.
Proof.
  induction n as [|n IH]; intros prompt section sim; simpl; [reflexivity|].
  destruct (run_round_shape prompt section sim) as (speakers & _ & _ & _ & Hc).
  destruct (run_round prompt section sim) as [sim1 responses]. simpl in Hc.
  destruct responses as [|r rs]; [exact Hc|].
  destruct (String.eqb _ "follow_up"); [rewrite IH; exact Hc|].
  destruct (String.eqb _ "draw_out"); [rewrite IH; exact Hc|].
  destruct (String.eqb _ "move_on"); [exact Hc|].
  rewrite IH. exact Hc.
Qed.

Lemma fold_sections_turn_count sections : forall sim,
  turn_count (fold_left run_section sections sim) = turn_count sim.
Proof.
  induction sections as [|sec rest IH]; intros sim; simpl; [reflexivity|].
  rewrite IH. unfold Sketch.run_section. rewrite run_rounds_turn_count. reflexivity.
Qed.

(** X7: [run_session] only appends: the transcript it returns starts with
    the transcript it found.  And it never advances [turn_count]: a
    simulator made by [__init__] still has [turn_count = 0] after any
    session. *)
Theorem session_appends_and_never_counts_turns sections sim :
  (exists extra, run_session sections sim = transcript sim ++ extra)
  /\ turn_count (fold_left run_section sections sim) = turn_count sim
  /\ forall h, turn_count (fold_left run_section sections (init h)) = 0%nat.
Proof.
  split; [apply SketchFacts.fold_sections_grows|].
  split; [apply fold_sections_turn_count|].
  intros h. apply fold_sections_turn_count.
Qed.

Lemma moderator_turns_app l1 l2 :
  moderator_turns (l1 ++ l2) = (moderator_turns l1 + moderator_turns l2)%nat.
Proof. unfold moderator_turns. rewrite List.filter_app, length_app. reflexivity. Qed.

Lemma moderator_turns_personas speakers : forall answers,
  moderator_turns (zip_with persona_entry speakers answers) = 0%nat.
Proof.
  induction speakers as [|p ps IH]; intros [|a answers]; try reflexivity.
  simpl. unfold moderator_turns in *. simpl. apply IH.
Qed.

Lemma run_round_length prompt section sim n :
  (forall h, length (get_speaking_order h) <= n)%nat ->
  (length (transcript (run_round prompt section sim).1)
   <= length (transcript sim) + n)%nat.
Proof.
  intros Hn.
  destruct (run_round_shape prompt section sim) as (speakers & Hsub & Hlen & Ht & _).
  rewrite Ht, length_app, length_zip_with, <- Hlen, Nat.min_id.
  apply sublist_length in Hsub. specialize (Hn (hidden sim)). lia.
Qed.

Lemma run_rounds_length n rounds : forall prompt section sim,
  (forall h, length (get_speaking_order h) <= n)%nat ->
  (length (transcript (run_rounds rounds prompt section sim))
   <= length (transcript sim) + rounds * (n + 1))%nat.
Proof.
  induction rounds as [|rounds IH]; intros prompt section sim Hn; simpl; [lia|].
  pose proof (run_round_length prompt section sim n Hn) as Hr.
  destruct (run_round prompt section sim) as [sim1 responses]. simpl in Hr.
  destruct responses as [|r rs]; [lia|].
  assert (Hgo : forall q m,
            (length (transcript (run_rounds rounds q section (append_entry m sim1)))
             <= length (transcript sim) + (n + 1 + rounds * (n + 1)))%nat).
  { intros q m. etransitivity; [apply IH, Hn|]. simpl. rewrite length_app. simpl. lia. }
  destruct (String.eqb _ "follow_up"); [apply Hgo|].
  destruct (String.eqb _ "draw_out"); [apply Hgo|].
  destruct (String.eqb _ "move_on"); [lia|].
  etransitivity; [apply IH, Hn|]. lia.
Qed.

(** X8: when the speaking order never holds more than [n] personas, a
    session adds at most, for each section, one introduction and, for each
    of its [max_rounds] rounds, [n] answers and one prompt of the
    moderator; a section with [max_rounds = 0] adds its introduction
    only. *)
Theorem session_length_is_bounded n sections : forall sim,
  (forall h, length (get_speaking_order h) <= n)%nat ->
  (length (run_session sections sim)
   <= length (transcript sim) + entries_allowed n sections)%nat.
Proof.
  unfold Sketch.run_session.
  induction sections as [|sec rest IH]; intros sim Hn; [simpl; lia|].
  change (entries_allowed n (sec :: rest))
    with (1 + max_rounds sec * (n + 1) + entries_allowed n rest)%nat.
  cbn [fold_left]. etransitivity; [apply IH, Hn|].
  unfold Sketch.run_section.
  pose proof (run_rounds_length n (max_rounds sec)
                (introduce_section (hidden sim) sec) sec
                (append_entry (moderator_entry (introduce_section (hidden sim) sec)) sim)
                Hn) as Hr.
  simpl in Hr. rewrite length_app in Hr. simpl in Hr. lia.
Qed.

Lemma run_rounds_moderator_turns rounds : forall prompt section sim,
  (forall h rs section, action_type (evaluate_round h rs section) <> "follow_up"
                        /\ action_type (evaluate_round h rs section) <> "draw_out") ->
  moderator_turns (transcript (run_rounds rounds prompt section sim))
  = moderator_turns (transcript sim).
Proof.
  induction rounds as [|rounds IH]; intros prompt section sim Hev; simpl; [reflexivity|].
  destruct (run_round_shape prompt section sim) as (speakers & _ & _ & Ht & _).
  destruct (run_round prompt section sim) as [sim1 responses]. simpl in Ht.
  assert (E : moderator_turns (transcript sim1) = moderator_turns (transcript sim)).
  { rewrite Ht, moderator_turns_app, moderator_turns_personas. lia. }
  destruct responses as [|r rs]; [exact E|].
  destruct (Hev (hidden sim1) (r :: rs) section) as [H1 H2].
  apply String.eqb_neq in H1, H2. rewrite H1, H2.
  destruct (String.eqb _ "move_on"); [exact E|].
  rewrite IH by exact Hev. exact E.
Qed.

(** X9: when [evaluate_round] never answers ["follow_up"] or
    ["draw_out"], the moderator's entries of a session are the
    introductions: one per section of the guide, however many rounds are
    run. *)
Theorem moderator_only_introduces sections : forall sim,
  (forall h rs section, action_type (evaluate_round h rs section) <> "follow_up"
                        /\ action_type (evaluate_round h rs section) <> "draw_out") ->
  moderator_turns (run_session sections sim)
  = (moderator_turns (transcript sim) + length sections)%nat.
Proof.
  unfold Sketch.run_session.
  induction sections as [|sec rest IH]; intros sim Hev; simpl; [lia|].
  rewrite IH by exact Hev. unfold Sketch.run_section.
  rewrite run_rounds_moderator_turns by exact Hev.
  simpl. rewrite moderator_turns_app. simpl. unfold moderator_turns at 2. simpl. lia.
Qed.

Lemma run_rounds_as_follow_up rounds : forall prompt section sim,
  Sketch.run_rounds (as_follow_up evaluate_round) get_speaking_order get_group_state
    decide_to_speak generate_response update_group_state rounds prompt section sim
  = run_rounds rounds prompt section sim.
Proof.
  induction rounds as [|rounds IH]; intros prompt section sim; simpl; [reflexivity|].
  destruct (run_round prompt section sim) as [sim1 responses].
  destruct responses as [|r rs]; [reflexivity|].
  unfold as_follow_up.
  destruct (String.eqb (action_type (evaluate_round (hidden sim1) (r :: rs) section))
              "draw_out") eqn:Ed; simpl.
  - rewrite IH.
    destruct (String.eqb _ "follow_up"); reflexivity.
  - rewrite Ed. rewrite !IH. reflexivity.
Qed.

(** X10: the session loop does for ["draw_out"] what it does for
    ["follow_up"]: a moderator that answers ["follow_up"] in place of
    every ["draw_out"] gives the same transcript. *)
Theorem draw_out_is_handled_as_follow_up sections sim :
  Sketch.run_session introduce_section (as_follow_up evaluate_round) get_speaking_order
    get_group_state decide_to_speak generate_response update_group_state sections sim
  = run_session sections sim.
Proof.
  unfold Sketch.run_session. f_equal. revert sim.
  induction sections as [|sec rest IH]; intros sim; simpl; [reflexivity|].
  rewrite IH. f_equal. unfold Sketch.run_section. apply run_rounds_as_follow_up.
Qed.

End Session.

Lemma session_length_is_bounded_witness :
  (forall h, length (Scenario.both h) <= 2)%nat
  /\ (length Cases.lively_session <= 0 + entries_allowed 2 Scenario.two_sections)%nat.
Proof.
  assert (H : forall h : unit, (length (Scenario.both h) <= 2)%nat) by (intros h; simpl; lia).
  split; [exact H|].
  apply (session_length_is_bounded unit unit Scenario.introduce Cases.probe Scenario.both
           (fun _ => tt) Cases.speak_up Scenario.shrug Scenario.keep 2
           Scenario.two_sections (init tt) H).
Defined.

Lemma moderator_only_introduces_witness :
  (forall (h : unit) rs section,
     action_type (Scenario.move_on h rs section) <> "follow_up"
     /\ action_type (Scenario.move_on h rs section) <> "draw_out")
  /\ moderator_turns Cases.brisk_session = (0 + 2)%nat.
Proof.
  assert (H : forall (h : unit) rs section,
            action_type (Scenario.move_on h rs section) <> "follow_up"
            /\ action_type (Scenario.move_on h rs section) <> "draw_out")
    by (intros h rs section; split; discriminate).
  split; [exact H|].
  apply (moderator_only_introduces unit unit Scenario.introduce Scenario.move_on
           Scenario.both (fun _ => tt) Cases.speak_up Scenario.shrug Scenario.keep
           Scenario.two_sections (init tt) H).
Defined.

End SketchMore.

(** ** The export endpoint *)

Module AdminFacts.

Import Survey Admin.

Lemma elem_of_names kv name : name ∈ names kv <-> is_Some (kv !! name).
Proof.
  unfold names. rewrite merge_sort_Permutation, list_elem_of_fmap. split.
  - intros [[k v] [-> H]]. apply elem_of_map_to_list in H. simpl. eauto.
  - intros [v H]. exists (name, v). split; [reflexivity|]. apply elem_of_map_to_list, H.
Qed.

Lemma NoDup_names kv : NoDup (names kv).
Proof. unfold names. rewrite merge_sort_Permutation. apply NoDup_fst_map_to_list. Qed.

Lemma names_insert_fresh kv name v :
  kv !! name = None -> names (<[name := v]> kv) ≡ₚ name :: names kv.
Proof.
  intros H. apply NoDup_Permutation.
  - apply NoDup_names.
  - constructor; [|apply NoDup_names]. rewrite elem_of_names, H. intros [? ?]; discriminate.
  - intros x. rewrite elem_of_cons, !elem_of_names.
    destruct (decide (x = name)) as [->|Hne].
    + rewrite lookup_insert_eq. split; eauto.
    + rewrite lookup_insert_ne by congruence. split; [eauto|].
      intros [?|?]; [contradiction|assumption].
Qed.

Lemma names_insert_known kv name v :
  is_Some (kv !! name) -> names (<[name := v]> kv) ≡ₚ names kv.
Proof.
  intros H. apply NoDup_Permutation; try apply NoDup_names.
  intros x. rewrite !elem_of_names.
  destruct (decide (x = name)) as [->|Hne].
  - rewrite lookup_insert_eq. split; eauto.
  - rewrite lookup_insert_ne by congruence. reflexivity.
Qed.

Lemma record_key_has_prefix id : has_prefix RECORD_PREFIX (record_key id).
Proof. unfold has_prefix, RECORD_PREFIX, record_key. simpl. destruct id; reflexivity. Qed.

Lemma count_key_has_no_prefix : ~ has_prefix RECORD_PREFIX RESPONSE_COUNT.
Proof. unfold has_prefix. vm_compute. discriminate. Qed.

Lemma differs_false secret admin_key :
  differs secret admin_key = false <-> exists k, secret = Some k /\ admin_key = Some k.
Proof.
  unfold differs. destruct secret as [a|], admin_key as [b|]; split;
    try discriminate; try (intros (k & E1 & E2); discriminate).
  - intros H. apply negb_false_iff, String.eqb_eq in H. subst b. eauto.
  - intros (k & E1 & E2). inversion E1; inversion E2; subst. rewrite String.eqb_refl.
    reflexivity.
Qed.

Section Handler.

Variable JSON_parse : string -> outcome json.
Variable list_limit : nat.

Local Abbreviation kv_list := (kv_list list_limit).
Local Abbreviation collect := (collect JSON_parse).
Local Abbreviation onRequestGet := (onRequestGet JSON_parse list_limit).
Local Abbreviation read_as := (read_as JSON_parse).

Lemma elem_of_kv_list prefix kv name :
  name ∈ kv_list prefix kv -> has_prefix prefix name /\ is_Some (kv !! name).
Proof.
  intros H. eapply elem_of_sublist in H; [|apply sublist_take].
  apply list_elem_of_filter in H as [H1 H2]. split; [exact H1|]. apply elem_of_names, H2.
Qed.

Lemma kv_list_length prefix kv : (length (kv_list prefix kv) <= list_limit)%nat.
Proof. unfold Admin.kv_list. rewrite length_take. lia. Qed.

Lemma kv_list_all kv :
  (records kv <= list_limit)%nat ->
  kv_list RECORD_PREFIX kv = filter (has_prefix RECORD_PREFIX) (names kv).
Proof. intros H. unfold Admin.kv_list. apply take_ge, H. Qed.

Lemma collect_returned ctx kv keys : forall acc rs,
  collect ctx kv keys acc = Returned rs ->
  exists new, rs = acc ++ new
              /\ Forall2 (read_as kv) (filter (has_text kv) keys) new
              /\ Forall (fun name => get_fault ctx name = None) keys.
Proof.
  induction keys as [|name rest IH]; intros acc rs; simpl.
  - intros E; inversion E; subst rs. exists []. rewrite app_nil_r. repeat constructor.
  - destruct (get_fault ctx name) eqn:Hf; [discriminate|].
    rewrite filter_cons.
    destruct (kv !! name) as [[|c val]|] eqn:Hv.
    + intros H. apply IH in H as (new & -> & H2 & H3).
      destruct (decide (has_text kv name)) as [(v & E & Hne)|_].
      { rewrite Hv in E. inversion E; subst v. contradiction. }
      exists new. repeat split; try assumption. constructor; assumption.
    + destruct (JSON_parse (String c val)) as [parsed|e] eqn:Hp; [|discriminate].
      intros H. apply IH in H as (new & -> & H2 & H3).
      destruct (decide (has_text kv name)) as [_|Hn].
      2:{ exfalso. apply Hn. exists (String c val). split; [exact Hv | discriminate]. }
      exists (parsed :: new). rewrite <- app_assoc. repeat split.
      * constructor; [|exact H2]. exists (String c val).
        repeat split; [exact Hv | discriminate | exact Hp].
      * constructor; assumption.
    + intros H. apply IH in H as (new & -> & H2 & H3).
      destruct (decide (has_text kv name)) as [(v & E & Hne)|_].
      { rewrite Hv in E. discriminate. }
      exists new. repeat split; try assumption. constructor; assumption.
Qed.

Lemma collect_returns ctx kv keys : forall acc new,
  Forall (fun name => get_fault ctx name = None) keys ->
  Forall2 (read_as kv) (filter (has_text kv) keys) new ->
  collect ctx kv keys acc = Returned (acc ++ new).
Proof.
  induction keys as [|name rest IH]; intros acc new Hf H; simpl.
  - inversion H; subst. rewrite app_nil_r. reflexivity.
  - apply Forall_cons in Hf as [Hf1 Hf]. rewrite Hf1.
    rewrite filter_cons in H.
    destruct (decide (has_text kv name)) as [(v & E & Hne)|Hn].
    + inversion H as [|? j ? new' (v' & E' & _ & Hp) H']; subst.
      rewrite E. rewrite E' in E. inversion E; subst v'.
      destruct v as [|c v]; [contradiction|]. rewrite Hp.
      rewrite (IH _ new' Hf H'), <- app_assoc. reflexivity.
    + destruct (kv !! name) as [[|c val]|] eqn:Hv; try (apply IH; assumption).
      exfalso. apply Hn. exists (String c val). split; [exact Hv | discriminate].
Qed.

Lemma onRequestGet_200 ctx kv resp :
  onRequestGet ctx kv = Returned resp ->
  response_status resp = 200%nat ->
  exists responses,
    resp = export_response responses
    /\ Forall2 (read_as kv) (filter (has_text kv) (kv_list RECORD_PREFIX kv)) responses
    /\ Forall (fun name => get_fault ctx name = None) (kv_list RECORD_PREFIX kv)
    /\ differs (x_admin_key ctx) (ADMIN_KEY ctx) = false
    /\ list_fault ctx = None.
Proof.
  unfold Admin.onRequestGet.
  destruct (differs _ _); [intros E; inversion E; subst resp; discriminate|].
  destruct (list_fault ctx); [discriminate|].
  destruct (collect ctx kv _ []) as [rs|e] eqn:Hc; [|discriminate].
  intros E _; inversion E; subst resp. exists rs.
  apply collect_returned in Hc as (new & -> & H2 & H3). simpl. auto.
Qed.

Lemma onRequestGet_returns ctx kv responses :
  differs (x_admin_key ctx) (ADMIN_KEY ctx) = false ->
  list_fault ctx = None ->
  Forall (fun name => get_fault ctx name = None) (kv_list RECORD_PREFIX kv) ->
  Forall2 (read_as kv) (filter (has_text kv) (kv_list RECORD_PREFIX kv)) responses ->
  onRequestGet ctx kv = Returned (export_response responses).
Proof.
  intros Hd Hl Hf H. unfold Admin.onRequestGet. rewrite Hd, Hl.
  rewrite (collect_returns ctx kv _ [] responses Hf H). reflexivity.
Qed.

(** X15: unless the request carries an [x-admin-key] header whose value
    is the string bound to [ADMIN_KEY], the export answers 401
    ['Unauthorized'] whatever the store holds, and nothing of the store
    is in the answer.  In particular a deployment without the [ADMIN_KEY]
    binding refuses every request, also one without the header. *)
Theorem export_needs_the_admin_key ctx :
  (forall k, ~ (x_admin_key ctx = Some k /\ ADMIN_KEY ctx = Some k)) ->
  forall kv, onRequestGet ctx kv = Returned unauthorized.
Proof.
  intros H kv. unfold Admin.onRequestGet.
  destruct (differs _ _) eqn:E; [reflexivity|].
  apply differs_false in E as (k & E1 & E2). destruct (H k). split; assumption.
Qed.

(** X16: an export answered 200 holds [{count, responses}] where every
    item of [responses] is what [JSON.parse] returns for a non-empty text
    stored under a key that starts with ['response:']; the counter key
    ['response_count'] is never exported; and there are at most as many
    items as one page of [SURVEY_KV.list] holds keys. *)
Theorem export_holds_records_only ctx kv resp :
  onRequestGet ctx kv = Returned resp ->
  response_status resp = 200%nat ->
  exists responses,
    resp = export_response responses
    /\ (length responses <= list_limit)%nat
    /\ Forall (fun parsed =>
                 exists name, has_prefix RECORD_PREFIX name /\ name <> RESPONSE_COUNT
                              /\ read_as kv name parsed) responses.
Proof.
  intros H Hs. destruct (onRequestGet_200 ctx kv resp H Hs) as (rs & -> & H2 & _).
  exists rs. split; [reflexivity|]. split.
  - apply Forall2_length in H2. rewrite <- H2.
    etransitivity; [apply length_filter|]. apply kv_list_length.
  - remember (filter _ _) as keys eqn:Hk.
    assert (Hin : forall name, name ∈ keys -> has_prefix RECORD_PREFIX name).
    { intros name Hn. subst keys. apply list_elem_of_filter in Hn as [_ Hn].
      apply elem_of_kv_list in Hn as [Hn _]. exact Hn. }
    clear Hk H Hs. induction H2 as [|name j keys new Hr H2 IH]; constructor.
    + exists name. split; [apply Hin; left|]. split; [|exact Hr].
      intros ->. apply count_key_has_no_prefix, Hin. left.
    + apply IH. intros n Hn. apply Hin. right. exact Hn.
Qed.

(** X17: when the store holds no more records than one page of
    [SURVEY_KV.list], an export answered 200 is complete: every non-empty
    text stored under a ['response:'] key is in it, parsed. *)
Theorem export_is_complete_below_the_limit ctx kv resp :
  onRequestGet ctx kv = Returned resp ->
  response_status resp = 200%nat ->
  (records kv <= list_limit)%nat ->
  exists responses,
    resp = export_response responses
    /\ forall name val,
         has_prefix RECORD_PREFIX name -> kv !! name = Some val -> val <> EmptyString ->
         exists parsed, JSON_parse val = Returned parsed /\ parsed ∈ responses.
Proof.
  intros H Hs Hlim. destruct (onRequestGet_200 ctx kv resp H Hs) as (rs & -> & H2 & _).
  exists rs. split; [reflexivity|]. intros name val Hp Hv Hne.
  assert (Hin : name ∈ filter (has_text kv) (kv_list RECORD_PREFIX kv)).
  { apply list_elem_of_filter. split; [exists val; split; assumption|].
    rewrite kv_list_all by exact Hlim. apply list_elem_of_filter. split; [exact Hp|].
    apply elem_of_names. eauto. }
  apply list_elem_of_lookup in Hin as [i Hi].
  destruct (Forall2_lookup_l _ _ _ _ _ H2 Hi) as (j & Hj & (v & Ev & _ & Hparse)).
  rewrite Hv in Ev. inversion Ev; subst v. exists j. split; [exact Hparse|].
  apply list_elem_of_lookup. eauto.
Qed.

(** X18: the export has no [try]: when [JSON.parse] throws on the text of
    one listed record, the handler throws and no record is exported,
    however many of the others are well formed. *)
Theorem one_unreadable_record_blocks_the_export ctx kv name val e :
  differs (x_admin_key ctx) (ADMIN_KEY ctx) = false ->
  name ∈ kv_list RECORD_PREFIX kv ->
  kv !! name = Some val -> val <> EmptyString ->
  JSON_parse val = Threw e ->
  exists e', onRequestGet ctx kv = Threw e'.
Proof.
  intros Hd Hin Hv Hne Hp.
  destruct (onRequestGet ctx kv) as [resp|e'] eqn:H; [|eauto]. exfalso.
  assert (Hs : response_status resp = 200%nat).
  { revert H. unfold Admin.onRequestGet. rewrite Hd.
    destruct (list_fault ctx); [discriminate|].
    destruct (collect ctx kv _ []); [|discriminate].
    intros E; inversion E; reflexivity. }
  destruct (onRequestGet_200 ctx kv resp H Hs) as (rs & _ & H2 & _).
  assert (Hin' : name ∈ filter (has_text kv) (kv_list RECORD_PREFIX kv)).
  { apply list_elem_of_filter. split; [exists val; split; assumption | exact Hin]. }
  apply list_elem_of_lookup in Hin' as [i Hi].
  destruct (Forall2_lookup_l _ _ _ _ _ H2 Hi) as (j & _ & (v & Ev & _ & Hparse)).
  rewrite Hv in Ev. inversion Ev; subst v. rewrite Hp in Hparse. discriminate.
Qed.

End Handler.

Lemma export_needs_the_admin_key_witness :
  (forall k, ~ (x_admin_key Cases.stranger = Some k /\ ADMIN_KEY Cases.stranger = Some k))
  /\ onRequestGet Cases.parse_known 1000 Cases.stranger Cases.after_first
     = Returned unauthorized.
Proof.
  assert (H : forall k, ~ (x_admin_key Cases.stranger = Some k
                           /\ ADMIN_KEY Cases.stranger = Some k))
    by (intros k [E _]; discriminate E).
  split; [exact H|].
  apply (export_needs_the_admin_key Cases.parse_known 1000 Cases.stranger H).
Defined.

Lemma export_holds_records_only_witness :
  onRequestGet Cases.parse_known 1000 Cases.admin Cases.after_first
  = Returned (export_response [Cases.first_record])
  /\ exists responses,
       export_response [Cases.first_record] = export_response responses
       /\ (length responses <= 1000)%nat
       /\ Forall (fun parsed =>
                    exists name, has_prefix RECORD_PREFIX name /\ name <> RESPONSE_COUNT
                                 /\ read_as Cases.parse_known Cases.after_first name parsed)
            responses.
Proof.
  assert (H : onRequestGet Cases.parse_known 1000 Cases.admin Cases.after_first
              = Returned (export_response [Cases.first_record]))
    by (vm_compute; reflexivity).
  split; [exact H|].
  apply (export_holds_records_only Cases.parse_known 1000 Cases.admin Cases.after_first
           (export_response [Cases.first_record]) H).
  reflexivity.
Defined.

Lemma export_is_complete_below_the_limit_witness :
  (records Cases.after_first <= 1000)%nat
  /\ exists responses,
       export_response [Cases.first_record] = export_response responses
       /\ forall name val,
            has_prefix RECORD_PREFIX name -> Cases.after_first !! name = Some val ->
            val <> EmptyString ->
            exists parsed, Cases.parse_known val = Returned parsed /\ parsed ∈ responses.
Proof.
  assert (H : onRequestGet Cases.parse_known 1000 Cases.admin Cases.after_first
              = Returned (export_response [Cases.first_record]))
    by (vm_compute; reflexivity).
  assert (Hlim : (records Cases.after_first <= 1000)%nat) by (vm_compute; lia).
  split; [exact Hlim|].
  apply (export_is_complete_below_the_limit Cases.parse_known 1000 Cases.admin
           Cases.after_first (export_response [Cases.first_record]) H);
    [reflexivity | exact Hlim].
Defined.

Lemma one_unreadable_record_blocks_the_export_witness :
  Cases.with_broken_record !! "response:broken"%string = Some "{oops"%string
  /\ exists e', onRequestGet Cases.parse_known 1000 Cases.admin Cases.with_broken_record
                = Threw e'.
Proof.
  assert (Hv : Cases.with_broken_record !! "response:broken"%string = Some "{oops"%string)
    by (vm_compute; reflexivity).
  split; [exact Hv|].
  apply (one_unreadable_record_blocks_the_export Cases.parse_known 1000 Cases.admin
           Cases.with_broken_record "response:broken"%string "{oops"%string
           "Unexpected token"%string);
    [ reflexivity
    | apply list_elem_of_lookup; exists 1%nat; vm_compute; reflexivity
    | exact Hv
    | discriminate
    | vm_compute; reflexivity ].
Defined.

End AdminFacts.

(** ** Submissions one after the other *)

Module IntakeFacts.

Import Survey Admin Intake SurveyFacts AdminFacts.

Lemma or_zero_decimal z : or_zero (Some (decimal z)) = decimal z.
Proof.
  unfold or_zero. destruct (decimal z) eqn:Hs; [|reflexivity].
  destruct (decimal_nonempty z Hs).
Qed.

Lemma reread_safe z : (Z.abs z <= SAFE)%Z -> reread (Integer z) = Integer z.
Proof.
  intros Hz. unfold reread. rewrite String_of_number_safe by exact Hz.
  rewrite or_zero_decimal. apply parseInt_decimal, Hz.
Qed.

Lemma reread_NaN : reread NaN = NaN.
Proof. reflexivity. Qed.

Lemma counted_insert_count kv n :
  counted (<[RESPONSE_COUNT := String_of_number n]> kv) = reread n.
Proof. unfold counted, reread. rewrite lookup_insert_eq. reflexivity. Qed.

Lemma counted_insert_record kv id text :
  counted (<[record_key id := text]> kv) = counted kv.
Proof.
  unfold counted. rewrite lookup_insert_ne by apply record_key_not_count. reflexivity.
Qed.

Lemma onRequestPost_effect ctx kv :
  exists eff,
    (onRequestPost ctx kv).2 = apply_effect ctx kv eff
    /\ match eff with
       | Counted _ => answered_ok (onRequestPost ctx kv).1 = true
       | Stored _ =>
           answered_ok (onRequestPost ctx kv).1 = false
           /\ (get_count_fault ctx <> None \/ put_count_fault ctx <> None)
       | Untouched => answered_ok (onRequestPost ctx kv).1 = false
       end.
Proof.
  pose proof (onRequestPost_cases ctx kv) as H.
  destruct (request_json ctx) as [data|e]; [|exists Untouched; rewrite H; split; reflexivity].
  destruct (extend ctx data) as [data'|e]; [|exists Untouched; rewrite H; split; reflexivity].
  cbv zeta in H.
  destruct (put_record_fault ctx); [exists Untouched; rewrite H; split; reflexivity|].
  destruct (get_count_fault ctx) eqn:Eg.
  { exists (Stored (JSON_stringify data')). rewrite H. repeat split. left. discriminate. }
  destruct (put_count_fault ctx) eqn:Ep.
  { exists (Stored (JSON_stringify data')). rewrite H. repeat split. right. discriminate. }
  exists (Counted (JSON_stringify data')). rewrite H. split; reflexivity.
Qed.

Lemma counted_step ctx kv :
  counted (onRequestPost ctx kv).2
  = if answered_ok (onRequestPost ctx kv).1 then reread (add_one (counted kv))
    else counted kv.
Proof.
  destruct (onRequestPost_effect ctx kv) as ([| text | text] & -> & H); simpl.
  - rewrite H. reflexivity.
  - destruct H as [-> _]. apply counted_insert_record.
  - rewrite H. unfold next_count. apply counted_insert_count.
Qed.

Lemma count_text_step ctx kv :
  (onRequestPost ctx kv).2 !! RESPONSE_COUNT
  = if answered_ok (onRequestPost ctx kv).1 then Some (next_count kv)
    else kv !! RESPONSE_COUNT.
Proof.
  destruct (onRequestPost_effect ctx kv) as ([| text | text] & -> & H); simpl.
  - rewrite H. reflexivity.
  - destruct H as [-> _]. apply lookup_insert_ne, record_key_not_count.
  - rewrite H. apply lookup_insert_eq.
Qed.

Lemma serve_cons ctx rest kv :
  serve (ctx :: rest) kv
  = ((onRequestPost ctx kv).1 :: (serve rest (onRequestPost ctx kv).2).1,
     (serve rest (onRequestPost ctx kv).2).2).
Proof.
  simpl. destruct (onRequestPost ctx kv) as [resp kv1]. simpl.
  destruct (serve rest kv1) as [resps kv2]. reflexivity.
Qed.

Lemma count_text_kept requests : forall kv,
  successes (serve requests kv).1 = 0%nat ->
  (serve requests kv).2 !! RESPONSE_COUNT = kv !! RESPONSE_COUNT.
Proof.
  induction requests as [|ctx rest IH]; intros kv; [reflexivity|].
  rewrite serve_cons. cbn [fst snd]. unfold successes. cbn [List.filter].
  pose proof (count_text_step ctx kv) as Hs.
  destruct (answered_ok (onRequestPost ctx kv).1); [discriminate|].
  intros H. rewrite (IH _ H). exact Hs.
Qed.

(** X11: when requests are handled one after the other on a store whose
    counter reads as the integer [c], not below [-2^53], and [c] plus the
    number of requests answered 200 does not exceed [2^53], the counter
    afterwards reads as [c] plus that number: every submission answered
    200 is counted once, and no request answered 500 is counted, whether
    it stored its record or not.  A counter that reads as [2^53] stays
    there: in doubles [2^53 + 1] is [2^53]. *)
Theorem counter_counts_the_successes requests : forall kv,
  (forall c,
     counted kv = Integer c -> (- SAFE <= c)%Z ->
     (c + Z.of_nat (successes (serve requests kv).1) <= SAFE)%Z ->
     counted (serve requests kv).2
     = Integer (c + Z.of_nat (successes (serve requests kv).1))%Z)
  /\ (counted kv = Integer SAFE -> counted (serve requests kv).2 = Integer SAFE).
Proof.
  induction requests as [|ctx rest IH]; intros kv.
  - split.
    + intros c Hc _ _. simpl. rewrite Hc. f_equal. unfold successes. simpl. lia.
    + intros Hc. exact Hc.
  - rewrite serve_cons. cbn [fst snd].
    pose proof (counted_step ctx kv) as Hs.
    destruct (IH (onRequestPost ctx kv).2) as [IH1 IH2]. split.
    + intros c Hc Hlo. rewrite Hc in Hs.
      unfold successes. cbn [List.filter].
      destruct (answered_ok (onRequestPost ctx kv).1).
      * cbn [length]. fold (successes (serve rest (onRequestPost ctx kv).2).1).
        intros Hhi.
        rewrite add_one_safe in Hs by lia. rewrite reread_safe in Hs by lia.
        rewrite (IH1 _ Hs) by lia. f_equal. lia.
      * fold (successes (serve rest (onRequestPost ctx kv).2).1).
        intros Hhi. apply (IH1 _ Hs); assumption.
    + intros Hc. rewrite Hc in Hs. apply IH2.
      destruct (answered_ok (onRequestPost ctx kv).1); [|exact Hs].
      rewrite Hs. vm_compute. reflexivity.
Qed.

Lemma counter_counts_the_successes_witness :
  counted Scenario.seven_so_far = Integer 7
  /\ successes (serve Cases.three_requests Scenario.seven_so_far).1 = 2%nat
  /\ counted (serve Cases.three_requests Scenario.seven_so_far).2
     = Integer (7 + Z.of_nat (successes (serve Cases.three_requests
                                           Scenario.seven_so_far).1))%Z.
Proof.
  assert (H : counted Scenario.seven_so_far = Integer 7) by (vm_compute; reflexivity).
  split; [exact H|]. split; [vm_compute; reflexivity|].
  apply (proj1 (counter_counts_the_successes Cases.three_requests Scenario.seven_so_far)
           7%Z H); vm_compute; discriminate.
Defined.

(** X12: a counter whose text, after leading white space, does not
    start with an integer is never repaired: [parseInt] gives [NaN],
    [NaN + 1] is [NaN], so the first submission answered 200 stores the
    text ['NaN'], and after any further requests the counter is still not
    a number. *)
Theorem unreadable_counter_never_recovers requests : forall kv,
  counted kv = NaN ->
  counted (serve requests kv).2 = NaN
  /\ ((0 < successes (serve requests kv).1)%nat ->
      (serve requests kv).2 !! RESPONSE_COUNT = Some "NaN"%string).
Proof.
  induction requests as [|ctx rest IH]; intros kv Hc.
  - simpl. split; [exact Hc|]. unfold successes. simpl. lia.
  - rewrite serve_cons. cbn [fst snd].
    pose proof (counted_step ctx kv) as Hs. rewrite Hc in Hs.
    assert (Hs' : counted (onRequestPost ctx kv).2 = NaN).
    { destruct (answered_ok _); exact Hs. }
    destruct (IH _ Hs') as [H1 H2]. split; [exact H1|].
    unfold successes. cbn [List.filter].
    destruct (successes (serve rest (onRequestPost ctx kv).2).1) as [|n] eqn:En.
    2:{ intros _. apply H2. lia. }
    pose proof (count_text_step ctx kv) as Ht.
    destruct (answered_ok (onRequestPost ctx kv).1) eqn:Eok.
    2:{ unfold successes in En. rewrite En. lia. }
    intros _. rewrite (count_text_kept _ _ En), Ht.
    unfold next_count. fold (counted kv). rewrite Hc. reflexivity.
Qed.

Lemma unreadable_counter_never_recovers_witness :
  counted Cases.unreadable_count = NaN
  /\ counted (serve Cases.three_requests Cases.unreadable_count).2 = NaN
  /\ ((0 < successes (serve Cases.three_requests Cases.unreadable_count).1)%nat ->
      (serve Cases.three_requests Cases.unreadable_count).2 !! RESPONSE_COUNT
      = Some "NaN"%string).
Proof.
  assert (H : counted Cases.unreadable_count = NaN) by (vm_compute; reflexivity).
  split; [exact H|].
  apply (unreadable_counter_never_recovers Cases.three_requests Cases.unreadable_count H).
Defined.

(** *** Records and counter *)

Lemma records_insert_other kv name v :
  ~ has_prefix RECORD_PREFIX name -> records (<[name := v]> kv) = records kv.
Proof.
  intros Hp. unfold records.
  destruct (kv !! name) as [w|] eqn:Hn.
  - rewrite names_insert_known by eauto. reflexivity.
  - rewrite names_insert_fresh by exact Hn. rewrite filter_cons.
    destruct (decide (has_prefix RECORD_PREFIX name)); [contradiction | reflexivity].
Qed.

Lemma records_insert_record kv id v :
  records (<[record_key id := v]> kv)
  = (records kv + match kv !! record_key id with Some _ => 0 | None => 1 end)%nat.
Proof.
  unfold records. destruct (kv !! record_key id) as [w|] eqn:Hn.
  - rewrite names_insert_known by eauto. lia.
  - rewrite names_insert_fresh by exact Hn. rewrite filter_cons.
    destruct (decide (has_prefix RECORD_PREFIX (record_key id))) as [_|Hp].
    + simpl. lia.
    + destruct Hp. apply record_key_has_prefix.
Qed.

Lemma record_key_inj id id' : record_key id = record_key id' -> id = id'.
Proof. unfold record_key. simpl. intros E. inversion E as [E']. exact E'. Qed.

Lemma fresh_step ctx kv id :
  id <> random_uuid ctx -> kv !! record_key id = None ->
  (onRequestPost ctx kv).2 !! record_key id = None.
Proof.
  intros Hne Hf.
  assert (Hk : record_key (random_uuid ctx) <> record_key id).
  { intros E. apply record_key_inj in E. congruence. }
  destruct (onRequestPost_effect ctx kv) as ([| text | text] & -> & _); simpl.
  - exact Hf.
  - rewrite lookup_insert_ne by exact Hk. exact Hf.
  - rewrite lookup_insert_ne
      by (intros E; symmetry in E; revert E; apply record_key_not_count).
    rewrite lookup_insert_ne by exact Hk. exact Hf.
Qed.

Lemma drift_step ctx kv c :
  kv !! record_key (random_uuid ctx) = None ->
  counted kv = Integer c -> (- SAFE <= c < SAFE)%Z ->
  exists c',
    counted (onRequestPost ctx kv).2 = Integer c'
    /\ (c <= c' <= c + 1)%Z
    /\ (Z.of_nat (records kv) - c <= Z.of_nat (records (onRequestPost ctx kv).2) - c')%Z
    /\ (get_count_fault ctx = None -> put_count_fault ctx = None ->
        (Z.of_nat (records (onRequestPost ctx kv).2) - c' = Z.of_nat (records kv) - c)%Z).
Proof.
  intros Hf Hc Hsafe. pose proof (counted_step ctx kv) as Hs. rewrite Hc in Hs.
  rewrite add_one_safe in Hs by exact Hsafe. rewrite reread_safe in Hs by lia.
  destruct (onRequestPost_effect ctx kv) as ([| text | text] & E & H); rewrite E in *; simpl.
  - rewrite H in Hs. exists c. split; [exact Hs|]. split; [lia|]. split; intros; lia.
  - destruct H as [H Hlate]. rewrite H in Hs. exists c. split; [exact Hs|].
    split; [lia|].
    rewrite records_insert_record, Hf. split; [lia|].
    intros Hg Hp. destruct Hlate; contradiction.
  - rewrite H in Hs. exists (c + 1)%Z. split; [exact Hs|]. split; [lia|].
    rewrite records_insert_other by apply count_key_has_no_prefix.
    rewrite records_insert_record, Hf. split; intros; lia.
Qed.

(** X13: when requests with pairwise distinct ids, none of them stored
    yet, are handled one after the other on a store whose counter reads
    as an integer [c], not below [-2^53] and with [c] plus the number of
    requests not above [2^53], the counter does not gain on the records:
    the number of ['response:'] keys minus the counter never decreases,
    and it stays the same when no read or write of the counter throws.
    A request interrupted between its two writes leaves a record that is
    never counted. *)
Theorem counter_never_runs_ahead requests : forall kv c,
  NoDup (map random_uuid requests) ->
  (forall ctx, ctx ∈ requests -> kv !! record_key (random_uuid ctx) = None) ->
  counted kv = Integer c ->
  (- SAFE <= c)%Z -> (c + Z.of_nat (length requests) <= SAFE)%Z ->
  exists c',
    counted (serve requests kv).2 = Integer c'
    /\ (c <= c' <= c + Z.of_nat (length requests))%Z
    /\ (Z.of_nat (records kv) - c <= Z.of_nat (records (serve requests kv).2) - c')%Z
    /\ ((forall ctx, ctx ∈ requests ->
           get_count_fault ctx = None /\ put_count_fault ctx = None) ->
        (Z.of_nat (records (serve requests kv).2) - c' = Z.of_nat (records kv) - c)%Z).
Proof.
  induction requests as [|ctx rest IH]; intros kv c Hnd Hfresh Hc Hlo Hhi.
  - exists c. simpl. split; [exact Hc|]. split; [lia|]. split; intros; lia.
  - rewrite serve_cons. cbn [snd]. cbn [length] in Hhi |- *.
    simpl in Hnd. apply NoDup_cons in Hnd as [Hhd Hnd].
    destruct (drift_step ctx kv c (Hfresh ctx (list_elem_of_here _ _)) Hc)
      as (c1 & Hc1 & Hstep & Hle & Heq); [lia|].
    destruct (IH (onRequestPost ctx kv).2 c1 Hnd) as (c' & Hc' & Hrange & Hle' & Heq').
    + intros ctx' Hin. apply fresh_step.
      * intros E. apply Hhd. rewrite <- E. apply list_elem_of_fmap. eauto.
      * apply Hfresh. right. exact Hin.
    + exact Hc1.
    + lia.
    + lia.
    + exists c'. split; [exact Hc'|]. split; [lia|]. split; [lia|].
      intros Hno. destruct (Hno ctx (list_elem_of_here _ _)) as [Hg Hp].
      rewrite Heq' by (intros x Hx; apply Hno; right; exact Hx).
      apply Heq; assumption.
Qed.

Lemma counter_never_runs_ahead_witness :
  NoDup (map random_uuid Cases.three_requests)
  /\ counted Scenario.seven_so_far = Integer 7
  /\ records Scenario.seven_so_far = 0%nat
  /\ records (serve Cases.three_requests Scenario.seven_so_far).2 = 3%nat
  /\ exists c',
       counted (serve Cases.three_requests Scenario.seven_so_far).2 = Integer c'
       /\ (Z.of_nat (records Scenario.seven_so_far) - 7
           <= Z.of_nat (records (serve Cases.three_requests Scenario.seven_so_far).2) - c')%Z.
Proof.
  assert (Hnd : NoDup (map random_uuid Cases.three_requests)).
  { apply (bool_decide_unpack _). vm_compute. exact I. }
  assert (Hc : counted Scenario.seven_so_far = Integer 7) by (vm_compute; reflexivity).
  assert (Hfresh : forall ctx, ctx ∈ Cases.three_requests ->
                     Scenario.seven_so_far !! record_key (random_uuid ctx) = None).
  { intros ctx Hin. unfold Cases.three_requests in Hin.
    repeat (apply elem_of_cons in Hin as [-> | Hin]; [vm_compute; reflexivity|]).
    inversion Hin. }
  split; [exact Hnd|]. split; [exact Hc|].
  split; [vm_compute; reflexivity|]. split; [vm_compute; reflexivity|].
  destruct (counter_never_runs_ahead Cases.three_requests Scenario.seven_so_far 7
              Hnd Hfresh Hc) as (c' & H1 & _ & H2 & _); [vm_compute; discriminate..|].
  exists c'. split; assumption.
Defined.

(** *** The answers *)

Lemma client_fields_set_field key v fields :
  is_client_field (key, v) = false ->
  client_fields (set_field key v fields) = client_fields fields.
Proof.
  intros Hk. unfold client_fields.
  induction fields as [|[k w] rest IH]; simpl.
  - rewrite Hk. reflexivity.
  - destruct (String.eqb k key) eqn:E; simpl.
    + apply String.eqb_eq in E. subst k.
      unfold is_client_field in *. simpl in *. rewrite Hk. reflexivity.
    + rewrite IH. reflexivity.
Qed.

(** X14: a submission answered 200 whose body is a JSON object is stored
    with every property of the body other than [_id] and [_server_ts]
    unchanged and in the order in which the parsed object enumerates its
    properties; [_id] and [_server_ts] hold the server's values, also when
    the body brought its own. *)
Theorem answers_are_stored_unchanged ctx kv fields :
  request_json ctx = Returned (JObject fields) ->
  response_status (onRequestPost ctx kv).1 = 200%nat ->
  exists fields',
    (onRequestPost ctx kv).2 !! record_key (random_uuid ctx)
    = Some (JSON_stringify (JObject fields'))
    /\ client_fields fields' = client_fields fields
    /\ get_field "_id" fields' = Some (JString (random_uuid ctx))
    /\ get_field "_server_ts" fields' = Some (JString (now_iso ctx)).
Proof.
  intros Hreq Hok. pose proof (onRequestPost_cases ctx kv) as H.
  rewrite Hreq in H. unfold extend in H. simpl in H.
  destruct (put_record_fault ctx); [rewrite H in Hok; discriminate|].
  destruct (get_count_fault ctx); [rewrite H in Hok; discriminate|].
  destruct (put_count_fault ctx); [rewrite H in Hok; discriminate|].
  rewrite H. cbn [snd]. eexists. split.
  { rewrite lookup_insert_ne
      by (intros E; symmetry in E; revert E; apply record_key_not_count).
    apply lookup_insert_eq. }
  split; [|split].
  - rewrite !client_fields_set_field by reflexivity. reflexivity.
  - apply get_set_field.
  - rewrite get_set_field_ne by discriminate. apply get_set_field.
Qed.

Lemma answers_are_stored_unchanged_witness :
  exists fields',
    (onRequestPost Cases.second_submission Cases.after_first).2
      !! record_key (random_uuid Cases.second_submission)
    = Some (JSON_stringify (JObject fields'))
    /\ client_fields fields' = [("q1"%string, JNumber "2")]
    /\ get_field "_id" fields' = Some (JString (random_uuid Cases.second_submission))
    /\ get_field "_server_ts" fields' = Some (JString (now_iso Cases.second_submission)).
Proof.
  apply (answers_are_stored_unchanged Cases.second_submission Cases.after_first
           [("q1"%string, JNumber "2"); ("_id"%string, JString "mine")]);
    [reflexivity | vm_compute; reflexivity].
Defined.

End IntakeFacts.

(** ** From submission to export *)

Module PipelineFacts.

Import Survey Admin Intake SurveyFacts AdminFacts IntakeFacts.

Lemma filter_agree {A} (P Q : A -> Prop) `{!forall x, Decision (P x)}
    `{!forall x, Decision (Q x)} (l : list A) :
  (forall x, x ∈ l -> (P x <-> Q x)) -> filter P l = filter Q l.
Proof.
  induction l as [|x l IH]; intros Hag; [reflexivity|].
  rewrite !filter_cons.
  assert (Hx : P x <-> Q x) by (apply Hag; left).
  rewrite IH by (intros y Hy; apply Hag; right; exact Hy).
  destruct (decide (P x)), (decide (Q x)); tauto.
Qed.

Lemma record_names_insert_other kv name v :
  ~ has_prefix RECORD_PREFIX name ->
  filter (has_prefix RECORD_PREFIX) (names (<[name := v]> kv))
  ≡ₚ filter (has_prefix RECORD_PREFIX) (names kv).
Proof.
  intros Hp. destruct (kv !! name) as [w|] eqn:Hn.
  - rewrite names_insert_known by eauto. reflexivity.
  - rewrite names_insert_fresh by exact Hn. rewrite filter_cons.
    destruct (decide (has_prefix RECORD_PREFIX name)); [contradiction | reflexivity].
Qed.

Lemma record_names_insert_fresh kv id v :
  kv !! record_key id = None ->
  filter (has_prefix RECORD_PREFIX) (names (<[record_key id := v]> kv))
  ≡ₚ record_key id :: filter (has_prefix RECORD_PREFIX) (names kv).
Proof.
  intros Hn. rewrite names_insert_fresh by exact Hn. rewrite filter_cons.
  destruct (decide (has_prefix RECORD_PREFIX (record_key id))) as [_|Hp]; [reflexivity|].
  destruct Hp. apply record_key_has_prefix.
Qed.

Section Pipeline.

Variable JSON_parse : string -> outcome json.
Variable list_limit : nat.

Local Abbreviation kv_list := (kv_list list_limit).
Local Abbreviation onRequestGet := (onRequestGet JSON_parse list_limit).
Local Abbreviation read_as := (read_as JSON_parse).

Lemma read_as_agree kv kv' names rs :
  (forall name, name ∈ names -> kv' !! name = kv !! name) ->
  Forall2 (read_as kv) names rs -> Forall2 (read_as kv') names rs.
Proof.
  intros Hag H. induction H as [|name j names rs Hr H IH]; constructor.
  - destruct Hr as (val & Hv & Hne & Hp). exists val. rewrite Hag by left. auto.
  - apply IH. intros n Hn. apply Hag. right. exact Hn.
Qed.

(** X19: a submission answered 200 shows in the next export.  When the
    store holds fewer records than one page of [SURVEY_KV.list], the id is
    new, the export of the store before the submission is answered 200,
    and [JSON.parse] reads the stored text back, then the export of the
    store after the submission is answered 200 with the former responses
    and the new one, one more in all. *)
Theorem a_submission_shows_in_the_export
    (sctx : Context) (actx : AdminContext) (kv : gmap string string)
    (resp : Response) (text : string) (parsed : json) :
  response_status (onRequestPost sctx kv).1 = 200%nat ->
  kv !! record_key (random_uuid sctx) = None ->
  (records kv < list_limit)%nat ->
  onRequestGet actx kv = Returned resp ->
  response_status resp = 200%nat ->
  (onRequestPost sctx kv).2 !! record_key (random_uuid sctx) = Some text ->
  JSON_parse text = Returned parsed ->
  get_fault actx (record_key (random_uuid sctx)) = None ->
  exists responses responses',
    resp = export_response responses
    /\ onRequestGet actx (onRequestPost sctx kv).2 = Returned (export_response responses')
    /\ responses' ≡ₚ parsed :: responses.
Proof.
  intros Hok Hfresh Hlim Hget Hs Htext Hparse Hfault.
  set (id := random_uuid sctx) in *. set (key := record_key id) in *.
  destruct (onRequestGet_200 _ _ actx kv resp Hget Hs) as (rs & -> & H2 & Hf & Hd & Hl).
  exists rs.
  pose proof (onRequestPost_cases sctx kv) as Hc.
  destruct (request_json sctx) as [data|e]; [|rewrite Hc in Hok; discriminate].
  destruct (extend sctx data) as [data'|e] eqn:Hx; [|rewrite Hc in Hok; discriminate].
  cbv zeta in Hc.
  destruct (put_record_fault sctx); [rewrite Hc in Hok; discriminate|].
  destruct (get_count_fault sctx); [rewrite Hc in Hok; discriminate|].
  destruct (put_count_fault sctx); [rewrite Hc in Hok; discriminate|].
  rewrite Hc in Htext |- *. cbn [snd] in *. fold id key in Htext |- *.
  set (kv' := <[RESPONSE_COUNT := next_count kv]> (<[key := JSON_stringify data']> kv)) in *.
  assert (Hsame : forall name, name ∈ kv_list RECORD_PREFIX kv -> kv' !! name = kv !! name).
  { intros name Hin. apply elem_of_kv_list in Hin as [Hp [w Hw]].
    unfold kv'. rewrite lookup_insert_ne
      by (intros E; subst name; apply count_key_has_no_prefix, Hp).
    apply lookup_insert_ne. intros E. subst name. rewrite Hfresh in Hw. discriminate. }
  assert (Hnames : filter (has_prefix RECORD_PREFIX) (names kv')
                   ≡ₚ key :: filter (has_prefix RECORD_PREFIX) (names kv)).
  { unfold kv'. rewrite record_names_insert_other by apply count_key_has_no_prefix.
    apply record_names_insert_fresh, Hfresh. }
  assert (Hlist : kv_list RECORD_PREFIX kv' ≡ₚ key :: kv_list RECORD_PREFIX kv).
  { rewrite (kv_list_all list_limit kv) by (unfold records in *; lia).
    rewrite kv_list_all; [exact Hnames|].
    unfold records in *. rewrite Hnames. simpl. lia. }
  assert (Hnonempty : text <> EmptyString).
  { unfold kv' in Htext.
    rewrite lookup_insert_ne in Htext
      by (intros E; symmetry in E; revert E; apply record_key_not_count).
    rewrite lookup_insert_eq in Htext. inversion Htext; subst text.
    destruct (extend_Returned sctx data data' Hx)
      as (_ & _ & [(f & _ & ->) | (i & n & n' & _ & -> & _)]);
      simpl; discriminate. }
  assert (Hkey : has_text kv' key) by (exists text; split; assumption).
  assert (Hold : filter (has_text kv') (kv_list RECORD_PREFIX kv)
                 = filter (has_text kv) (kv_list RECORD_PREFIX kv)).
  { apply filter_agree. intros name Hin. unfold has_text.
    rewrite (Hsame name Hin). reflexivity. }
  assert (Htexts : filter (has_text kv') (kv_list RECORD_PREFIX kv')
                   ≡ₚ key :: filter (has_text kv) (kv_list RECORD_PREFIX kv)).
  { rewrite Hlist, filter_cons. destruct (decide (has_text kv' key)); [|contradiction].
    rewrite Hold. reflexivity. }
  assert (Hall : Forall2 (read_as kv')
                   (key :: filter (has_text kv) (kv_list RECORD_PREFIX kv))
                   (parsed :: rs)).
  { constructor.
    - exists text. repeat split; assumption.
    - apply (read_as_agree kv); [|exact H2].
      intros name Hin. apply Hsame. apply list_elem_of_filter in Hin as [_ Hin]. exact Hin. }
  symmetry in Htexts.
  destruct (Permutation_Forall2 Htexts Hall) as (rs' & Hperm & Hrs').
  exists rs'. split; [reflexivity|]. split; [|symmetry; exact Hperm].
  apply onRequestGet_returns; try assumption.
  rewrite Hlist. constructor; assumption.
Qed.

End Pipeline.

Lemma a_submission_shows_in_the_export_witness :
  onRequestGet Cases.parse_known 1000 Cases.admin
    (onRequestPost Cases.second_submission Cases.after_first).2
  = Returned (export_response [Cases.first_record; Cases.second_record])
  /\ exists responses responses',
       export_response [Cases.first_record] = export_response responses
       /\ onRequestGet Cases.parse_known 1000 Cases.admin
            (onRequestPost Cases.second_submission Cases.after_first).2
          = Returned (export_response responses')
       /\ responses' ≡ₚ Cases.second_record :: responses.
Proof.
  split; [vm_compute; reflexivity|].
  apply (a_submission_shows_in_the_export Cases.parse_known 1000
           Cases.second_submission Cases.admin Cases.after_first
           (export_response [Cases.first_record])
           (JSON_stringify Cases.second_record) Cases.second_record);
    first [ vm_compute; reflexivity | vm_compute; lia ].
Defined.

End PipelineFacts.
